(** * The lip-sync engine of the avatar studio

    A shallow embedding of [useLipSyncEngine] (the text synthesiser, the audio
    transformer, the analyser loop and the playback session) and of
    [createVariantEmotion] from the studio page.

    Numbers.  A finite JavaScript number is a rational, so the quantities the
    code obtains with [+ - * /], [Math.min], [Math.max], [Math.abs],
    [Math.floor] and [Math.ceil] are modelled in [Q], computed exactly (the
    rounding of IEEE doubles, [NaN] and the infinities are not modelled).
    Whatever goes through [Math.pow], [Math.sqrt], [Math.sin] or [Math.PI] is a
    real number of [R].  Module [Binary64] repeats the duration arithmetic on
    IEEE doubles. *)

From Stdlib Require Import Floats.
From Stdlib Require Import ZArith NArith QArith Qround Qminmax Qabs Qreals.
From Stdlib Require Import Reals Psatz List Bool String.
Import ListNotations.

(** ** JavaScript values used by the engine *)

Module JS.

(** Exceptions and promise rejections that cross the engine. *)
Inductive exn : Type :=
| NotSupportedError   (* DOMException of createBuffer / OfflineAudioContext *)
| EncodingError       (* decodeAudioData on bytes it cannot decode *)
| NotReadableError    (* file.arrayBuffer() *)
| InvalidStateError   (* resume / startRendering on a closed context *)
| Error (message : string).

(** How a call completes: normally with a value, or abruptly. *)
Inductive completion (A : Type) : Type :=
| Return (a : A)
| Throw (e : exn).
Arguments Return {A} a.
Arguments Throw {A} e.

(** [const clamp = (value, min = 0, max = 1) => Math.min(max, Math.max(min, value))] *)
Definition clamp (value min max : Q) : Q := Qmin max (Qmax min value).

(** The same function on a value that came out of a transcendental. *)
Definition clampR (value min max : R) : R := Rmin max (Rmax min value).

(** [Math.pow(x, y)] for a base [x >= 0], the only bases the engine uses
    ([2] and [rms * 4.2]): [pow(0, y)] is [0] for [y > 0] and [pow(x, 0)] is
    [1]; a negative exponent on base [0] (JavaScript's [Infinity]) does not
    occur. *)
Definition Math_pow (x y : R) : R :=
  if Req_dec_T x 0 then (if Req_dec_T y 0 then 1%R else 0%R) else Rpower x y.

(** A string is its sequence of UTF-16 code units. *)
Definition jsstring : Type := list N.

Definition fromAscii (s : string) : jsstring :=
  map Ascii.N_of_ascii (list_ascii_of_string s).

Fixpoint jsstring_eqb (a b : jsstring) : bool :=
  match a, b with
  | [], [] => true
  | x :: a', y :: b' => N.eqb x y && jsstring_eqb a' b'
  | _, _ => false
  end.

(** The class [\s] of a regular expression, which is also what [trim]
    strips: WhiteSpace and LineTerminator of ECMAScript. *)
Definition isWhiteSpace (c : N) : bool :=
  ((9 <=? c) && (c <=? 13) || (c =? 32) || (c =? 160) || (c =? 5760)
   || (8192 <=? c) && (c <=? 8202) || (c =? 8232) || (c =? 8233)
   || (c =? 8239) || (c =? 8287) || (c =? 12288) || (c =? 65279))%N.

(** [s.replace(/\s+/g, " ")]: every maximal run of white space becomes one
    space.  [inRun] tells that the previous unit was white space. *)
Fixpoint replaceRuns (inRun : bool) (s : jsstring) : jsstring :=
  match s with
  | [] => []
  | c :: rest =>
      if isWhiteSpace c
      then (if inRun then replaceRuns true rest else 32%N :: replaceRuns true rest)
      else c :: replaceRuns false rest
  end.

Fixpoint trimStart (s : jsstring) : jsstring :=
  match s with
  | [] => []
  | c :: rest => if isWhiteSpace c then trimStart rest else s
  end.

Definition trimEnd (s : jsstring) : jsstring := rev (trimStart (rev s)).

(** [s.trim()] *)
Definition trim (s : jsstring) : jsstring := trimEnd (trimStart s).

(** [s.split(" ")]; [cur] holds the piece being read, reversed. *)
Fixpoint splitFrom (cur : jsstring) (s : jsstring) : list jsstring :=
  match s with
  | [] => [rev cur]
  | c :: rest =>
      if (c =? 32)%N then rev cur :: splitFrom [] rest
      else splitFrom (c :: cur) rest
  end.

Definition split (s : jsstring) : list jsstring := splitFrom [] s.

Definition isHighSurrogate (c : N) : bool := ((55296 <=? c) && (c <=? 56319))%N.
Definition isLowSurrogate (c : N) : bool := ((56320 <=? c) && (c <=? 57343))%N.

(** [for (const char of s)]: the string iterator yields code points, a
    surrogate pair as one character of two units. *)
Fixpoint characters (s : jsstring) : list jsstring :=
  match s with
  | [] => []
  | h :: rest =>
      match rest with
      | l :: rest' =>
          if isHighSurrogate h && isLowSurrogate l
          then [h; l] :: characters rest'
          else [h] :: characters rest
      | [] => [[h]]
      end
  end.

(** [s.charCodeAt(0)]; the engine calls it on lower-cased characters, which
    are never empty (on the empty string JavaScript gives [NaN]). *)
Definition charCodeAt0 (s : jsstring) : N :=
  match s with
  | [] => 0%N
  | c :: _ => c
  end.

End JS.

(** ** Emotion presets *)

Module Emotions.

(** Modelled from the spec: the [EmotionPreset] type of [lib/emotions], which
    is imported by the engine but is not among the sources.  The spec's data
    model lists an identifier, a display label and description, the five
    numeric fields and an accent colour. *)
Record EmotionPreset : Type := {
  presetId : string;
  label : string;
  description : string;
  tempoMultiplier : Q;
  pitchShift : Q;
  gestureIntensity : Q;
  mouthIntensity : Q;
  browLift : Q;
  accentColor : string
}.

End Emotions.
Import Emotions.

(** ** The part of the Web Audio API the engine talks to *)

Module AudioBuffer.
Record t : Type := {
  numberOfChannels : Z;
  length : Z;
  sampleRate : Q;
  channelData : list (list R)
}.
End AudioBuffer.

Module WebAudio.
Import JS.

(** [context.createBuffer(numberOfChannels, length, sampleRate)]: a buffer of
    zeros, or [NotSupportedError] when an argument is not positive (the upper
    limits of an implementation are not modelled). *)
Definition createBuffer (numberOfChannels length : Z) (sampleRate : Q)
  : completion AudioBuffer.t :=
  if (numberOfChannels <=? 0)%Z || (length <=? 0)%Z || Qle_bool sampleRate 0
  then Throw NotSupportedError
  else Return {| AudioBuffer.numberOfChannels := numberOfChannels;
                 AudioBuffer.length := length;
                 AudioBuffer.sampleRate := sampleRate;
                 AudioBuffer.channelData :=
                   repeat (repeat 0%R (Z.to_nat length)) (Z.to_nat numberOfChannels) |}.

(** An [AudioContext], as far as the engine observes it. *)
Record AudioContext : Type := {
  sampleRate : option Q;                                  (* context.sampleRate *)
  decodeAudioData : list Byte.byte -> completion AudioBuffer.t
}.

Inductive BiquadFilterType : Type := highshelf | lowshelf.

(** What [transformBufferWithEmotion] sets up on its [OfflineAudioContext]:
    the three constructor arguments and the node graph
    source -> filter -> gain -> destination. *)
Record OfflineRender : Type := {
  offlineChannels : Z;
  offlineLength : Z;
  offlineSampleRate : Q;
  sourceBuffer : AudioBuffer.t;
  playbackRate : R;
  gainValue : Q;
  filterType : BiquadFilterType;
  filterFrequency : Q;
  filterGain : Q
}.

(** [new OfflineAudioContext(channels, length, sampleRate)] refuses a length
    or a channel count that is not positive. *)
Definition offlineSupported (channels length : Z) (sampleRate : Q) : bool :=
  negb ((channels <=? 0)%Z || (length <=? 0)%Z || Qle_bool sampleRate 0).

(** [offline.startRendering()]: the samples are the browser's, given here by
    [rendered]; the buffer has the channel count, length and rate the
    offline context was built with. *)
Definition startRendering (rendered : OfflineRender -> completion (list (list R)))
    (o : OfflineRender) : completion AudioBuffer.t :=
  match rendered o with
  | Throw e => Throw e
  | Return data =>
      Return {| AudioBuffer.numberOfChannels := offlineChannels o;
                AudioBuffer.length := offlineLength o;
                AudioBuffer.sampleRate := offlineSampleRate o;
                AudioBuffer.channelData := data |}
  end.

End WebAudio.

(** [interface LipSyncClip { buffer: AudioBuffer; duration: number }] *)
Record LipSyncClip : Type := {
  buffer : AudioBuffer.t;
  duration : Q
}.

(** ** The text synthesiser *)

Module Synth.
Import JS WebAudio.

Definition BASE_CHAR_DURATION : Q := 0.14.
Definition SILENCE_PADDING : Q := 0.28.
Definition CONSONANT_TEXTURE : Q := 0.23.

Definition VOWEL_FREQ : list (jsstring * Q) :=
  [ (fromAscii "a", 210); (fromAscii "e", 230); (fromAscii "i", 260);
    (fromAscii "o", 190); (fromAscii "u", 170); (fromAscii "y", 240) ]%Q.

(** [VOWEL_FREQ[key]], [None] for [undefined]. *)
Fixpoint lookup (key : jsstring) (table : list (jsstring * Q)) : option Q :=
  match table with
  | [] => None
  | (k, v) :: rest => if jsstring_eqb key k then Some v else lookup key rest
  end.

(** [key in VOWEL_FREQ] (a one-character key names no inherited property). *)
Definition inTable (key : jsstring) (table : list (jsstring * Q)) : bool :=
  match lookup key table with
  | Some _ => true
  | None => false
  end.

(** [computeEnvelope(index, total)], called with [total > 0] only. *)
Definition computeEnvelope (index total : Z) : Q :=
  let attack := Qmin 0.25 (4 / inject_Z total) in
  let release := attack in
  let pos := inject_Z index / inject_Z total in
  if Qlt_le_dec pos attack then pos / attack
  else if Qlt_le_dec (1 - release) pos then (1 - pos) / release
  else 1.

(** [output[k] += v] on a [Float32Array]: an index outside the array writes
    nothing. *)
Fixpoint addAtNat (out : list R) (k : nat) (v : R) : list R :=
  match out, k with
  | [], _ => []
  | x :: rest, O => (x + v)%R :: rest
  | x :: rest, S k' => x :: addAtNat rest k' v
  end.

Definition addAt (out : list R) (k : Z) (v : R) : list R :=
  if (k <? 0)%Z then out else addAtNat out (Z.to_nat k) v.

Section Synthesis.

(** The Unicode lower-case mapping of a character outside Basic Latin,
    which [toLowerCase] takes from the Unicode tables. *)
Variable unicodeLower : jsstring -> jsstring.

(** [char.toLowerCase()] on one character. *)
Definition toLowerCase (char : jsstring) : jsstring :=
  match char with
  | [c] =>
      if ((65 <=? c) && (c <=? 90))%N then [(c + 32)%N]
      else if (c <? 128)%N then [c]
      else unicodeLower char
  | _ => unicodeLower char
  end.

Definition isVowel (char : jsstring) : bool :=
  inTable (toLowerCase char) VOWEL_FREQ.

(** [isVowel ? VOWEL_FREQ[lower] : 140 + (lower.charCodeAt(0) % 25) * 4] *)
Definition baseFreq (char : jsstring) : Q :=
  let lower := toLowerCase char in
  match lookup lower VOWEL_FREQ with
  | Some f => f
  | None => 140 + inject_Z (Z.of_N (charCodeAt0 lower mod 25)) * 4
  end.

(** [baseFreq * Math.pow(2, emotion.pitchShift / 12) * (isVowel ? 1 : 0.92)] *)
Definition freq (emotion : EmotionPreset) (char : jsstring) : R :=
  (Q2R (baseFreq char) * Math_pow 2 (Q2R (pitchShift emotion / 12))
   * (if isVowel char then 1 else 0.92))%R.

Definition amplitude (emotion : EmotionPreset) (char : jsstring) : Q :=
  clamp (if isVowel char
         then 0.6 + mouthIntensity emotion * 0.35
         else 0.35 + mouthIntensity emotion * 0.2) 0.05 0.98.

Definition tempo (emotion : EmotionPreset) : Q :=
  clamp (tempoMultiplier emotion) 0.65 1.45.

Definition charDuration (emotion : EmotionPreset) : Q :=
  BASE_CHAR_DURATION / tempo emotion.

Definition totalDuration (emotion : EmotionPreset) (totalChars : Z) : Q :=
  inject_Z totalChars * charDuration emotion + SILENCE_PADDING.

Definition vibratoSpeed (emotion : EmotionPreset) : Q :=
  6 + Qabs (pitchShift emotion) * 0.8.

Definition vibratoDepth (emotion : EmotionPreset) : Q :=
  4 + Qabs (pitchShift emotion) * 0.4.

Definition brightness (emotion : EmotionPreset) : Q :=
  clamp (0.55 + browLift emotion * 0.2) 0.1 1.2.

Definition consonantNoise (emotion : EmotionPreset) : Q :=
  clamp (CONSONANT_TEXTURE + gestureIntensity emotion * 0.15) 0.12 0.45.

Definition charSamples (emotion : EmotionPreset) (sampleRate : Q) : Z :=
  Qfloor (charDuration emotion * sampleRate).

(** The cursor's extra advance at the end of a word:
    [Math.floor(charDuration * sampleRate * 0.6)]. *)
Definition wordGap (emotion : EmotionPreset) (sampleRate : Q) : Z :=
  Qfloor (charDuration emotion * sampleRate * 0.6).

(** The cursor, the samples written so far and the number of
    [Math.random()] calls made so far. *)
Record SynthState : Type := {
  output : list R;
  cursor : Z;
  draws : nat
}.

Section Loops.

Variable emotion : EmotionPreset.
Variable sampleRate : Q.
Variable totalSamples : Z.
(** [random k] is what the [k]-th call of [Math.random()] returns. *)
Variable random : nat -> Q.

(** The value added to [output[cursor + i]] for one character. *)
Definition sample (char : jsstring) (cur i : Z) (rnd : Q) : R :=
  let env := computeEnvelope i (charSamples emotion sampleRate) in
  let t := inject_Z (cur + i) / sampleRate in
  let vibrato :=
    (sin (Q2R t * PI * 2 * Q2R (vibratoSpeed emotion))
     * Q2R (vibratoDepth emotion))%R in
  let voice :=
    (sin (PI * 2 * (freq emotion char + vibrato) * Q2R t)
     * Q2R (amplitude emotion char) * Q2R env)%R in
  let breath :=
    if negb (isVowel char)
    then (rnd * 2 - 1) * consonantNoise emotion * env
    else (rnd * 2 - 1) * 0.02 * env in
  let brightnessTilt :=
    if isVowel char
    then (sin (PI * 2 * freq emotion char * Q2R t * 0.5)
          * Q2R (brightness emotion) * 0.25)%R
    else 0%R in
  clampR (voice + Q2R breath + brightnessTilt) (-1) 1.

(** [for (let i = 0; i < charSamples && cursor + i < totalSamples; i++)]:
    [remaining] is [charSamples - i]. *)
Fixpoint sampleLoop (remaining : nat) (char : jsstring) (cur i : Z)
    (out : list R) (drawn : nat) : list R * nat :=
  match remaining with
  | O => (out, drawn)
  | S remaining' =>
      if (cur + i <? totalSamples)%Z
      then sampleLoop remaining' char cur (i + 1)%Z
             (addAt out (cur + i) (sample char cur i (random drawn)))
             (S drawn)
      else (out, drawn)
  end.

(** The body of [for (const char of word)]. *)
Definition synthChar (st : SynthState) (char : jsstring) : SynthState :=
  let n := charSamples emotion sampleRate in
  let r := sampleLoop (Z.to_nat n) char (cursor st) 0 (output st) (draws st) in
  {| output := fst r; cursor := (cursor st + n)%Z; draws := snd r |}.

(** The body of [for (const word of words)]. *)
Definition synthWord (st : SynthState) (word : jsstring) : SynthState :=
  let st' := fold_left synthChar (characters word) st in
  {| output := output st';
     cursor := (cursor st' + wordGap emotion sampleRate)%Z;
     draws := draws st' |}.

Definition synthWords (words : list jsstring) (st : SynthState) : SynthState :=
  fold_left synthWord words st.

End Loops.

(** [context.sampleRate ?? 44100] *)
Definition rateOf (context : AudioContext) : Q :=
  match WebAudio.sampleRate context with
  | Some r => r
  | None => 44100
  end.

(** The normalised text: [text.replace(/\s+/g, " ").trim()]. *)
Definition normalise (text : jsstring) : jsstring :=
  trim (replaceRuns false text).

(** [synthesiseText(context, text, emotion)]; [None] is [null]. *)
Definition synthesiseText (context : AudioContext) (text : jsstring)
    (emotion : EmotionPreset) (random : nat -> Q)
  : completion (option LipSyncClip) :=
  let content := normalise text in
  match content with
  | [] => Return None
  | _ :: _ =>
      let words := split content in
      let totalChars := Z.of_nat (List.length content) in
      let total := totalDuration emotion totalChars in
      let sampleRate := rateOf context in
      let totalSamples := Qceiling (total * sampleRate) in
      match createBuffer 1 totalSamples sampleRate with
      | Throw e => Throw e
      | Return buf =>
          let st := synthWords emotion sampleRate totalSamples random words
                      {| output := nth 0 (AudioBuffer.channelData buf) [];
                         cursor := 0; draws := O |} in
          Return (Some {| buffer :=
                            {| AudioBuffer.numberOfChannels := AudioBuffer.numberOfChannels buf;
                               AudioBuffer.length := AudioBuffer.length buf;
                               AudioBuffer.sampleRate := AudioBuffer.sampleRate buf;
                               AudioBuffer.channelData := [output st] |};
                          duration := total |})
      end
  end.

End Synthesis.

End Synth.

(** ** The duration in IEEE doubles

    The duration arithmetic of [synthesiseText] once more, on binary64 numbers
    as JavaScript computes it, to measure what the exact rationals leave
    out. *)

Module Binary64.
Local Open Scope float_scope.
#[local] Set Warnings "-inexact-float".

(** [Math.max(a, b)] and [Math.min(a, b)]: [NaN] if an argument is, and the
    zeros ordered [-0 < +0]. *)
Definition Math_max (a b : float) : float :=
  if PrimFloat.is_nan a || PrimFloat.is_nan b then nan
  else if PrimFloat.ltb a b then b
  else if PrimFloat.ltb b a then a
  else match PrimFloat.classify a with
       | NZero => b
       | _ => a
       end.

Definition Math_min (a b : float) : float :=
  if PrimFloat.is_nan a || PrimFloat.is_nan b then nan
  else if PrimFloat.ltb a b then a
  else if PrimFloat.ltb b a then b
  else match PrimFloat.classify a with
       | PZero => b
       | _ => a
       end.

Definition clamp (value min max : float) : float :=
  Math_min max (Math_max min value).

(** [totalChars * (BASE_CHAR_DURATION / tempo) + SILENCE_PADDING] *)
Definition totalDuration (tempoMultiplier totalChars : float) : float :=
  totalChars * (0.14 / clamp tempoMultiplier 0.65 1.45) + 0.28.

End Binary64.

(** ** The audio transformer *)

Module Transformer.
Import JS WebAudio.

(** An uploaded [File]: [arrayBuffer()] resolves with its bytes or rejects. *)
Record File : Type := {
  name : string;
  arrayBuffer : completion (list Byte.byte)
}.

(** The playback rate given to the offline source: [pitchRatio / tempo]. *)
Definition sourcePlaybackRate (emotion : EmotionPreset) : R :=
  (Math_pow 2 (Q2R (pitchShift emotion / 12))
   / Q2R (clamp (tempoMultiplier emotion) 0.65 1.45))%R.

(** The length given to the offline context:
    [Math.floor(decoded.length / tempo)]. *)
Definition offlineLengthFor (decoded : AudioBuffer.t) (emotion : EmotionPreset) : Z :=
  Qfloor (inject_Z (AudioBuffer.length decoded)
          / clamp (tempoMultiplier emotion) 0.65 1.45).

(** The offline context and graph built for a decoded buffer. *)
Definition offlineGraph (decoded : AudioBuffer.t) (emotion : EmotionPreset)
  : OfflineRender :=
  {| offlineChannels := AudioBuffer.numberOfChannels decoded;
     offlineLength := offlineLengthFor decoded emotion;
     offlineSampleRate := AudioBuffer.sampleRate decoded;
     sourceBuffer := decoded;
     playbackRate := sourcePlaybackRate emotion;
     gainValue := clamp (1 + gestureIntensity emotion * 0.1) 0.5 1.4;
     filterType := if Qle_bool 0 (browLift emotion) then highshelf else lowshelf;
     filterFrequency := if Qle_bool 0 (browLift emotion) then 2800 else 180;
     filterGain := browLift emotion * 18 |}.

(** [transformBufferWithEmotion(file, context, emotion)]; every [await] that
    rejects rejects the whole call.  [rendered] is the browser's offline
    renderer. *)
Definition transformBufferWithEmotion
    (rendered : OfflineRender -> completion (list (list R)))
    (file : File) (context : AudioContext) (emotion : EmotionPreset)
  : completion (option LipSyncClip) :=
  match arrayBuffer file with
  | Throw e => Throw e
  | Return bytes =>
      match decodeAudioData context bytes with
      | Throw e => Throw e
      | Return decoded =>
          let o := offlineGraph decoded emotion in
          if offlineSupported (offlineChannels o) (offlineLength o) (offlineSampleRate o)
          then
            match startRendering rendered o with
            | Throw e => Throw e
            | Return out =>
                Return (Some {| buffer := out;
                                duration := inject_Z (AudioBuffer.length out)
                                            / AudioBuffer.sampleRate out |})
            end
          else Throw NotSupportedError
      end
  end.

End Transformer.

(** ** The derived-variant constructor of the studio page *)

Module Page.

(** [const clamp = (value, min, max) => Math.min(max, Math.max(min, value))] *)
Definition clamp (value min max : Q) : Q := Qmin max (Qmax min value).

(** [const jitter = () => 0.92 + Math.random() * 0.16], on the number that
    [Math.random()] returned. *)
Definition jitter (rnd : Q) : Q := 0.92 + rnd * 0.16.

(** [createVariantEmotion(preset)]; [random k] is the [k]-th call of
    [Math.random()], in the order the five fields are computed. *)
Definition createVariantEmotion (preset : EmotionPreset) (random : nat -> Q)
  : EmotionPreset :=
  let tempo := clamp (tempoMultiplier preset * jitter (random 0%nat)) 0.65 1.45 in
  let pitch := clamp (pitchShift preset + (random 1%nat - 0.5) * 1.6) (-6) 6 in
  let gesture := clamp (gestureIntensity preset * jitter (random 2%nat)) 0.35 1.4 in
  let mouth := clamp (mouthIntensity preset * jitter (random 3%nat)) 0.4 1.4 in
  let brow := clamp (browLift preset + (random 4%nat - 0.5) * 0.4) (-0.6) 1.2 in
  {| presetId := presetId preset;
     label := label preset;
     description := description preset;
     tempoMultiplier := tempo;
     pitchShift := pitch;
     gestureIntensity := gesture;
     mouthIntensity := mouth;
     browLift := brow;
     accentColor := accentColor preset |}.

End Page.

(** ** The playback session: [useLipSyncEngine] *)

Module Engine.
Import JS WebAudio Transformer.

(** The host the hook runs in. *)
Record Browser : Type := {
  windowDefined : bool;                      (* typeof window !== "undefined" *)
  AudioContextCtor : option AudioContext;    (* AudioContext ?? webkitAudioContext,
                                                with the context it constructs *)
  rendered : OfflineRender -> completion (list (list R));
  unicodeLower : jsstring -> jsstring
}.

Record AnalyserNode : Type := {
  fftSize : nat;
  smoothingTimeConstant : Q
}.

(** [analyser.frequencyBinCount] is half the FFT size. *)
Definition frequencyBinCount (a : AnalyserNode) : nat := Nat.div2 (fftSize a).

(** The refs and the React state of one mounted hook, the browser's list of
    pending animation-frame callbacks (all of them are [tick]), and a log of
    the calls made to the two callbacks the hook was given. *)
Record State : Type := {
  audioRef : option AudioContext;
  analyserRef : option AnalyserNode;
  gainRef : option Q;                    (* the gain node, by its gain value *)
  sourceRef : option AudioBuffer.t;      (* the playing source, by its buffer *)
  rafRef : N;
  lastClipRef : option LipSyncClip;
  isBusy : bool;
  stream : bool;                          (* the media stream has been published *)
  lastClipState : option LipSyncClip;
  scheduledFrames : list N;
  nextFrameHandle : N;
  amplitudeLog : list R;                 (* arguments of onAmplitude, oldest first *)
  endedCount : nat                       (* calls of onEnded *)
}.

Definition initial : State :=
  {| audioRef := None; analyserRef := None; gainRef := None; sourceRef := None;
     rafRef := 0; lastClipRef := None; isBusy := false; stream := false;
     lastClipState := None; scheduledFrames := []; nextFrameHandle := 1;
     amplitudeLog := []; endedCount := O |}.

(** Code that reads and writes the state and may throw.  A throw keeps the
    writes made before it. *)
Definition M (A : Type) : Type := State -> completion A * State.

Definition ret {A} (a : A) : M A := fun s => (Return a, s).
Definition throw {A} (e : exn) : M A := fun s => (Throw e, s).
Definition bind {A B} (m : M A) (k : A -> M B) : M B :=
  fun s => match m s with
           | (Return a, s') => k a s'
           | (Throw e, s') => (Throw e, s')
           end.
(** [await p] for a promise that has settled as [c]. *)
Definition await {A} (c : completion A) : M A := fun s => (c, s).
Definition modify (f : State -> State) : M unit := fun s => (Return tt, f s).
Definition gets {A} (f : State -> A) : M A := fun s => (Return (f s), s).

(** [try { body } finally { cleanup }] with a cleanup that does not throw. *)
Definition tryFinally {A} (body : M A) (cleanup : State -> State) : M A :=
  fun s => let r := body s in (fst r, cleanup (snd r)).

Declare Scope engine_scope.
Delimit Scope engine_scope with engine.
Notation "x <- m ;; k" := (bind m (fun x => k))
  (at level 61, m at next level, right associativity) : engine_scope.
Notation "m ;;; k" := (bind m (fun _ => k))
  (at level 61, right associativity) : engine_scope.
Local Open Scope engine_scope.

Definition setRaf (h : N) (s : State) : State :=
  {| audioRef := audioRef s; analyserRef := analyserRef s; gainRef := gainRef s;
     sourceRef := sourceRef s; rafRef := h; lastClipRef := lastClipRef s;
     isBusy := isBusy s; stream := stream s; lastClipState := lastClipState s;
     scheduledFrames := scheduledFrames s; nextFrameHandle := nextFrameHandle s;
     amplitudeLog := amplitudeLog s; endedCount := endedCount s |}.

Definition setScheduled (l : list N) (next : N) (s : State) : State :=
  {| audioRef := audioRef s; analyserRef := analyserRef s; gainRef := gainRef s;
     sourceRef := sourceRef s; rafRef := rafRef s; lastClipRef := lastClipRef s;
     isBusy := isBusy s; stream := stream s; lastClipState := lastClipState s;
     scheduledFrames := l; nextFrameHandle := next;
     amplitudeLog := amplitudeLog s; endedCount := endedCount s |}.

Definition setSource (src : option AudioBuffer.t) (s : State) : State :=
  {| audioRef := audioRef s; analyserRef := analyserRef s; gainRef := gainRef s;
     sourceRef := src; rafRef := rafRef s; lastClipRef := lastClipRef s;
     isBusy := isBusy s; stream := stream s; lastClipState := lastClipState s;
     scheduledFrames := scheduledFrames s; nextFrameHandle := nextFrameHandle s;
     amplitudeLog := amplitudeLog s; endedCount := endedCount s |}.

Definition setLastClip (clip : LipSyncClip) (s : State) : State :=
  {| audioRef := audioRef s; analyserRef := analyserRef s; gainRef := gainRef s;
     sourceRef := sourceRef s; rafRef := rafRef s; lastClipRef := Some clip;
     isBusy := isBusy s; stream := stream s; lastClipState := Some clip;
     scheduledFrames := scheduledFrames s; nextFrameHandle := nextFrameHandle s;
     amplitudeLog := amplitudeLog s; endedCount := endedCount s |}.

Definition setIsBusy (b : bool) (s : State) : State :=
  {| audioRef := audioRef s; analyserRef := analyserRef s; gainRef := gainRef s;
     sourceRef := sourceRef s; rafRef := rafRef s; lastClipRef := lastClipRef s;
     isBusy := b; stream := stream s; lastClipState := lastClipState s;
     scheduledFrames := scheduledFrames s; nextFrameHandle := nextFrameHandle s;
     amplitudeLog := amplitudeLog s; endedCount := endedCount s |}.

(** The first [ensureContext] of a mount: the context, its gain node and
    analyser, and the published stream. *)
Definition setContext (ctx : AudioContext) (s : State) : State :=
  {| audioRef := Some ctx;
     analyserRef := Some {| fftSize := 1024; smoothingTimeConstant := 0.85 |};
     gainRef := Some 0.95;
     sourceRef := sourceRef s; rafRef := rafRef s; lastClipRef := lastClipRef s;
     isBusy := isBusy s; stream := true; lastClipState := lastClipState s;
     scheduledFrames := scheduledFrames s; nextFrameHandle := nextFrameHandle s;
     amplitudeLog := amplitudeLog s; endedCount := endedCount s |}.

Definition closeContext (s : State) : State :=
  {| audioRef := None; analyserRef := analyserRef s; gainRef := gainRef s;
     sourceRef := sourceRef s; rafRef := rafRef s; lastClipRef := lastClipRef s;
     isBusy := isBusy s; stream := stream s; lastClipState := lastClipState s;
     scheduledFrames := scheduledFrames s; nextFrameHandle := nextFrameHandle s;
     amplitudeLog := amplitudeLog s; endedCount := endedCount s |}.

(** [onAmplitude(value)] *)
Definition onAmplitude (value : R) (s : State) : State :=
  {| audioRef := audioRef s; analyserRef := analyserRef s; gainRef := gainRef s;
     sourceRef := sourceRef s; rafRef := rafRef s; lastClipRef := lastClipRef s;
     isBusy := isBusy s; stream := stream s; lastClipState := lastClipState s;
     scheduledFrames := scheduledFrames s; nextFrameHandle := nextFrameHandle s;
     amplitudeLog := amplitudeLog s ++ [value]; endedCount := endedCount s |}.

(** [onEnded()] *)
Definition onEnded (s : State) : State :=
  {| audioRef := audioRef s; analyserRef := analyserRef s; gainRef := gainRef s;
     sourceRef := sourceRef s; rafRef := rafRef s; lastClipRef := lastClipRef s;
     isBusy := isBusy s; stream := stream s; lastClipState := lastClipState s;
     scheduledFrames := scheduledFrames s; nextFrameHandle := nextFrameHandle s;
     amplitudeLog := amplitudeLog s; endedCount := S (endedCount s) |}.

(** [cancelAnimationFrame(h)] and [requestAnimationFrame(tick)]. *)
Definition cancelAnimationFrame (h : N) (s : State) : State :=
  setScheduled (filter (fun h' => negb (N.eqb h' h)) (scheduledFrames s))
               (nextFrameHandle s) s.

Definition requestAnimationFrame (s : State) : N * State :=
  let h := nextFrameHandle s in
  (h, setScheduled (scheduledFrames s ++ [h]) (h + 1)%N s).

Section Hook.

Variable browser : Browser.

Definition ensureContext : M (option AudioContext) :=
  if negb (windowDefined browser) then ret None
  else
    current <- gets audioRef ;;
    match current with
    | Some ctx => ret (Some ctx)
    | None =>
        match AudioContextCtor browser with
        | None => throw (Error "Web Audio API not supported in this browser.")
        | Some ctx => modify (setContext ctx) ;;; ret (Some ctx)
        end
    end.

Definition cancelAnalyser (s : State) : State :=
  if (rafRef s =? 0)%N then s
  else setRaf 0 (cancelAnimationFrame (rafRef s) s).

(** [stop()]; a throw of [source.stop()] is caught and ignored. *)
Definition stop (s : State) : State :=
  let s1 := onAmplitude 0 (cancelAnalyser s) in
  match sourceRef s1 with
  | Some _ => setSource None s1
  | None => s1
  end.

(** The amplitude mapping of [tick]: [clamp(Math.pow(rms * 4.2, 1.2), 0, 1)]. *)
Definition mapAmplitude (rms : R) : R :=
  clampR (Math_pow (rms * 4.2) 1.2) 0 1.

(** The sum of squares and the RMS that [tick] computes over [dataArray]. *)
Definition sumSquares (dataArray : nat -> R) (bufferLength : nat) : R :=
  fold_left (fun sum i => (sum + dataArray i * dataArray i)%R) (seq 0 bufferLength) 0%R.

Definition rmsOf (dataArray : nat -> R) (bufferLength : nat) : R :=
  sqrt (sumSquares dataArray bufferLength / INR bufferLength).

(** One run of [tick], on the time-domain data the analyser hands out. *)
Definition tick (analyser : AnalyserNode) (dataArray : nat -> R) (s : State) : State :=
  let mapped := mapAmplitude (rmsOf dataArray (frequencyBinCount analyser)) in
  let s1 := onAmplitude mapped s in
  let r := requestAnimationFrame s1 in
  setRaf (fst r) (snd r).

Definition startAnalyserLoop (s : State) : State :=
  match analyserRef s with
  | None => s
  | Some _ =>
      let r := requestAnimationFrame (cancelAnalyser s) in
      setRaf (fst r) (snd r)
  end.

(** [playClip(clip)]; [resumed] is how [context.resume()] settles. *)
Definition playClip (resumed : completion unit) (clip : option LipSyncClip)
  : M (option LipSyncClip) :=
  match clip with
  | None => ret None
  | Some c =>
      context <- ensureContext ;;
      gain <- gets gainRef ;;
      match context, gain with
      | Some _, Some _ =>
          modify stop ;;;
          await resumed ;;;
          modify (setSource (Some (buffer c))) ;;;
          modify startAnalyserLoop ;;;
          modify (setLastClip c) ;;;
          ret (Some c)
      | _, _ => ret None
      end
  end.

(** The handler installed as [source.onended]. *)
Definition sourceEnded (s : State) : State :=
  onEnded (onAmplitude 0 (cancelAnalyser s)).

Definition speakText (text : jsstring) (emotion : EmotionPreset)
    (random : nat -> Q) (resumed : completion unit)
  : M (option LipSyncClip) :=
  context <- ensureContext ;;
  match context with
  | None => ret None
  | Some ctx =>
      modify (setIsBusy true) ;;;
      tryFinally
        (clip <- await (Synth.synthesiseText (unicodeLower browser) ctx text emotion random) ;;
         playClip resumed clip ;;;
         ret clip)
        (setIsBusy false)
  end.

Definition playFile (file : File) (emotion : EmotionPreset)
    (resumed : completion unit)
  : M (option LipSyncClip) :=
  context <- ensureContext ;;
  match context with
  | None => ret None
  | Some ctx =>
      modify (setIsBusy true) ;;;
      tryFinally
        (clip <- await (transformBufferWithEmotion (rendered browser) file ctx emotion) ;;
         playClip resumed clip ;;;
         ret clip)
        (setIsBusy false)
  end.

Definition replay (resumed : completion unit) : M unit :=
  last <- gets lastClipRef ;;
  match last with
  | None => ret tt
  | Some c => playClip resumed (Some c) ;;; ret tt
  end.

(** The effect clean-up run when the hook unmounts. *)
Definition unmount (s : State) : State :=
  let s1 := stop s in
  match audioRef s1 with
  | Some _ => closeContext s1
  | None => s1
  end.

(** The browser runs the pending animation-frame callbacks. *)
Definition animationFrame (dataArray : nat -> R) (s : State) : State :=
  fold_left
    (fun s' _ => match analyserRef s' with
                 | Some a => tick a dataArray s'
                 | None => s'
                 end)
    (scheduledFrames s)
    (setScheduled [] (nextFrameHandle s) s).

(** What can happen to a mounted hook.  Each event runs to completion before
    the next one: requests that overlap at an [await] are not modelled.
    [SourceEnded] is the [onended] handler of any source started so far. *)
Inductive Event : Type :=
| SpeakText (text : jsstring) (emotion : EmotionPreset) (random : nat -> Q)
    (resumed : completion unit)
| PlayFile (file : File) (emotion : EmotionPreset) (resumed : completion unit)
| Replay (resumed : completion unit)
| Stop
| AnimationFrame (dataArray : nat -> R)
| SourceEnded
| Unmount.

Definition step (s : State) (ev : Event) : State :=
  match ev with
  | SpeakText text emotion random resumed => snd (speakText text emotion random resumed s)
  | PlayFile file emotion resumed => snd (playFile file emotion resumed s)
  | Replay resumed => snd (replay resumed s)
  | Stop => stop s
  | AnimationFrame dataArray => animationFrame dataArray s
  | SourceEnded => sourceEnded s
  | Unmount => unmount s
  end.

Definition run (events : list Event) (s : State) : State :=
  fold_left step events s.

End Hook.

(** The bookkeeping of the analyser loop: the browser holds at most one
    pending [tick], the one [rafRef] names; handles are fresh and not zero;
    a loop only runs on the analyser that [ensureContext] made. *)
Definition loopConsistent (s : State) : Prop :=
  scheduledFrames s = (if (rafRef s =? 0)%N then [] else [rafRef s])
  /\ (rafRef s < nextFrameHandle s)%N
  /\ (rafRef s <> 0%N -> analyserRef s <> None)
  /\ (forall a, analyserRef s = Some a -> fftSize a = 1024%nat).

(** [m] keeps the property [P] of the state, however it completes. *)
Definition keeps {A} (P : State -> Prop) (m : M A) : Prop :=
  forall s, P s -> P (snd (m s)).

End Engine.

(** ** The documented ranges of a profile *)

Module Spec.

(** The ranges the data model documents for the five numeric fields. *)
Definition inRange (e : EmotionPreset) : Prop :=
  (0.65 <= tempoMultiplier e /\ tempoMultiplier e <= 1.45)
  /\ (-6 <= pitchShift e /\ pitchShift e <= 6)
  /\ (0.35 <= gestureIntensity e /\ gestureIntensity e <= 1.4)
  /\ (0.4 <= mouthIntensity e /\ mouthIntensity e <= 1.4)
  /\ (-0.6 <= browLift e /\ browLift e <= 1.2).

(** The profile a consumer would use if it clamped every numeric field to
    its documented range before use. *)
Definition clampedProfile (e : EmotionPreset) : EmotionPreset :=
  {| presetId := presetId e;
     label := label e;
     description := description e;
     tempoMultiplier := JS.clamp (tempoMultiplier e) 0.65 1.45;
     pitchShift := JS.clamp (pitchShift e) (-6) 6;
     gestureIntensity := JS.clamp (gestureIntensity e) 0.35 1.4;
     mouthIntensity := JS.clamp (mouthIntensity e) 0.4 1.4;
     browLift := JS.clamp (browLift e) (-0.6) 1.2;
     accentColor := accentColor e |}.

End Spec.

(** ** Concrete inputs *)

Module Examples.
Import JS WebAudio Transformer Engine.

Definition profile (tempo pitch gesture mouth brow : Q) : EmotionPreset :=
  {| presetId := "example"; label := "Example"; description := "";
     tempoMultiplier := tempo; pitchShift := pitch; gestureIntensity := gesture;
     mouthIntensity := mouth; browLift := brow; accentColor := "#ffffff" |}.

(** [tempoMultiplier=1, pitchShift=0, gestureIntensity=1, mouthIntensity=1,
    browLift=0] *)
Definition defaultProfile : EmotionPreset := profile 1 0 1 1 0.

(** A profile far outside the documented ranges. *)
Definition wildProfile : EmotionPreset := profile 5 20 3 3 2.


(** Text without cased characters outside Basic Latin. *)
Definition caseless : jsstring -> jsstring := fun c => c.

Definition halves : nat -> Q := fun _ => 0.5.

(** A decoded mono buffer of three frames. *)
Definition threeFrames : AudioBuffer.t :=
  {| AudioBuffer.numberOfChannels := 1;
     AudioBuffer.length := 3;
     AudioBuffer.sampleRate := 44100;
     AudioBuffer.channelData := [[0%R; 0%R; 0%R]] |}.

(** A context whose decoder accepts every input. *)
Definition decodingContext : AudioContext :=
  {| sampleRate := Some 44100; decodeAudioData := fun _ => Return threeFrames |}.

(** A context whose decoder supports no input. *)
Definition deafContext : AudioContext :=
  {| sampleRate := Some 44100; decodeAudioData := fun _ => Throw EncodingError |}.

Definition silence : OfflineRender -> completion (list (list R)) :=
  fun o => Return (repeat (repeat 0%R (Z.to_nat (offlineLength o)))
                          (Z.to_nat (offlineChannels o))).

Definition browserWith (ctx : AudioContext) : Browser :=
  {| windowDefined := true; AudioContextCtor := Some ctx;
     rendered := silence; unicodeLower := caseless |}.

Definition upload : File :=
  {| name := "voice.bin"; arrayBuffer := Return [Byte.x00; Byte.x01; Byte.x02] |}.


End Examples.

(** ** Shapes of texts and word lists *)

Module TextShape.
Import JS.

(** The text holds no white space but single spaces, and none where
    [afterSpace] says a space came just before (or the text starts). *)
Fixpoint spaced (afterSpace : bool) (s : jsstring) : bool :=
  match s with
  | [] => true
  | c :: rest =>
      if (c =? 32)%N then negb afterSpace && spaced true rest
      else negb (isWhiteSpace c) && spaced false rest
  end.

(** The same, and the text does not end where a word must follow: it is not
    empty and does not end with a space. *)
Fixpoint worded (afterSpace : bool) (s : jsstring) : bool :=
  match s with
  | [] => negb afterSpace
  | c :: rest =>
      if (c =? 32)%N then negb afterSpace && worded true rest
      else negb (isWhiteSpace c) && worded false rest
  end.

(** A word as the synthesiser wants it: something to say, and no white
    space in it. *)
Definition isWord (w : jsstring) : Prop :=
  w <> [] /\ forallb (fun c => negb (isWhiteSpace c)) w = true.

(** The code units and the characters of a list of words. *)
Definition unitsOf (words : list jsstring) : nat :=
  fold_right (fun w n => (List.length w + n)%nat) O words.


End TextShape.

(** ** Shapes of output buffers *)

Module Buffers.

(** Every position holds a value of [-1, 1], and nothing was written from
    position [c] on. *)
Definition clean (out : list R) (c : Z) : Prop :=
  (forall j, (-1 <= nth j out 0 <= 1)%R)
  /\ (forall j, (c <= Z.of_nat j)%Z -> nth j out 0%R = 0%R).

End Buffers.

(** ** Shapes of engine states *)

Module EngineShape.
Import Engine.

(** A hook that holds a context also holds the gain node and the analyser
    made with it. *)
Definition wired (s : State) : Prop :=
  audioRef s <> None -> gainRef s <> None /\ analyserRef s <> None.

(** The clip published as [lastClip] is the one [replay] would play. *)
Definition published (s : State) : Prop := lastClipState s = lastClipRef s.

(** Every value passed to [onAmplitude] so far lies in [0, 1]. *)
Definition levelled (s : State) : Prop :=
  Forall (fun v => (0 <= v <= 1)%R) (amplitudeLog s).

End EngineShape.

(** ** The studio page's use of the amplitude *)

Module Studio.
Import JS.

(** [handleAmplitude]: [setAmplitude((prev) => prev * 0.68 + value * 0.32)] *)
Definition handleAmplitude (prev value : R) : R :=
  (prev * 0.68 + value * 0.32)%R.

(** The page's amplitude after the engine reported [values], oldest first. *)
Definition smoothed (prev : R) (values : list R) : R :=
  fold_left handleAmplitude values prev.

(** The guard of [handleSpeak] and [handleRegenerate]: [!script.trim()]. *)
Definition blankScript (script : jsstring) : bool :=
  match trim script with
  | [] => true
  | _ :: _ => false
  end.

(** The state of [StudioPage] that its playback handlers read and write,
    with the state of the hook it mounts.  [emotion] is the preset that
    [getEmotionPreset(emotionId)] returned. *)
Record StudioPage : Type := {
  script : jsstring;
  emotion : EmotionPreset;
  amplitude : R;
  audioName : string;
  isPlaying : bool;
  hook : Engine.State
}.

Definition mount (script0 : jsstring) (emotion0 : EmotionPreset) : StudioPage :=
  {| script := script0; emotion := emotion0; amplitude := 0%R;
     audioName := EmptyString; isPlaying := false; hook := Engine.initial |}.

Definition setScript (text : jsstring) (p : StudioPage) : StudioPage :=
  {| script := text; emotion := emotion p; amplitude := amplitude p;
     audioName := audioName p; isPlaying := isPlaying p; hook := hook p |}.

Definition setEmotion (e : EmotionPreset) (p : StudioPage) : StudioPage :=
  {| script := script p; emotion := e; amplitude := amplitude p;
     audioName := audioName p; isPlaying := isPlaying p; hook := hook p |}.

Definition setAmplitude (value : R) (p : StudioPage) : StudioPage :=
  {| script := script p; emotion := emotion p; amplitude := value;
     audioName := audioName p; isPlaying := isPlaying p; hook := hook p |}.

Definition setAudioName (n : string) (p : StudioPage) : StudioPage :=
  {| script := script p; emotion := emotion p; amplitude := amplitude p;
     audioName := n; isPlaying := isPlaying p; hook := hook p |}.

Definition setIsPlaying (b : bool) (p : StudioPage) : StudioPage :=
  {| script := script p; emotion := emotion p; amplitude := amplitude p;
     audioName := audioName p; isPlaying := b; hook := hook p |}.

(** The values the hook passed to [onAmplitude], and whether it called
    [onEnded], on its way from the state [before] to the state [after]. *)
Definition reports (before after : Engine.State) : list R :=
  skipn (List.length (Engine.amplitudeLog before)) (Engine.amplitudeLog after).

Definition endedSince (before after : Engine.State) : bool :=
  (Engine.endedCount before <? Engine.endedCount after)%nat.

(** The hook moves to the state [after]; the callbacks it was mounted with,
    [handleAmplitude] and [handlePlaybackEnded], have updated the page on
    the way. *)
Definition withHook (after : Engine.State) (p : StudioPage) : StudioPage :=
  {| script := script p; emotion := emotion p;
     amplitude := smoothed (amplitude p) (reports (hook p) after);
     audioName := audioName p;
     isPlaying := if endedSince (hook p) after then false else isPlaying p;
     hook := after |}.

Section Handlers.

Variable browser : Engine.Browser.

(** [handleSpeak]; [random] is the sequence of numbers [Math.random()]
    returns from here on: five go to the variant, the rest to the
    synthesiser.  A rejected [speakText] ends the handler where it is. *)
Definition handleSpeak (random : nat -> Q) (resumed : completion unit)
    (p : StudioPage) : StudioPage :=
  if blankScript (script p) then p
  else
    let p1 := setIsPlaying true p in
    let variant := Page.createVariantEmotion (emotion p) random in
    let r := Engine.speakText browser (script p) variant
                              (fun k => random (5 + k)%nat) resumed (hook p1) in
    let p2 := withHook (snd r) p1 in
    match fst r with
    | Return None => setIsPlaying false p2
    | Return (Some _) => p2
    | Throw _ => p2
    end.

(** [handleRegenerate] has the body of [handleSpeak]. *)
Definition handleRegenerate (random : nat -> Q) (resumed : completion unit)
    (p : StudioPage) : StudioPage :=
  if blankScript (script p) then p
  else
    let p1 := setIsPlaying true p in
    let variant := Page.createVariantEmotion (emotion p) random in
    let r := Engine.speakText browser (script p) variant
                              (fun k => random (5 + k)%nat) resumed (hook p1) in
    let p2 := withHook (snd r) p1 in
    match fst r with
    | Return None => setIsPlaying false p2
    | Return (Some _) => p2
    | Throw _ => p2
    end.

Definition handleAudioSelection (file : Transformer.File) (resumed : completion unit)
    (p : StudioPage) : StudioPage :=
  let p1 := setIsPlaying true (setAudioName (Transformer.name file) p) in
  let r := Engine.playFile browser file (emotion p) resumed (hook p1) in
  let p2 := withHook (snd r) p1 in
  match fst r with
  | Return None => setIsPlaying false p2
  | Return (Some _) => p2
  | Throw _ => p2
  end.

Definition handleStop (p : StudioPage) : StudioPage :=
  setAmplitude 0 (setIsPlaying false (withHook (Engine.stop (hook p)) p)).

Definition handleReplay (resumed : completion unit) (p : StudioPage) : StudioPage :=
  match Engine.lastClipState (hook p) with
  | None => p
  | Some _ =>
      let p1 := setIsPlaying true p in
      withHook (snd (Engine.replay browser resumed (hook p1))) p1
  end.

(** What [handleExport] does to the playback: its guards,
    [setIsPlaying(true)] and [await replay()].  [canvasReady] tells whether
    [canvasRef.current] is set, [mediaRecorder] whether the browser defines
    [MediaRecorder]. *)
Definition handleExport (canvasReady mediaRecorder : bool) (resumed : completion unit)
    (p : StudioPage) : StudioPage :=
  match Engine.lastClipState (hook p) with
  | None => p
  | Some _ =>
      if negb (Engine.stream (hook p)) || negb canvasReady then p
      else if negb mediaRecorder then p
      else
        let p1 := setIsPlaying true p in
        withHook (snd (Engine.replay browser resumed (hook p1))) p1
  end.

(** What can happen to the mounted page, as far as playback goes: the
    callbacks of the control panel, an animation frame of the browser, the
    end of a source.  Each runs to completion before the next. *)
Inductive Action : Type :=
| TextChange (text : jsstring)
| EmotionChange (e : EmotionPreset)
| Speak (random : nat -> Q) (resumed : completion unit)
| Regenerate (random : nat -> Q) (resumed : completion unit)
| SelectAudio (file : Transformer.File) (resumed : completion unit)
| StopPlayback
| ReplayClip (resumed : completion unit)
| Export (canvasReady mediaRecorder : bool) (resumed : completion unit)
| Frame (dataArray : nat -> R)
| Ended.

Definition act (p : StudioPage) (a : Action) : StudioPage :=
  match a with
  | TextChange text => setScript text p
  | EmotionChange e => setEmotion e p
  | Speak random resumed => handleSpeak random resumed p
  | Regenerate random resumed => handleRegenerate random resumed p
  | SelectAudio file resumed => handleAudioSelection file resumed p
  | StopPlayback => handleStop p
  | ReplayClip resumed => handleReplay resumed p
  | Export canvasReady mediaRecorder resumed =>
      handleExport canvasReady mediaRecorder resumed p
  | Frame dataArray => withHook (Engine.animationFrame dataArray (hook p)) p
  | Ended => withHook (Engine.sourceEnded (hook p)) p
  end.

Definition session (actions : list Action) (p : StudioPage) : StudioPage :=
  fold_left act actions p.

End Handlers.

(** What the page keeps true of itself and of its hook. *)
Definition steady (browser : Engine.Browser) (p : StudioPage) : Prop :=
  (0 <= amplitude p <= 1)%R
  /\ Engine.loopConsistent (hook p)
  /\ EngineShape.levelled (hook p)
  /\ (Engine.windowDefined browser = false -> Engine.analyserRef (hook p) = None)
  /\ (Engine.rafRef (hook p) <> 0%N -> isPlaying p = true).

End Studio.

(** ** The avatar's animation frames *)

Module Vec3.
Record t : Type := { x : R; y : R; z : R }.
End Vec3.

Module Avatar.

(** [const lerp = (a, b, t) => a + (b - a) * t] *)
Definition lerp (a b t : R) : R := (a + (b - a) * t)%R.

(** A scene node, as far as the frame callbacks touch it: an [Object3D]
    with, for the meshes, the opacity of its material. *)
Record Object3D : Type := {
  position : Vec3.t;
  rotation : Vec3.t;
  scale : Vec3.t;
  opacity : R
}.

(** What [useFrame] hands to a callback, and the amplitude prop of the
    render the callback closes over. *)
Record Frame : Type := {
  time : R;        (* state.clock.getElapsedTime() *)
  delta : R;
  amplitude : R
}.

(** The callback of [Hands]; a [null] ref is left alone. *)
Definition handsFrame (isLeft : bool) (emotion : EmotionPreset) (f : Frame)
    (group : option Object3D) : option Object3D :=
  match group with
  | None => None
  | Some g =>
      let gesture := Q2R (gestureIntensity emotion) in
      let targetX :=
        (sin (time f * (if isLeft then 1.4 else 1.2) + (if isLeft then 0 else PI / 3))
         * 0.45 * gesture
         + amplitude f * (if isLeft then -0.6 else 0.6))%R in
      let targetY :=
        (0.2 + cos (time f * 1.1 + (if isLeft then PI / 5 else 0)) * 0.25 * gesture
         + amplitude f * 0.4)%R in
      let targetZ :=
        (sin (time f * 0.8 + (if isLeft then PI / 2 else 0)) * 0.25 * gesture)%R in
      Some {| position :=
                {| Vec3.x := lerp (Vec3.x (position g)) targetX (delta f * 2);
                   Vec3.y := lerp (Vec3.y (position g)) targetY (delta f * 2.2);
                   Vec3.z := lerp (Vec3.z (position g)) targetZ (delta f * 2) |};
              rotation :=
                {| Vec3.x := lerp (Vec3.x (rotation g))
                                  (sin (time f * 1.4) * 0.3 * gesture + amplitude f * 0.3)
                                  (delta f * 3);
                   Vec3.y := Vec3.y (rotation g);
                   Vec3.z := lerp (Vec3.z (rotation g))
                                  (if isLeft then 0.5 + amplitude f * -0.6
                                   else -0.5 + amplitude f * 0.6)
                                  (delta f * 3) |};
              scale := scale g;
              opacity := opacity g |}
  end.

(** The six refs of [FaceRig]. *)
Record FaceRefs : Type := {
  head : option Object3D;
  mouth : option Object3D;
  browsLeft : option Object3D;
  browsRight : option Object3D;
  pupilLeft : option Object3D;
  pupilRight : option Object3D
}.

Definition setRotationZPositionY (o : Object3D) (rz py : R) : Object3D :=
  {| position := {| Vec3.x := Vec3.x (position o); Vec3.y := py;
                    Vec3.z := Vec3.z (position o) |};
     rotation := {| Vec3.x := Vec3.x (rotation o); Vec3.y := Vec3.y (rotation o);
                    Vec3.z := rz |};
     scale := scale o;
     opacity := opacity o |}.

Definition setPositionXY (o : Object3D) (px py : R) : Object3D :=
  {| position := {| Vec3.x := px; Vec3.y := py; Vec3.z := Vec3.z (position o) |};
     rotation := rotation o;
     scale := scale o;
     opacity := opacity o |}.

Definition setScaleXY (o : Object3D) (sx sy : R) : Object3D :=
  {| position := position o;
     rotation := rotation o;
     scale := {| Vec3.x := sx; Vec3.y := sy; Vec3.z := Vec3.z (scale o) |};
     opacity := opacity o |}.

Definition setOpacity (o : Object3D) (value : R) : Object3D :=
  {| position := position o; rotation := rotation o; scale := scale o;
     opacity := value |}.

(** The mouth's vertical scale target in the 3D rig:
    [0.2 + amplitude * (0.8 + emotion.mouthIntensity * 0.4)]. *)
Definition mouthTarget (emotion : EmotionPreset) (amp : R) : R :=
  (0.2 + amp * (0.8 + Q2R (mouthIntensity emotion) * 0.4))%R.

(** The callback of [FaceRig]. *)
Definition faceRigFrame (emotion : EmotionPreset) (f : Frame) (r : FaceRefs) : FaceRefs :=
  let expressive := Q2R (gestureIntensity emotion) in
  let browLift := Q2R (Emotions.browLift emotion) in
  let browTilt := (amplitude f * 0.6)%R in
  let eyeShift := (amplitude f * 0.6 + expressive * 0.15)%R in
  {| head :=
       option_map
         (fun h =>
            let targetX := (sin (time f * 0.9) * 0.2 * expressive + amplitude f * 0.4)%R in
            let targetY :=
              (sin (time f * 0.5 + PI / 2) * 0.3 * expressive + amplitude f * 0.35)%R in
            let targetZ := (sin (time f * 0.8) * 0.1 * expressive)%R in
            {| position :=
                 {| Vec3.x := Vec3.x (position h);
                    Vec3.y := lerp (Vec3.y (position h)) (2.1 + amplitude f * 0.3)
                                   (delta f * 4);
                    Vec3.z := Vec3.z (position h) |};
               rotation :=
                 {| Vec3.x := lerp (Vec3.x (rotation h)) targetX (delta f * 2);
                    Vec3.y := lerp (Vec3.y (rotation h)) targetY (delta f * 2.4);
                    Vec3.z := lerp (Vec3.z (rotation h)) targetZ (delta f * 1.8) |};
               scale := scale h;
               opacity := opacity h |})
         (head r);
     mouth :=
       option_map
         (fun m =>
            setScaleXY m
              (lerp (Vec3.x (scale m)) (1 + amplitude f * 0.18) (delta f * 6))
              (lerp (Vec3.y (scale m)) (mouthTarget emotion (amplitude f)) (delta f * 10)))
         (mouth r);
     browsLeft :=
       option_map
         (fun b =>
            setRotationZPositionY b
              (lerp (Vec3.z (rotation b)) (0.06 + browLift * 0.15) (delta f * 6))
              (lerp (Vec3.y (position b)) (0.55 + browLift * 0.18 + browTilt * 0.15)
                    (delta f * 6)))
         (browsLeft r);
     browsRight :=
       option_map
         (fun b =>
            setRotationZPositionY b
              (lerp (Vec3.z (rotation b)) (-0.06 - browLift * 0.15) (delta f * 6))
              (lerp (Vec3.y (position b)) (0.55 + browLift * 0.18 - browTilt * 0.15)
                    (delta f * 6)))
         (browsRight r);
     pupilLeft :=
       option_map
         (fun p =>
            setPositionXY p
              (lerp (Vec3.x (position p))
                    (-0.2 + sin (time f * 1.4) * 0.08 * expressive + eyeShift * 0.08)
                    (delta f * 5))
              (lerp (Vec3.y (position p))
                    (0.08 + sin (time f * 1.1) * 0.05 * expressive + eyeShift * 0.04)
                    (delta f * 5)))
         (pupilLeft r);
     pupilRight :=
       option_map
         (fun p =>
            setPositionXY p
              (lerp (Vec3.x (position p))
                    (0.2 + sin (time f * 1.2 + PI / 4) * 0.08 * expressive
                     + eyeShift * 0.08)
                    (delta f * 5))
              (lerp (Vec3.y (position p))
                    (0.08 + sin (time f * 1.05 + PI / 6) * 0.05 * expressive
                     + eyeShift * 0.04)
                    (delta f * 5)))
         (pupilRight r) |}.

(** The callback of [AvatarRig]: the torso. *)
Definition avatarRigFrame (emotion : EmotionPreset) (f : Frame)
    (torso : option Object3D) : option Object3D :=
  match torso with
  | None => None
  | Some t =>
      let wobble := (sin (time f * 0.6) * 0.15 * Q2R (gestureIntensity emotion))%R in
      Some {| position := position t;
              rotation :=
                {| Vec3.x := lerp (Vec3.x (rotation t))
                                  (sin (time f * 0.7 + PI / 3) * 0.08 + amplitude f * 0.12)
                                  (delta f * 3);
                   Vec3.y := lerp (Vec3.y (rotation t)) (wobble + amplitude f * 0.35)
                                  (delta f * 3);
                   Vec3.z := Vec3.z (rotation t) |};
              scale := scale t;
              opacity := opacity t |}
  end.

(** The two refs of [ImageBillboard] and its callback. *)
Record BillboardRefs : Type := {
  plane : option Object3D;
  portraitMouth : option Object3D
}.

Definition imageBillboardFrame (emotion : EmotionPreset) (f : Frame)
    (r : BillboardRefs) : BillboardRefs :=
  {| plane :=
       option_map
         (fun p =>
            {| position := position p;
               rotation :=
                 {| Vec3.x := lerp (Vec3.x (rotation p))
                                   (sin (time f * 0.8 + PI / 4) * 0.08 + amplitude f * 0.12)
                                   (delta f * 2.4);
                    Vec3.y := lerp (Vec3.y (rotation p))
                                   (sin (time f * 0.6) * 0.18 * Q2R (gestureIntensity emotion)
                                    + amplitude f * 0.18)
                                   (delta f * 2.4);
                    Vec3.z := Vec3.z (rotation p) |};
               scale := scale p;
               opacity := opacity p |})
         (plane r);
     portraitMouth :=
       option_map
         (fun m =>
            setOpacity
              (setScaleXY m
                 (lerp (Vec3.x (scale m)) (1 + amplitude f * 0.18) (delta f * 6))
                 (lerp (Vec3.y (scale m))
                       (0.18 + amplitude f * (0.9 + Q2R (mouthIntensity emotion) * 0.5))
                       (delta f * 10)))
              (lerp (opacity m) (0.25 + amplitude f * 0.35) (delta f * 6)))
         (portraitMouth r) |}.

(** Frame after frame. *)
Definition faceRigFrames (emotion : EmotionPreset) (frames : list Frame) (r : FaceRefs)
  : FaceRefs :=
  fold_left (fun r' f => faceRigFrame emotion f r') frames r.

Definition imageBillboardFrames (emotion : EmotionPreset) (frames : list Frame)
    (r : BillboardRefs) : BillboardRefs :=
  fold_left (fun r' f => imageBillboardFrame emotion f r') frames r.

Definition handsFrames (isLeft : bool) (emotion : EmotionPreset) (frames : list Frame)
    (group : option Object3D) : option Object3D :=
  fold_left (fun g f => handsFrame isLeft emotion f g) frames group.

End Avatar.

(** ** The scene as the components mount it *)

Module Scene.
Import Avatar.

Definition node (px py pz rz sx sy sz o : R) : Object3D :=
  {| position := {| Vec3.x := px; Vec3.y := py; Vec3.z := pz |};
     rotation := {| Vec3.x := 0; Vec3.y := 0; Vec3.z := rz |};
     scale := {| Vec3.x := sx; Vec3.y := sy; Vec3.z := sz |};
     opacity := o |}.

(** The meshes of [FaceRig] with the positions, rotations and scales of
    its JSX. *)
Definition faceRig : FaceRefs :=
  {| head := Some (node 0 2.1 0 0 1 1 1 1);
     mouth := Some (node 0 (-0.2) 0.75 0 1.2 0.45 0.1 1);
     browsLeft := Some (node (-0.35) 0.52 0.59 0.1 1 1 1 1);
     browsRight := Some (node 0.35 0.52 0.59 (-0.1) 1 1 1 1);
     pupilLeft := Some (node (-0.35) 0.15 0.62 0 1 1 1 1);
     pupilRight := Some (node 0.35 0.15 0.62 0 1 1 1 1) |}.

(** The groups of the two [Hands]. *)
Definition hand (isLeft : bool) : Object3D :=
  node (if isLeft then -1.2 else 1.2) 0.2 0 0 1 1 1 1.

(** The group and the mouth plane of [ImageBillboard]. *)
Definition billboard : BillboardRefs :=
  {| plane := Some (node 0 1.8 0 0 1 1 1 1);
     portraitMouth := Some (node 0 (-0.7) 0.02 0 1 1 1 0.18) |}.

(** A frame at twenty frames a second, half-way up the amplitude scale. *)
Definition frame : Frame := {| time := 0; delta := 0.05; amplitude := 0.5 |}.

End Scene.

(** * Properties *)

(** ** Numbers *)

Section Numbers.
Import JS.

Lemma clamp_bounds (v lo hi : Q) :
  lo <= hi -> lo <= clamp v lo hi /\ clamp v lo hi <= hi.
Proof.
  intros Hle. unfold clamp. split.
  - apply Q.min_glb; [exact Hle | apply Q.le_max_l].
  - apply Q.le_min_l.
Qed.

Lemma clamp_comp (v v' lo hi : Q) : v == v' -> clamp v lo hi == clamp v' lo hi.
Proof. intros E. unfold clamp. now rewrite E. Qed.

(** A value inside the range is left alone. *)
Lemma clamp_inside (v lo hi : Q) : lo <= v -> v <= hi -> clamp v lo hi == v.
Proof.
  intros H1 H2. unfold clamp.
  rewrite (Q.max_r lo v H1). now apply Q.min_r.
Qed.

Lemma clampR_bounds (v lo hi : R) :
  (lo <= hi)%R -> (lo <= clampR v lo hi <= hi)%R.
Proof.
  intros Hle. unfold clampR. split.
  - apply Rmin_glb; [exact Hle | apply Rmax_l].
  - apply Rmin_l.
Qed.


Lemma Math_pow_pos_base (x y : R) : (0 < x)%R -> Math_pow x y = Rpower x y.
Proof.
  intros Hx. unfold Math_pow.
  destruct (Req_dec_T x 0) as [E | _]; [lra | reflexivity].
Qed.

Lemma Rpower_pos (x y : R) : (0 < Rpower x y)%R.
Proof. unfold Rpower. apply exp_pos. Qed.



(** [Math.pow(2, .)] is strictly increasing. *)
Lemma Math_pow_2_lt (y z : R) : (y < z)%R -> (Math_pow 2 y < Math_pow 2 z)%R.
Proof.
  intros Hlt. rewrite !Math_pow_pos_base by lra.
  apply Rpower_lt; lra.
Qed.

Lemma Qceiling_pos (x : Q) : 0 < x -> (0 < Qceiling x)%Z.
Proof.
  intros Hx. rewrite Zlt_Qlt.
  apply Qlt_le_trans with x; [exact Hx | apply Qle_ceiling].
Qed.

(** Both roundings are pinned down by the integer next to the number. *)
Lemma Qfloor_unique (x : Q) (z : Z) :
  inject_Z z <= x -> x < inject_Z (z + 1) -> Qfloor x = z.
Proof.
  intros H1 H2.
  pose proof (Qfloor_le x) as F1. pose proof (Qlt_floor x) as F2.
  assert (inject_Z z < inject_Z (Qfloor x + 1)) as A by (eapply Qle_lt_trans; eassumption).
  assert (inject_Z (Qfloor x) < inject_Z (z + 1)) as B by (eapply Qle_lt_trans; eassumption).
  rewrite <- Zlt_Qlt in A, B. lia.
Qed.

End Numbers.

(** ** Text normalisation *)

Section Text.
Import JS.

Lemma trimStart_nil_iff (s : jsstring) :
  trimStart s = [] <-> forallb isWhiteSpace s = true.
Proof.
  induction s as [| c rest IH]; simpl.
  - tauto.
  - destruct (isWhiteSpace c); simpl.
    + exact IH.
    + split; discriminate.
Qed.

(** What [trimStart] leaves starts with a unit that is not white space. *)
Lemma trimStart_head (s : jsstring) (c : N) (rest : jsstring) :
  trimStart s = c :: rest -> isWhiteSpace c = false.
Proof.
  induction s as [| d s' IH]; simpl; [discriminate |].
  destruct (isWhiteSpace d) eqn:Ed; [exact IH |].
  intros E. injection E as -> _. exact Ed.
Qed.

Lemma trim_nil_iff (s : jsstring) :
  trim s = [] <-> forallb isWhiteSpace s = true.
Proof.
  unfold trim, trimEnd. rewrite <- trimStart_nil_iff.
  destruct (trimStart s) as [| c rest] eqn:E; simpl.
  - tauto.
  - split; [| discriminate].
    intros H. exfalso.
    apply (f_equal (@rev N)) in H. rewrite rev_involutive in H. simpl in H.
    apply trimStart_nil_iff in H.
    rewrite forallb_app in H. apply andb_true_iff in H as [_ H].
    simpl in H. rewrite (trimStart_head _ _ _ E) in H. discriminate.
Qed.

Lemma replaceRuns_whitespace (inRun : bool) (s : jsstring) :
  forallb isWhiteSpace (replaceRuns inRun s) = forallb isWhiteSpace s.
Proof.
  revert inRun. induction s as [| c rest IH]; intros inRun; simpl; [reflexivity |].
  destruct (isWhiteSpace c) eqn:Ec.
  - destruct inRun; simpl; apply IH.
  - simpl. rewrite Ec. reflexivity.
Qed.

(** The normalised text is empty exactly for a text made of white space
    only (the empty text included). *)
Lemma normalise_nil_iff (text : jsstring) :
  Synth.normalise text = [] <-> forallb isWhiteSpace text = true.
Proof.
  unfold Synth.normalise. rewrite trim_nil_iff. now rewrite replaceRuns_whitespace.
Qed.

End Text.

(** ** The synthesiser *)

Section SynthFacts.
Import JS WebAudio Synth.

Variable lower : jsstring -> jsstring.

Lemma tempo_bounds (e : EmotionPreset) : 0.65 <= tempo e /\ tempo e <= 1.45.
Proof. unfold tempo. apply clamp_bounds. discriminate. Qed.

Lemma charDuration_pos (e : EmotionPreset) : 0 < charDuration e.
Proof.
  unfold charDuration, BASE_CHAR_DURATION, Qdiv.
  destruct (tempo_bounds e) as [Hlo _].
  apply Qmult_lt_0_compat; [reflexivity |].
  apply Qinv_lt_0_compat. apply Qlt_le_trans with 0.65; [reflexivity | exact Hlo].
Qed.

Lemma totalDuration_pos (e : EmotionPreset) (n : Z) :
  (0 <= n)%Z -> 0 < totalDuration e n.
Proof.
  intros Hn. unfold totalDuration, SILENCE_PADDING.
  assert (0 <= inject_Z n * charDuration e) as H.
  { apply Qmult_le_0_compat.
    - change (inject_Z 0 <= inject_Z n). now rewrite <- Zle_Qle.
    - apply Qlt_le_weak, charDuration_pos. }
  revert H. generalize (inject_Z n * charDuration e). intros q Hq. lra.
Qed.

Lemma createBuffer_ok (len : Z) (rate : Q) :
  (0 < len)%Z -> 0 < rate ->
  createBuffer 1 len rate =
  Return {| AudioBuffer.numberOfChannels := 1;
            AudioBuffer.length := len;
            AudioBuffer.sampleRate := rate;
            AudioBuffer.channelData := [repeat 0%R (Z.to_nat len)] |}.
Proof.
  intros Hlen Hrate. unfold createBuffer.
  replace (len <=? 0)%Z with false by (symmetry; apply Z.leb_gt; exact Hlen).
  destruct (Qle_bool rate 0) eqn:E.
  - apply Qle_bool_iff in E. exfalso. apply (Qlt_not_le _ _ Hrate E).
  - reflexivity.
Qed.

(** On a text with something to say and a context with a positive rate the
    synthesiser returns a clip, and its duration is the total duration
    computed from the length of the normalised text. *)
Lemma synthesiseText_returns (context : AudioContext) (text : jsstring)
    (e : EmotionPreset) (random : nat -> Q) :
  normalise text <> [] ->
  0 < rateOf context ->
  exists clip,
    synthesiseText lower context text e random = Return (Some clip)
    /\ duration clip = totalDuration e (Z.of_nat (List.length (normalise text)))
    /\ AudioBuffer.length (buffer clip)
       = Qceiling (totalDuration e (Z.of_nat (List.length (normalise text)))
                   * rateOf context).
Proof.
  intros Hne Hrate. unfold synthesiseText.
  destruct (normalise text) as [| c rest] eqn:E; [contradiction |].
  set (n := Z.of_nat (List.length (c :: rest))).
  rewrite createBuffer_ok; [| | exact Hrate].
  - eexists. split; [reflexivity |]. split; reflexivity.
  - apply Qceiling_pos. apply Qmult_lt_0_compat; [| exact Hrate].
    apply totalDuration_pos. subst n. apply Nat2Z.is_nonneg.
Qed.

Lemma synthesiseText_null_iff (context : AudioContext) (text : jsstring)
    (e : EmotionPreset) (random : nat -> Q) :
  synthesiseText lower context text e random = Return None <-> normalise text = [].
Proof.
  unfold synthesiseText.
  destruct (normalise text) as [| c rest]; [tauto |].
  split; [| discriminate].
  destruct (createBuffer _ _ _); discriminate.
Qed.

Lemma lookup_VOWEL_FREQ_pos (key : jsstring) (f : Q) :
  lookup key VOWEL_FREQ = Some f -> 0 < f.
Proof.
  unfold VOWEL_FREQ. simpl.
  repeat (destruct (jsstring_eqb key _);
          [intros E; injection E as <-; reflexivity |]).
  discriminate.
Qed.

Lemma baseFreq_pos (char : jsstring) : 0 < baseFreq lower char.
Proof.
  unfold baseFreq.
  destruct (lookup (toLowerCase lower char) VOWEL_FREQ) as [f |] eqn:E.
  - exact (lookup_VOWEL_FREQ_pos _ _ E).
  - assert (0 <= inject_Z (Z.of_N (charCodeAt0 (toLowerCase lower char) mod 25)) * 4) as H.
    { apply Qmult_le_0_compat; [| discriminate].
      match goal with |- 0 <= inject_Z ?z => change (inject_Z 0 <= inject_Z z) end.
      rewrite <- Zle_Qle. apply N2Z.is_nonneg. }
    revert H. generalize (inject_Z (Z.of_N (charCodeAt0 (toLowerCase lower char) mod 25)) * 4).
    intros q Hq. lra.
Qed.

(** The factor of [freq] that does not depend on the emotion. *)
Lemma freq_factor_pos (char : jsstring) :
  (0 < Q2R (baseFreq lower char) * (if isVowel lower char then 1 else 0.92))%R.
Proof.
  apply Rmult_lt_0_compat.
  - rewrite <- RMicromega.Q2R_0. apply Qlt_Rlt, baseFreq_pos.
  - destruct (isVowel lower char); lra.
Qed.

Lemma freq_lt (e1 e2 : EmotionPreset) (char : jsstring) :
  pitchShift e1 < pitchShift e2 -> (freq lower e1 char < freq lower e2 char)%R.
Proof.
  intros Hlt. unfold freq.
  pose proof (freq_factor_pos char) as Hpos.
  assert (Math_pow 2 (Q2R (pitchShift e1 / 12)) < Math_pow 2 (Q2R (pitchShift e2 / 12)))%R as Hp.
  { apply Math_pow_2_lt. apply Qlt_Rlt.
    unfold Qdiv. apply Qmult_lt_compat_r; [reflexivity | exact Hlt]. }
  set (p1 := Math_pow 2 (Q2R (pitchShift e1 / 12))) in *.
  set (p2 := Math_pow 2 (Q2R (pitchShift e2 / 12))) in *.
  set (b := Q2R (baseFreq lower char)) in *.
  set (k := (if isVowel lower char then 1 else 0.92)%R) in *.
  replace (b * p1 * k)%R with (b * k * p1)%R by ring.
  replace (b * p2 * k)%R with (b * k * p2)%R by ring.
  apply Rmult_lt_compat_l; assumption.
Qed.

End SynthFacts.

(** In doubles the nine characters of "Hi there." at tempo 1 last
    [1.5400000000000003] seconds: the exact [1.54] up to rounding in the last
    place. *)
Lemma hi_there_binary64 :
  Binary64.totalDuration 1 9 = 0x1.8a3d70a3d70a5p+0%float
  /\ PrimFloat.ltb (PrimFloat.abs (Binary64.totalDuration 1 9 - 0x1.8a3d70a3d70a4p+0))
                   0x1p-51 = true.
Proof. split; vm_compute; reflexivity. Qed.

(** ** The write cursor and the output buffer *)

Section Cursor.
Import JS Synth.

Variable lower : jsstring -> jsstring.
Variable emotion : EmotionPreset.
Variable sampleRate : Q.
Variable totalSamples : Z.
Variable random : nat -> Q.


Lemma addAtNat_other (out : list R) (k j : nat) (v : R) :
  j <> k -> nth j (addAtNat out k v) 0%R = nth j out 0%R.
Proof.
  revert k j. induction out as [| x rest IH]; intros [| k] [| j] Hne; simpl; auto.
  contradiction.
Qed.


Lemma addAt_other (out : list R) (k : Z) (j : nat) (v : R) :
  Z.of_nat j <> k -> nth j (addAt out k v) 0%R = nth j out 0%R.
Proof.
  intros Hne. unfold addAt. destruct (k <? 0)%Z eqn:E; [reflexivity |].
  apply addAtNat_other. apply Z.ltb_ge in E. intros ->.
  apply Hne. now rewrite Z2Nat.id.
Qed.











End Cursor.


(** ** The playback session *)

Section Session.
Import JS WebAudio Transformer Engine.
Local Open Scope engine_scope.

Variable browser : Browser.

(** *** Rules for code in [M] *)

Section Keeps.
Variable P : State -> Prop.

Lemma keeps_ret {A} (a : A) : keeps P (ret a).
Proof. intros s H. exact H. Qed.

Lemma keeps_throw {A} (e : exn) : keeps P (@throw A e).
Proof. intros s H. exact H. Qed.

Lemma keeps_await {A} (c : completion A) : keeps P (await c).
Proof. intros s H. exact H. Qed.

Lemma keeps_gets {A} (f : State -> A) : keeps P (gets f).
Proof. intros s H. exact H. Qed.

Lemma keeps_modify (f : State -> State) :
  (forall s, P s -> P (f s)) -> keeps P (modify f).
Proof. intros Hf s H. apply Hf, H. Qed.

Lemma keeps_bind {A B} (m : M A) (k : A -> M B) :
  keeps P m -> (forall a, keeps P (k a)) -> keeps P (bind m k).
Proof.
  intros Hm Hk s H. unfold bind.
  specialize (Hm s H). destruct (m s) as [[a | e] s']; simpl in *.
  - apply Hk, Hm.
  - exact Hm.
Qed.

Lemma keeps_tryFinally {A} (body : M A) (cleanup : State -> State) :
  keeps P body -> (forall s, P s -> P (cleanup s)) -> keeps P (tryFinally body cleanup).
Proof. intros Hb Hc s H. unfold tryFinally. simpl. apply Hc, Hb, H. Qed.

End Keeps.

(** *** The analyser loop stays consistent *)

Lemma loopConsistent_initial : loopConsistent initial.
Proof.
  unfold loopConsistent, initial; simpl.
  repeat split; try reflexivity; try congruence; discriminate.
Qed.

Lemma cancelAnalyser_spec (s : State) :
  loopConsistent s ->
  rafRef (cancelAnalyser s) = 0%N
  /\ scheduledFrames (cancelAnalyser s) = []
  /\ nextFrameHandle (cancelAnalyser s) = nextFrameHandle s
  /\ analyserRef (cancelAnalyser s) = analyserRef s
  /\ amplitudeLog (cancelAnalyser s) = amplitudeLog s.
Proof.
  intros (Hs & _). unfold cancelAnalyser.
  destruct (rafRef s =? 0)%N eqn:E.
  - apply N.eqb_eq in E. repeat split; assumption.
  - simpl. rewrite Hs. simpl. rewrite N.eqb_refl. simpl. repeat split.
Qed.

Lemma loopConsistent_cancelAnalyser (s : State) :
  loopConsistent s -> loopConsistent (cancelAnalyser s).
Proof.
  intros H. destruct (cancelAnalyser_spec s H) as (Hr & Hq & Hn & Ha & _).
  destruct H as (_ & Hlt & _ & Hfft).
  unfold loopConsistent. rewrite Hr, Hq, Hn, Ha. simpl.
  repeat split; [lia | congruence | exact Hfft].
Qed.

Lemma loopConsistent_onAmplitude (v : R) (s : State) :
  loopConsistent s -> loopConsistent (onAmplitude v s).
Proof. intros H. exact H. Qed.

Lemma loopConsistent_onEnded (s : State) :
  loopConsistent s -> loopConsistent (onEnded s).
Proof. intros H. exact H. Qed.

Lemma loopConsistent_setSource (src : option AudioBuffer.t) (s : State) :
  loopConsistent s -> loopConsistent (setSource src s).
Proof. intros H. exact H. Qed.

Lemma loopConsistent_setLastClip (c : LipSyncClip) (s : State) :
  loopConsistent s -> loopConsistent (setLastClip c s).
Proof. intros H. exact H. Qed.

Lemma loopConsistent_setIsBusy (b : bool) (s : State) :
  loopConsistent s -> loopConsistent (setIsBusy b s).
Proof. intros H. exact H. Qed.

Lemma loopConsistent_closeContext (s : State) :
  loopConsistent s -> loopConsistent (closeContext s).
Proof. intros H. exact H. Qed.

Lemma loopConsistent_setContext (ctx : AudioContext) (s : State) :
  loopConsistent s -> loopConsistent (setContext ctx s).
Proof.
  intros (Hs & Hlt & _ & _). unfold loopConsistent. simpl.
  repeat split; try assumption; try discriminate.
  intros a E. injection E as <-. reflexivity.
Qed.

Lemma loopConsistent_stop (s : State) :
  loopConsistent s -> loopConsistent (stop s).
Proof.
  intros H. unfold stop.
  apply loopConsistent_cancelAnalyser, (loopConsistent_onAmplitude 0) in H.
  destruct (sourceRef _); [apply loopConsistent_setSource |]; exact H.
Qed.

(** Scheduling a [tick] when none is pending. *)
Lemma loopConsistent_request (s : State) :
  (0 < nextFrameHandle s)%N ->
  (forall a, analyserRef s = Some a -> fftSize a = 1024%nat) ->
  scheduledFrames s = [] -> analyserRef s <> None ->
  loopConsistent (setRaf (fst (requestAnimationFrame s)) (snd (requestAnimationFrame s))).
Proof.
  intros Hlt Hfft Hq Ha. unfold loopConsistent. simpl. rewrite Hq. simpl.
  replace (nextFrameHandle s =? 0)%N with false by (symmetry; apply N.eqb_neq; lia).
  repeat split; [lia | intros _; exact Ha | exact Hfft].
Qed.

Lemma loopConsistent_startAnalyserLoop (s : State) :
  loopConsistent s -> loopConsistent (startAnalyserLoop s).
Proof.
  intros H. unfold startAnalyserLoop.
  destruct (analyserRef s) as [a |] eqn:Ea; [| exact H].
  destruct (cancelAnalyser_spec s H) as (_ & Hq & Hn & Ha & _).
  destruct H as (_ & Hlt & _ & Hfft).
  apply loopConsistent_request.
  - rewrite Hn. lia.
  - rewrite Ha. exact Hfft.
  - exact Hq.
  - rewrite Ha, Ea. discriminate.
Qed.

Lemma loopConsistent_sourceEnded (s : State) :
  loopConsistent s -> loopConsistent (sourceEnded s).
Proof.
  intros H. unfold sourceEnded.
  now apply loopConsistent_onEnded, loopConsistent_onAmplitude, loopConsistent_cancelAnalyser.
Qed.

Lemma loopConsistent_unmount (s : State) :
  loopConsistent s -> loopConsistent (unmount s).
Proof.
  intros H. unfold unmount. apply loopConsistent_stop in H.
  destruct (audioRef _); [apply loopConsistent_closeContext |]; exact H.
Qed.

(** One animation frame: nothing happens when no [tick] is pending;
    otherwise the one pending [tick] runs, reports the mapped RMS of the
    window and schedules itself again. *)
Lemma animationFrame_spec (dataArray : nat -> R) (s : State) :
  loopConsistent s ->
  loopConsistent (animationFrame dataArray s)
  /\ (rafRef s = 0%N ->
      amplitudeLog (animationFrame dataArray s) = amplitudeLog s
      /\ rafRef (animationFrame dataArray s) = 0%N)
  /\ (rafRef s <> 0%N ->
      amplitudeLog (animationFrame dataArray s)
      = amplitudeLog s ++ [mapAmplitude (rmsOf dataArray 512)]).
Proof.
  intros H. pose proof H as (Hs & Hlt & Ha & Hfft).
  unfold animationFrame. rewrite Hs.
  destruct (rafRef s =? 0)%N eqn:E.
  - apply N.eqb_eq in E. simpl. split; [| split].
    + unfold loopConsistent. simpl. rewrite E. simpl.
      repeat split; [lia | congruence | exact Hfft].
    + intros _. split; [reflexivity | exact E].
    + intros N. contradiction.
  - apply N.eqb_neq in E. cbn [fold_left]. cbn [analyserRef setScheduled].
    destruct (analyserRef s) as [a |] eqn:Ea; [| exfalso; now apply Ha].
    split; [| split].
    + unfold tick. apply loopConsistent_request; simpl.
      * lia.
      * rewrite Ea. exact Hfft.
      * reflexivity.
      * rewrite Ea. discriminate.
    + intros Z. contradiction.
    + intros _. unfold tick. simpl. unfold frequencyBinCount.
      rewrite (Hfft a eq_refl). reflexivity.
Qed.

(** *** Every operation keeps the loop consistent *)

Lemma keeps_ensureContext (P : State -> Prop) :
  (forall ctx s, P s -> P (setContext ctx s)) -> keeps P (ensureContext browser).
Proof.
  intros Hset. unfold ensureContext.
  destruct (negb (windowDefined browser)); [apply keeps_ret |].
  apply keeps_bind; [apply keeps_gets |].
  intros [ctx |]; [apply keeps_ret |].
  destruct (AudioContextCtor browser) as [ctx |]; [| apply keeps_throw].
  apply keeps_bind; [apply keeps_modify, Hset | intros _; apply keeps_ret].
Qed.

Lemma keeps_playClip (P : State -> Prop) (resumed : completion unit)
    (clip : option LipSyncClip) :
  (forall ctx s, P s -> P (setContext ctx s)) ->
  (forall s, P s -> P (stop s)) ->
  (forall src s, P s -> P (setSource src s)) ->
  (forall s, P s -> P (startAnalyserLoop s)) ->
  (forall c s, P s -> P (setLastClip c s)) ->
  keeps P (playClip browser resumed clip).
Proof.
  intros Hctx Hstop Hsrc Hstart Hlast. unfold playClip.
  destruct clip as [c |]; [| apply keeps_ret].
  apply keeps_bind; [now apply keeps_ensureContext |]. intros context.
  apply keeps_bind; [apply keeps_gets |]. intros gain.
  destruct context as [ctx |], gain as [g |]; try apply keeps_ret.
  repeat (apply keeps_bind; [| intros ?]);
    auto using keeps_modify, keeps_await, keeps_ret.
Qed.

Lemma loopConsistent_playClip (resumed : completion unit) (clip : option LipSyncClip) :
  keeps loopConsistent (playClip browser resumed clip).
Proof.
  apply keeps_playClip;
    auto using loopConsistent_setContext, loopConsistent_stop, loopConsistent_setSource,
               loopConsistent_startAnalyserLoop, loopConsistent_setLastClip.
Qed.

Lemma loopConsistent_speakText (text : jsstring) (emotion : EmotionPreset)
    (random : nat -> Q) (resumed : completion unit) :
  keeps loopConsistent (speakText browser text emotion random resumed).
Proof.
  unfold speakText.
  apply keeps_bind; [apply keeps_ensureContext, loopConsistent_setContext |].
  intros [ctx |]; [| apply keeps_ret].
  apply keeps_bind; [apply keeps_modify, loopConsistent_setIsBusy | intros _].
  apply keeps_tryFinally; [| apply loopConsistent_setIsBusy].
  apply keeps_bind; [apply keeps_await | intros clip].
  apply keeps_bind; [apply loopConsistent_playClip | intros _; apply keeps_ret].
Qed.

Lemma loopConsistent_playFile (file : File) (emotion : EmotionPreset)
    (resumed : completion unit) :
  keeps loopConsistent (playFile browser file emotion resumed).
Proof.
  unfold playFile.
  apply keeps_bind; [apply keeps_ensureContext, loopConsistent_setContext |].
  intros [ctx |]; [| apply keeps_ret].
  apply keeps_bind; [apply keeps_modify, loopConsistent_setIsBusy | intros _].
  apply keeps_tryFinally; [| apply loopConsistent_setIsBusy].
  apply keeps_bind; [apply keeps_await | intros clip].
  apply keeps_bind; [apply loopConsistent_playClip | intros _; apply keeps_ret].
Qed.

Lemma loopConsistent_replay (resumed : completion unit) :
  keeps loopConsistent (replay browser resumed).
Proof.
  unfold replay. apply keeps_bind; [apply keeps_gets |].
  intros [c |]; [| apply keeps_ret].
  apply keeps_bind; [apply loopConsistent_playClip | intros _; apply keeps_ret].
Qed.

Lemma loopConsistent_step (s : State) (ev : Event) :
  loopConsistent s -> loopConsistent (step browser s ev).
Proof.
  intros H. destruct ev; simpl.
  - now apply loopConsistent_speakText.
  - now apply loopConsistent_playFile.
  - now apply loopConsistent_replay.
  - now apply loopConsistent_stop.
  - now apply animationFrame_spec.
  - now apply loopConsistent_sourceEnded.
  - now apply loopConsistent_unmount.
Qed.

Lemma loopConsistent_run (events : list Event) (s : State) :
  loopConsistent s -> loopConsistent (run browser events s).
Proof.
  unfold run. revert s. induction events as [| ev rest IH]; intros s H; simpl.
  - exact H.
  - apply IH, loopConsistent_step, H.
Qed.

(** Every state the hook can reach. *)
Lemma loopConsistent_reachable (events : list Event) :
  loopConsistent (run browser events initial).
Proof. apply loopConsistent_run, loopConsistent_initial. Qed.

(** *** Stopping *)

Lemma stop_spec (s : State) :
  loopConsistent s ->
  rafRef (stop s) = 0%N /\ scheduledFrames (stop s) = []
  /\ amplitudeLog (stop s) = amplitudeLog s ++ [0%R].
Proof.
  intros H. destruct (cancelAnalyser_spec s H) as (Hr & Hq & _ & _ & Hl).
  unfold stop.
  destruct (sourceRef (onAmplitude 0 (cancelAnalyser s))); simpl; rewrite Hl; auto.
Qed.

Lemma sourceEnded_spec (s : State) :
  loopConsistent s ->
  rafRef (sourceEnded s) = 0%N /\ scheduledFrames (sourceEnded s) = []
  /\ amplitudeLog (sourceEnded s) = amplitudeLog s ++ [0%R].
Proof.
  intros H. destruct (cancelAnalyser_spec s H) as (Hr & Hq & _ & _ & Hl).
  unfold sourceEnded. simpl. rewrite Hl. auto.
Qed.


(** *** The busy flag *)

Lemma busy_ensureContext (b : bool) :
  keeps (fun s => isBusy s = b) (ensureContext browser).
Proof. apply keeps_ensureContext. intros ctx s H. exact H. Qed.

Lemma busy_stop (b : bool) (s : State) : isBusy s = b -> isBusy (stop s) = b.
Proof.
  intros H. unfold stop, cancelAnalyser.
  destruct (rafRef s =? 0)%N; simpl;
    match goal with |- context [match ?x with _ => _ end] => destruct x end; exact H.
Qed.

Lemma busy_startAnalyserLoop (b : bool) (s : State) :
  isBusy s = b -> isBusy (startAnalyserLoop s) = b.
Proof.
  intros H. unfold startAnalyserLoop, cancelAnalyser.
  destruct (analyserRef s); [| exact H].
  destruct (rafRef s =? 0)%N; exact H.
Qed.

Lemma busy_playClip (b : bool) (resumed : completion unit) (clip : option LipSyncClip) :
  keeps (fun s => isBusy s = b) (playClip browser resumed clip).
Proof.
  apply keeps_playClip; auto using busy_stop, busy_startAnalyserLoop.
Qed.

Lemma busy_animationFrame (b : bool) (dataArray : nat -> R) (s : State) :
  isBusy s = b -> isBusy (animationFrame dataArray s) = b.
Proof.
  intros H. unfold animationFrame.
  assert (isBusy (setScheduled [] (nextFrameHandle s) s) = b) as H0 by exact H.
  revert H0. generalize (setScheduled [] (nextFrameHandle s) s).
  induction (scheduledFrames s) as [| h rest IH]; intros s0 H0; simpl; [exact H0 |].
  apply IH. destruct (analyserRef s0); [exact H0 | exact H0].
Qed.

(** A call of [speakText] that gets past the context check ends with the
    flag down, whatever the flag was and however the call completes; a call
    that stops at the check leaves the flag as it was. *)
Lemma speakText_busy (text : jsstring) (emotion : EmotionPreset)
    (random : nat -> Q) (resumed : completion unit) (s : State) :
  match fst (ensureContext browser s) with
  | Return (Some _) =>
      isBusy (snd (speakText browser text emotion random resumed s)) = false
  | _ => isBusy (snd (speakText browser text emotion random resumed s)) = isBusy s
  end.
Proof.
  pose proof (busy_ensureContext (isBusy s) s eq_refl) as Hk.
  unfold speakText, bind.
  destruct (ensureContext browser s) as [[[ctx |] | e] s1]; simpl in *; auto.
Qed.

Lemma playFile_busy (file : File) (emotion : EmotionPreset)
    (resumed : completion unit) (s : State) :
  match fst (ensureContext browser s) with
  | Return (Some _) => isBusy (snd (playFile browser file emotion resumed s)) = false
  | _ => isBusy (snd (playFile browser file emotion resumed s)) = isBusy s
  end.
Proof.
  pose proof (busy_ensureContext (isBusy s) s eq_refl) as Hk.
  unfold playFile, bind.
  destruct (ensureContext browser s) as [[[ctx |] | e] s1]; simpl in *; auto.
Qed.

Lemma busy_replay (b : bool) (resumed : completion unit) :
  keeps (fun s => isBusy s = b) (replay browser resumed).
Proof.
  unfold replay. apply keeps_bind; [apply keeps_gets |].
  intros [c |]; [| apply keeps_ret].
  apply keeps_bind; [apply busy_playClip | intros _; apply keeps_ret].
Qed.

Lemma not_busy_step (s : State) (ev : Event) :
  isBusy s = false -> isBusy (step browser s ev) = false.
Proof.
  intros H. destruct ev; simpl.
  - pose proof (speakText_busy text emotion random resumed s) as B.
    destruct (fst (ensureContext browser s)) as [[ctx |] | e]; congruence.
  - pose proof (playFile_busy file emotion resumed s) as B.
    destruct (fst (ensureContext browser s)) as [[ctx |] | e]; congruence.
  - now apply busy_replay.
  - now apply busy_stop.
  - now apply busy_animationFrame.
  - unfold sourceEnded, cancelAnalyser. destruct (rafRef s =? 0)%N; exact H.
  - unfold unmount. pose proof (busy_stop false s H) as B.
    destruct (audioRef (stop s)); exact B.
Qed.

Lemma not_busy_run (events : list Event) (s : State) :
  isBusy s = false -> isBusy (run browser events s) = false.
Proof.
  unfold run. revert s. induction events as [| ev rest IH]; intros s H; simpl.
  - exact H.
  - apply IH, not_busy_step, H.
Qed.

End Session.


(** ** The transformer *)

Section TransformerFacts.
Import JS WebAudio Transformer.

Variable rendered : OfflineRender -> completion (list (list R)).

(** A rejected read or decode rejects the transform with the same reason. *)
Lemma transform_decode_error (file : File) (context : AudioContext)
    (emotion : EmotionPreset) (bytes : list Byte.byte) (e : exn) :
  arrayBuffer file = Return bytes ->
  decodeAudioData context bytes = Throw e ->
  transformBufferWithEmotion rendered file context emotion = Throw e.
Proof.
  intros Hread Hdec. unfold transformBufferWithEmotion.
  rewrite Hread, Hdec. reflexivity.
Qed.




End TransformerFacts.

(** ** The variant constructor and the documented ranges *)

Section Ranges.
Import JS Synth.

Lemma page_clamp_bounds (v lo hi : Q) :
  lo <= hi -> lo <= Page.clamp v lo hi /\ Page.clamp v lo hi <= hi.
Proof. exact (clamp_bounds v lo hi). Qed.

Lemma createVariantEmotion_inRange (preset : EmotionPreset) (random : nat -> Q) :
  Spec.inRange (Page.createVariantEmotion preset random).
Proof.
  unfold Spec.inRange, Page.createVariantEmotion. cbn.
  repeat split; apply page_clamp_bounds; discriminate.
Qed.

(** Clamping changes nothing in a profile that is in range. *)
Lemma clampedProfile_inRange (e : EmotionPreset) :
  Spec.inRange e ->
  tempoMultiplier (Spec.clampedProfile e) == tempoMultiplier e
  /\ pitchShift (Spec.clampedProfile e) == pitchShift e
  /\ gestureIntensity (Spec.clampedProfile e) == gestureIntensity e
  /\ mouthIntensity (Spec.clampedProfile e) == mouthIntensity e
  /\ browLift (Spec.clampedProfile e) == browLift e.
Proof.
  intros ((? & ?) & (? & ?) & (? & ?) & (? & ?) & (? & ?)). cbn.
  repeat split; now apply clamp_inside.
Qed.

Lemma clamp_idempotent (v lo hi : Q) :
  lo <= hi -> clamp (clamp v lo hi) lo hi == clamp v lo hi.
Proof. intros H. apply clamp_inside; now apply clamp_bounds. Qed.

(** The synthesiser's timing depends on the tempo through its clamp only. *)
Lemma charDuration_clamped (e : EmotionPreset) :
  charDuration (Spec.clampedProfile e) == charDuration e.
Proof.
  unfold charDuration, tempo. cbn.
  rewrite clamp_idempotent by discriminate. reflexivity.
Qed.

(** The frequency depends on the pitch shift up to equality of rationals. *)
Lemma freq_comp (lower : jsstring -> jsstring) (e1 e2 : EmotionPreset)
    (char : jsstring) :
  pitchShift e1 == pitchShift e2 -> freq lower e1 char = freq lower e2 char.
Proof.
  intros E. unfold freq.
  replace (Q2R (pitchShift e1 / 12)) with (Q2R (pitchShift e2 / 12)); [reflexivity |].
  apply Qeq_eqR. now rewrite E.
Qed.

End Ranges.

(** ** The embedding at work *)

Section Evaluation.
Import JS Synth Examples.

Example normalise_collapses_and_trims :
  normalise (fromAscii "  Hi 	 there.  ") = fromAscii "Hi there.".
Proof. vm_compute. reflexivity. Qed.

Example normalise_blank : normalise [9; 10; 32; 160; 8232; 65279]%N = [].
Proof. vm_compute. reflexivity. Qed.

Example split_words :
  split (fromAscii "Hi there.") = [fromAscii "Hi"; fromAscii "there."].
Proof. vm_compute. reflexivity. Qed.

Example characters_pairs_surrogates :
  characters [55357; 56832; 97]%N = [[55357; 56832]; [97]]%N.
Proof. vm_compute. reflexivity. Qed.

Example baseFreq_vowel : baseFreq caseless (fromAscii "A") = 210.
Proof. vm_compute. reflexivity. Qed.

Example baseFreq_consonant : baseFreq caseless (fromAscii "H") == 156.
Proof. vm_compute. reflexivity. Qed.

Example charSamples_default :
  charSamples defaultProfile 44100 = 6174%Z /\ wordGap defaultProfile 44100 = 3704%Z.
Proof. split; vm_compute; reflexivity. Qed.

Example totalSamples_hi_there :
  Qceiling (totalDuration defaultProfile 9 * 44100) = 67914%Z.
Proof. vm_compute. reflexivity. Qed.

Example envelope_attack_sustain_release :
  computeEnvelope 2 6174 == 0.5
  /\ computeEnvelope 3000 6174 == 1
  /\ computeEnvelope 6173 6174 == 0.25.
Proof. repeat split; vm_compute; reflexivity. Qed.

Example wild_variant_is_clamped :
  tempoMultiplier (Page.createVariantEmotion wildProfile halves) == 1.45
  /\ pitchShift (Page.createVariantEmotion wildProfile halves) == 6
  /\ gestureIntensity (Page.createVariantEmotion wildProfile halves) == 1.4
  /\ mouthIntensity (Page.createVariantEmotion wildProfile halves) == 1.4
  /\ browLift (Page.createVariantEmotion wildProfile halves) == 1.2.
Proof. repeat split; vm_compute; reflexivity. Qed.

End Evaluation.

(** ** The context check *)

Section ContextCheck.
Import JS WebAudio Transformer Engine.

Variable browser : Browser.

(** In a browser with a window, [ensureContext] hands out the context the
    hook already holds, or the one the constructor makes. *)
Lemma ensureContext_available (s : State) (ctx : AudioContext) :
  windowDefined browser = true ->
  audioRef s = Some ctx \/ (audioRef s = None /\ AudioContextCtor browser = Some ctx) ->
  exists s1,
    ensureContext browser s = (Return (Some ctx), s1)
    /\ lastClipRef s1 = lastClipRef s
    /\ lastClipState s1 = lastClipState s
    /\ sourceRef s1 = sourceRef s
    /\ amplitudeLog s1 = amplitudeLog s.
Proof.
  intros Hw Hctx. unfold ensureContext. rewrite Hw. simpl. unfold bind, gets.
  destruct Hctx as [Hs | [Hs Hc]]; rewrite Hs.
  - exists s. repeat split.
  - rewrite Hc. exists (setContext ctx s). repeat split.
Qed.

(** A decode that rejects rejects [playFile], after the flag is lowered
    and before anything is played. *)
Lemma playFile_decode_error (file : File) (emotion : EmotionPreset)
    (resumed : completion unit) (s s1 : State) (ctx : AudioContext)
    (bytes : list Byte.byte) (e : exn) :
  ensureContext browser s = (Return (Some ctx), s1) ->
  arrayBuffer file = Return bytes ->
  decodeAudioData ctx bytes = Throw e ->
  playFile browser file emotion resumed s = (Throw e, setIsBusy false (setIsBusy true s1)).
Proof.
  intros Hctx Hread Hdec. unfold playFile, bind. rewrite Hctx. simpl.
  unfold tryFinally, bind, await.
  rewrite (transform_decode_error _ _ _ _ _ _ Hread Hdec). reflexivity.
Qed.

End ContextCheck.

(** * The claims *)



(** C2.  [synthesiseText] returns [null] exactly when the text, with its
    runs of white space collapsed to single spaces and trimmed, is empty,
    which is when the text holds white space only.  The [null] is a normal
    return, not a throw, and comes with no buffer. *)
Theorem synthesiseText_null_iff_blank :
  forall (lower : JS.jsstring -> JS.jsstring) (context : WebAudio.AudioContext)
         (text : JS.jsstring) (emotion : EmotionPreset) (random : nat -> Q),
    (Synth.synthesiseText lower context text emotion random = JS.Return None
     <-> Synth.normalise text = [])
    /\ (Synth.normalise text = [] <-> forallb JS.isWhiteSpace text = true)
    /\ (forall e, Synth.synthesiseText lower context text emotion random = JS.Throw e
                  <-> (Synth.normalise text <> []
                       /\ WebAudio.createBuffer 1
                            (Qceiling (Synth.totalDuration emotion
                                         (Z.of_nat (List.length (Synth.normalise text)))
                                       * Synth.rateOf context))
                            (Synth.rateOf context) = JS.Throw e)).
Proof.
  intros lower context text emotion random. split; [| split].
  - apply synthesiseText_null_iff.
  - apply normalise_nil_iff.
  - intros e. unfold Synth.synthesiseText.
    destruct (Synth.normalise text) as [| c rest].
    + split; [discriminate | intros [H _]; now contradiction H].
    + destruct (WebAudio.createBuffer _ _ _) as [buf | e'].
      * split; [discriminate | intros [_ H]; discriminate].
      * split.
        -- intros E. split; [discriminate | congruence].
        -- intros [_ E]. congruence.
Qed.

(** C3.  For a fixed character the synthesised frequency
    [baseFreq * 2^(pitchShift/12) * (vowel ? 1 : 0.92)] is strictly increasing
    in the pitch shift, for vowels and consonants alike; no other field of
    the profile enters it. *)
Theorem freq_strictly_increasing :
  forall (lower : JS.jsstring -> JS.jsstring) (e1 e2 : EmotionPreset) (char : JS.jsstring),
    pitchShift e1 < pitchShift e2 ->
    (Synth.freq lower e1 char < Synth.freq lower e2 char)%R
    /\ (forall e, Synth.freq lower e char
                  = (Q2R (Synth.baseFreq lower char)
                     * Rpower 2 (Q2R (pitchShift e / 12))
                     * (if Synth.isVowel lower char then 1 else 0.92))%R).
Proof.
  intros lower e1 e2 char Hlt. split.
  - now apply freq_lt.
  - intros e. unfold Synth.freq. rewrite Math_pow_pos_base by lra. reflexivity.
Qed.

Lemma freq_strictly_increasing_witness :
  (Synth.freq Examples.caseless (Examples.profile 1 0 1 1 0) (JS.fromAscii "k")
   < Synth.freq Examples.caseless (Examples.profile 1 2 1 1 0) (JS.fromAscii "k"))%R.
Proof.
  apply (freq_strictly_increasing Examples.caseless
           (Examples.profile 1 0 1 1 0) (Examples.profile 1 2 1 1 0) (JS.fromAscii "k")).
  reflexivity.
Defined.






(** C6.  When the decoder rejects the bytes of the file, the transform
    rejects with the decoder's error, [playFile] rejects with the same error
    to its caller, and the call returns no clip at all: nothing is stored as
    last clip and no source is started. *)
Theorem decode_error_propagates :
  forall (browser : Engine.Browser) (file : Transformer.File)
         (context : WebAudio.AudioContext) (emotion : EmotionPreset)
         (resumed : JS.completion unit) (bytes : list Byte.byte) (e : JS.exn)
         (s : Engine.State),
    Engine.windowDefined browser = true ->
    Engine.audioRef s = Some context
    \/ (Engine.audioRef s = None /\ Engine.AudioContextCtor browser = Some context) ->
    Transformer.arrayBuffer file = JS.Return bytes ->
    WebAudio.decodeAudioData context bytes = JS.Throw e ->
    Transformer.transformBufferWithEmotion (Engine.rendered browser) file context emotion
    = JS.Throw e
    /\ fst (Engine.playFile browser file emotion resumed s) = JS.Throw e
    /\ (forall clip, fst (Engine.playFile browser file emotion resumed s)
                     <> JS.Return clip)
    /\ Engine.lastClipRef (snd (Engine.playFile browser file emotion resumed s))
       = Engine.lastClipRef s
    /\ Engine.lastClipState (snd (Engine.playFile browser file emotion resumed s))
       = Engine.lastClipState s
    /\ Engine.sourceRef (snd (Engine.playFile browser file emotion resumed s))
       = Engine.sourceRef s.
Proof.
  intros browser file context emotion resumed bytes e s Hw Hctx Hread Hdec.
  destruct (ensureContext_available browser s context Hw Hctx)
    as (s1 & E & Hlast & Hstate & Hsrc & _).
  rewrite (playFile_decode_error browser file emotion resumed s s1 context bytes e
             E Hread Hdec).
  split; [exact (transform_decode_error _ _ _ _ _ _ Hread Hdec) |].
  simpl. repeat split; try assumption. intros clip. discriminate.
Qed.

Lemma decode_error_propagates_witness :
  fst (Engine.playFile (Examples.browserWith Examples.deafContext) Examples.upload
         Examples.defaultProfile (JS.Return tt) Engine.initial)
  = JS.Throw JS.EncodingError.
Proof.
  apply (decode_error_propagates (Examples.browserWith Examples.deafContext)
           Examples.upload Examples.deafContext Examples.defaultProfile (JS.Return tt)
           [Byte.x00; Byte.x01; Byte.x02] JS.EncodingError Engine.initial).
  - reflexivity.
  - right. split; reflexivity.
  - reflexivity.
  - reflexivity.
Defined.


(** C8, as stated, fails: the synthesiser does not clamp the pitch shift.
    With [pitchShift = 20] the frequency of "a" is computed from 20
    semitones, not from the 6 that clamping to the documented range gives. *)
Lemma synthesiser_uses_unclamped_pitch :
  Synth.freq Examples.caseless Examples.wildProfile (JS.fromAscii "a")
  <> Synth.freq Examples.caseless (Spec.clampedProfile Examples.wildProfile)
       (JS.fromAscii "a")
  /\ Synth.vibratoSpeed Examples.wildProfile == 22
  /\ Synth.vibratoSpeed (Spec.clampedProfile Examples.wildProfile) == 10.8.
Proof.
  split; [| split].
  - apply not_eq_sym, Rlt_not_eq, freq_lt. vm_compute. reflexivity.
  - vm_compute. reflexivity.
  - vm_compute. reflexivity.
Qed.

(** C8, amended.  The variant constructor clamps all five fields to the
    documented ranges, whatever the preset and the random draws, so the
    synthesiser's formulas see in-range values for every profile built by
    it.  On a profile as given, the synthesiser and the transformer clamp
    the tempo to [0.65, 1.45] before use, and clamp what they derive from
    the other fields: the amplitude to [0.05, 0.98], the brightness to
    [0.1, 1.2], the consonant noise to [0.12, 0.45] and the gain to
    [0.5, 1.4]. *)
Theorem profile_clamping :
  (forall (preset : EmotionPreset) (random : nat -> Q),
      Spec.inRange (Page.createVariantEmotion preset random))
  /\ (forall (lower : JS.jsstring -> JS.jsstring) (preset : EmotionPreset)
             (random : nat -> Q) (char : JS.jsstring),
         Synth.freq lower (Page.createVariantEmotion preset random) char
         = Synth.freq lower (Spec.clampedProfile (Page.createVariantEmotion preset random))
             char)
  /\ (forall (e : EmotionPreset),
         0.65 <= Synth.tempo e /\ Synth.tempo e <= 1.45
         /\ Synth.charDuration e == Synth.charDuration (Spec.clampedProfile e)
         /\ (forall n, Synth.totalDuration e n
                       == Synth.totalDuration (Spec.clampedProfile e) n)
         /\ (forall decoded, Transformer.offlineLengthFor decoded e
                             = Transformer.offlineLengthFor decoded (Spec.clampedProfile e)))
  /\ (forall (lower : JS.jsstring -> JS.jsstring) (e : EmotionPreset) (char : JS.jsstring),
         0.05 <= Synth.amplitude lower e char /\ Synth.amplitude lower e char <= 0.98)
  /\ (forall (e : EmotionPreset),
         (0.1 <= Synth.brightness e /\ Synth.brightness e <= 1.2)
         /\ (0.12 <= Synth.consonantNoise e /\ Synth.consonantNoise e <= 0.45)
         /\ (forall decoded,
                0.5 <= WebAudio.gainValue (Transformer.offlineGraph decoded e)
                /\ WebAudio.gainValue (Transformer.offlineGraph decoded e) <= 1.4)).
Proof.
  split; [| split; [| split; [| split]]].
  - apply createVariantEmotion_inRange.
  - intros lower preset random char. apply freq_comp. symmetry.
    apply clampedProfile_inRange, createVariantEmotion_inRange.
  - intros e.
    destruct (tempo_bounds e) as [Hlo Hhi].
    pose proof (charDuration_clamped e) as Hcd.
    repeat split; try assumption.
    + now symmetry.
    + intros n. unfold Synth.totalDuration. now rewrite Hcd.
    + intros decoded. unfold Transformer.offlineLengthFor.
      cbn [tempoMultiplier Spec.clampedProfile].
      apply Qfloor_comp. now rewrite clamp_idempotent by discriminate.
  - intros lower e char. unfold Synth.amplitude. apply clamp_bounds. discriminate.
  - intros e. repeat split;
      try (apply clamp_bounds; discriminate);
      intros; cbn; apply clamp_bounds; discriminate.
Qed.




(** C10.  After every call of [speakText] or [playFile] has settled, the
    busy flag is down.  A call that gets past the context check lowers the
    flag on every way out, whether it returns, synthesis throws or the
    decode rejects, and whatever the flag was before; a call that stops at
    the context check never raised it.  So along every sequence of calls and
    events from the initial state the flag is down after each of them. *)
Theorem busy_flag_reset :
  forall (browser : Engine.Browser),
    (forall (events : list Engine.Event),
        Engine.isBusy (Engine.run browser events Engine.initial) = false)
    /\ (forall (s : Engine.State) (ctx : WebAudio.AudioContext) text emotion random resumed,
           fst (Engine.ensureContext browser s) = JS.Return (Some ctx) ->
           Engine.isBusy (snd (Engine.speakText browser text emotion random resumed s))
           = false)
    /\ (forall (s : Engine.State) (ctx : WebAudio.AudioContext) file emotion resumed,
           fst (Engine.ensureContext browser s) = JS.Return (Some ctx) ->
           Engine.isBusy (snd (Engine.playFile browser file emotion resumed s)) = false)
    /\ (forall (s : Engine.State) text emotion random resumed,
           (forall ctx, fst (Engine.ensureContext browser s) <> JS.Return (Some ctx)) ->
           Engine.isBusy (snd (Engine.speakText browser text emotion random resumed s))
           = Engine.isBusy s)
    /\ (forall (s : Engine.State) file emotion resumed,
           (forall ctx, fst (Engine.ensureContext browser s) <> JS.Return (Some ctx)) ->
           Engine.isBusy (snd (Engine.playFile browser file emotion resumed s))
           = Engine.isBusy s).
Proof.
  intros browser. split; [| split; [| split; [| split]]].
  - intros events. now apply not_busy_run.
  - intros s ctx text emotion random resumed E.
    pose proof (speakText_busy browser text emotion random resumed s) as B.
    now rewrite E in B.
  - intros s ctx file emotion resumed E.
    pose proof (playFile_busy browser file emotion resumed s) as B.
    now rewrite E in B.
  - intros s text emotion random resumed N.
    pose proof (speakText_busy browser text emotion random resumed s) as B.
    destruct (fst (Engine.ensureContext browser s)) as [[ctx |] | e]; try exact B.
    now contradiction (N ctx).
  - intros s file emotion resumed N.
    pose proof (playFile_busy browser file emotion resumed s) as B.
    destruct (fst (Engine.ensureContext browser s)) as [[ctx |] | e]; try exact B.
    now contradiction (N ctx).
Qed.

Lemma busy_flag_reset_witness :
  fst (Engine.playFile (Examples.browserWith Examples.deafContext) Examples.upload
         Examples.defaultProfile (JS.Return tt) (Engine.setIsBusy true Engine.initial))
  = JS.Throw JS.EncodingError
  /\ Engine.isBusy
       (snd (Engine.playFile (Examples.browserWith Examples.deafContext) Examples.upload
               Examples.defaultProfile (JS.Return tt)
               (Engine.setIsBusy true Engine.initial)))
     = false.
Proof.
  split; [reflexivity |].
  destruct (busy_flag_reset (Examples.browserWith Examples.deafContext))
    as (_ & _ & Hplay & _).
  apply (Hplay _ Examples.deafContext). reflexivity.
Defined.

(** * Further properties of the code *)

(** ** The words of a normalised text *)

Section Words.
Import JS TextShape.

Lemma space_is_white (c : N) : (c =? 32)%N = true -> isWhiteSpace c = true.
Proof. intros E. apply N.eqb_eq in E. subst c. reflexivity. Qed.

Lemma spaced_weaken (s : jsstring) : spaced true s = true -> spaced false s = true.
Proof.
  destruct s as [| c rest]; simpl; [reflexivity |].
  destruct (c =? 32)%N; [discriminate | exact (fun H => H)].
Qed.

Lemma replaceRuns_spaced (inRun : bool) (text : jsstring) :
  spaced inRun (replaceRuns inRun text) = true.
Proof.
  revert inRun. induction text as [| c rest IH]; intros inRun; simpl; [reflexivity |].
  destruct (isWhiteSpace c) eqn:Ec.
  - destruct inRun; simpl; [apply IH | apply IH].
  - simpl. destruct (c =? 32)%N eqn:E32.
    + rewrite (space_is_white c E32) in Ec. discriminate.
    + rewrite Ec. simpl. apply IH.
Qed.

Lemma trimStart_spaced (s : jsstring) :
  spaced false s = true -> spaced true (trimStart s) = true.
Proof.
  induction s as [| c rest IH]; simpl; [reflexivity |].
  destruct (c =? 32)%N eqn:E32.
  - rewrite (space_is_white c E32). simpl. intros H. apply IH, spaced_weaken, H.
  - destruct (isWhiteSpace c) eqn:Ec; simpl; [discriminate |].
    intros H. rewrite E32, Ec. exact H.
Qed.

(** [trimStart] drops a prefix. *)
Lemma trimStart_suffix (s : jsstring) : exists pre, s = pre ++ trimStart s.
Proof.
  induction s as [| c rest [pre IH]]; simpl.
  - exists []. reflexivity.
  - destruct (isWhiteSpace c).
    + exists (c :: pre). simpl. now rewrite <- IH.
    + exists []. reflexivity.
Qed.

(** [trimEnd] drops a suffix. *)
Lemma trimEnd_prefix (s : jsstring) : exists post, s = trimEnd s ++ post.
Proof.
  unfold trimEnd. destruct (trimStart_suffix (rev s)) as [pre E].
  exists (rev pre).
  rewrite <- rev_app_distr, <- E. symmetry. apply rev_involutive.
Qed.

Lemma spaced_prefix (b : bool) (s post : jsstring) :
  spaced b (s ++ post) = true -> spaced b s = true.
Proof.
  revert b. induction s as [| c rest IH]; intros b; simpl; [reflexivity |].
  destruct (c =? 32)%N.
  - intros H. apply andb_true_iff in H as [H1 H2]. rewrite H1. simpl. now apply IH.
  - intros H. apply andb_true_iff in H as [H1 H2]. rewrite H1. simpl. now apply IH.
Qed.

(** What [trimEnd] leaves is empty or ends with a unit that is not white
    space. *)
Lemma trimEnd_last (s : jsstring) :
  trimEnd s = [] \/ exists front c, trimEnd s = front ++ [c] /\ isWhiteSpace c = false.
Proof.
  unfold trimEnd. destruct (trimStart (rev s)) as [| c rest] eqn:E.
  - left. reflexivity.
  - right. exists (rev rest), c. split; [reflexivity |].
    exact (trimStart_head _ _ _ E).
Qed.

Lemma spaced_worded (b : bool) (front : jsstring) (c : N) :
  spaced b (front ++ [c]) = true -> isWhiteSpace c = false ->
  worded b (front ++ [c]) = true.
Proof.
  intros H Hc. revert b H. induction front as [| d rest IH]; intros b; simpl.
  - destruct (c =? 32)%N eqn:E32.
    + rewrite (space_is_white c E32) in Hc. discriminate.
    + now rewrite Hc.
  - destruct (d =? 32)%N.
    + intros H. apply andb_true_iff in H as [H1 H2]. rewrite H1. simpl. now apply IH.
    + intros H. apply andb_true_iff in H as [H1 H2]. rewrite H1. simpl. now apply IH.
Qed.

(** A normalised text that is not empty is a sequence of words separated by
    single spaces. *)
Lemma normalise_worded (text : jsstring) :
  Synth.normalise text <> [] -> worded true (Synth.normalise text) = true.
Proof.
  unfold Synth.normalise, trim. intros Hne.
  set (u := trimStart (replaceRuns false text)) in *.
  assert (spaced true u = true) as Hu
    by (apply trimStart_spaced, replaceRuns_spaced).
  destruct (trimEnd_prefix u) as [post Epost].
  rewrite Epost in Hu. apply spaced_prefix in Hu.
  destruct (trimEnd_last u) as [E | (front & c & E & Hc)]; [contradiction |].
  rewrite E in *. now apply spaced_worded.
Qed.

Lemma forallb_reverse {A} (f : A -> bool) (l : list A) :
  forallb f (rev l) = forallb f l.
Proof.
  induction l as [| a rest IH]; simpl; [reflexivity |].
  rewrite forallb_app, IH. simpl. rewrite andb_true_r. apply andb_comm.
Qed.

Lemma splitFrom_words (s cur : jsstring) :
  forallb (fun c => negb (isWhiteSpace c)) cur = true ->
  worded (match cur with [] => true | _ => false end) s = true ->
  Forall isWord (splitFrom cur s).
Proof.
  revert cur. induction s as [| c rest IH]; intros cur Hcur; simpl.
  - intros H. constructor; [| constructor]. split.
    + destruct cur; [discriminate |]. simpl. intros E.
      apply app_eq_nil in E as [_ E]. discriminate.
    + rewrite forallb_reverse. exact Hcur.
  - destruct (c =? 32)%N.
    + intros H. apply andb_true_iff in H as [H1 H2]. constructor.
      * split.
        -- destruct cur; [discriminate |]. simpl. intros E.
           apply app_eq_nil in E as [_ E]. discriminate.
        -- rewrite forallb_reverse. exact Hcur.
      * apply IH; [reflexivity | exact H2].
    + intros H. apply andb_true_iff in H as [H1 H2].
      apply IH; [simpl; now rewrite H1 | exact H2].
Qed.

Lemma splitFrom_units (s cur : jsstring) :
  (unitsOf (splitFrom cur s) + List.length (splitFrom cur s)
   = List.length cur + List.length s + 1)%nat.
Proof.
  revert cur. induction s as [| c rest IH]; intros cur; simpl.
  - rewrite length_rev. lia.
  - destruct (c =? 32)%N; simpl.
    + rewrite length_rev. specialize (IH []). simpl in IH. lia.
    + rewrite IH. simpl. lia.
Qed.

Lemma splitFrom_nonempty (s cur : jsstring) :
  (1 <= List.length (splitFrom cur s))%nat.
Proof.
  revert cur. induction s as [| c rest IH]; intros cur; simpl; [lia |].
  destruct (c =? 32)%N; simpl; [lia | apply IH].
Qed.



End Words.

(** X1.  The words the synthesiser loops over, the pieces of the normalised
    text between spaces, are never empty and hold no white space; and the
    length of the normalised text is the code units of the words plus one
    space between neighbours. *)
Theorem words_of_normalised_text :
  forall text : JS.jsstring,
    Synth.normalise text <> [] ->
    Forall TextShape.isWord (JS.split (Synth.normalise text))
    /\ (List.length (Synth.normalise text)
        = TextShape.unitsOf (JS.split (Synth.normalise text))
          + (List.length (JS.split (Synth.normalise text)) - 1))%nat
    /\ (1 <= List.length (JS.split (Synth.normalise text)))%nat.
Proof.
  intros text Hne.
  pose proof (splitFrom_units (Synth.normalise text) []) as Hu.
  pose proof (splitFrom_nonempty (Synth.normalise text) []) as Hn.
  unfold JS.split. change (List.length (@nil N)) with O in Hu.
  split; [| split].
  - apply splitFrom_words; [reflexivity |]. now apply normalise_worded.
  - lia.
  - lia.
Qed.

Lemma words_of_normalised_text_witness :
  Forall TextShape.isWord
    (JS.split (Synth.normalise (JS.fromAscii "  Good   morning  to you ")))
  /\ (List.length (Synth.normalise (JS.fromAscii "  Good   morning  to you "))
      = TextShape.unitsOf (JS.split (Synth.normalise (JS.fromAscii "  Good   morning  to you ")))
        + (List.length (JS.split (Synth.normalise (JS.fromAscii "  Good   morning  to you "))) - 1))%nat
  /\ (1 <= List.length (JS.split (Synth.normalise (JS.fromAscii "  Good   morning  to you "))))%nat.
Proof.
  apply words_of_normalised_text. vm_compute. discriminate.
Defined.

(** ** What the synthesiser writes *)

Section Written.
Import JS Synth TextShape Buffers.

Variable lower : jsstring -> jsstring.
Variable emotion : EmotionPreset.
Variable sampleRate : Q.
Variable totalSamples : Z.
Variable random : nat -> Q.

Lemma sample_bounds (char : jsstring) (cur i : Z) (rnd : Q) :
  (-1 <= sample lower emotion sampleRate char cur i rnd <= 1)%R.
Proof. unfold sample. apply clampR_bounds. lra. Qed.

Lemma addAtNat_at (out : list R) (k : nat) (v : R) :
  nth k (addAtNat out k v) 0%R
  = if (k <? List.length out)%nat then (nth k out 0 + v)%R else nth k out 0%R.
Proof.
  revert k. induction out as [| x rest IH]; intros [| k]; simpl; try reflexivity.
  rewrite IH. reflexivity.
Qed.

Lemma addAt_at (out : list R) (j : nat) (v : R) :
  nth j (addAt out (Z.of_nat j) v) 0%R
  = if (j <? List.length out)%nat then (nth j out 0 + v)%R else nth j out 0%R.
Proof.
  unfold addAt. replace (Z.of_nat j <? 0)%Z with false by (symmetry; apply Z.ltb_ge; lia).
  rewrite Nat2Z.id. apply addAtNat_at.
Qed.

Lemma clean_later (out : list R) (c c' : Z) :
  (c <= c')%Z -> clean out c -> clean out c'.
Proof.
  intros Hle [Hb Hz]. split; [exact Hb |].
  intros j Hj. apply Hz. lia.
Qed.

Lemma clean_addAt (out : list R) (k : Z) (v : R) :
  (-1 <= v <= 1)%R -> clean out k -> clean (addAt out k v) (k + 1).
Proof.
  intros Hv [Hb Hz]. split.
  - intros j. destruct (Z.eq_dec (Z.of_nat j) k) as [E | N].
    + subst k. rewrite addAt_at. rewrite (Hz j) by lia.
      destruct (j <? List.length out)%nat; lra.
    + rewrite addAt_other by exact N. apply Hb.
  - intros j Hj. rewrite addAt_other by lia. apply Hz. lia.
Qed.

Lemma sampleLoop_clean (n : nat) (char : jsstring) (cur i : Z)
    (out : list R) (d : nat) :
  clean out (cur + i) ->
  clean (fst (sampleLoop lower emotion sampleRate totalSamples random
                n char cur i out d))
        (cur + i + Z.of_nat n).
Proof.
  revert i out d. induction n as [| n IH]; intros i out d H.
  - simpl. eapply clean_later; [| exact H]. lia.
  - cbn [sampleLoop]. destruct (cur + i <? totalSamples)%Z.
    + replace (cur + i + Z.of_nat (S n))%Z with (cur + (i + 1) + Z.of_nat n)%Z by lia.
      apply IH. replace (cur + (i + 1))%Z with (cur + i + 1)%Z by lia.
      apply clean_addAt; [apply sample_bounds | exact H].
    + simpl. eapply clean_later; [| exact H]. lia.
Qed.

Lemma synthChar_clean (st : SynthState) (char : jsstring) :
  (0 <= charSamples emotion sampleRate)%Z ->
  clean (output st) (cursor st) ->
  clean (output (synthChar lower emotion sampleRate totalSamples random st char))
        (cursor (synthChar lower emotion sampleRate totalSamples random st char)).
Proof.
  intros Hn H. unfold synthChar. cbn [output cursor].
  pose proof (sampleLoop_clean (Z.to_nat (charSamples emotion sampleRate)) char
                (cursor st) 0 (output st) (draws st)) as L.
  rewrite Z2Nat.id in L by exact Hn.
  replace (cursor st + 0)%Z with (cursor st) in L by lia.
  apply L, H.
Qed.

Lemma synthWord_clean (st : SynthState) (word : jsstring) :
  (0 <= charSamples emotion sampleRate)%Z ->
  (0 <= wordGap emotion sampleRate)%Z ->
  clean (output st) (cursor st) ->
  clean (output (synthWord lower emotion sampleRate totalSamples random st word))
        (cursor (synthWord lower emotion sampleRate totalSamples random st word)).
Proof.
  intros Hn Hg H. unfold synthWord. cbn [output cursor].
  apply clean_later with
    (cursor (fold_left (synthChar lower emotion sampleRate totalSamples random)
               (characters word) st)); [lia |].
  revert st H. induction (characters word) as [| c rest IH]; intros st H.
  - exact H.
  - cbn [fold_left]. apply IH. now apply synthChar_clean.
Qed.

Lemma synthWords_clean (words : list jsstring) (st : SynthState) :
  (0 <= charSamples emotion sampleRate)%Z ->
  (0 <= wordGap emotion sampleRate)%Z ->
  clean (output st) (cursor st) ->
  forall j,
    (-1 <= nth j (output (synthWords lower emotion sampleRate totalSamples random
                            words st)) 0 <= 1)%R.
Proof.
  intros Hn Hg H.
  assert (clean (output (synthWords lower emotion sampleRate totalSamples random words st))
                (cursor (synthWords lower emotion sampleRate totalSamples random words st)))
    as [Hb _]; [| exact Hb].
  unfold synthWords. revert st H. induction words as [| w rest IH]; intros st H.
  - exact H.
  - cbn [fold_left]. apply IH. now apply synthWord_clean.
Qed.

(** *** Counting the samples *)





End Written.

Section Budget.
Import JS Synth TextShape.

Lemma inject_Z_nonneg (z : Z) : (0 <= z)%Z -> 0 <= inject_Z z.
Proof. intros H. change (inject_Z 0 <= inject_Z z). now rewrite <- Zle_Qle. Qed.

Lemma Qfloor_nonneg (x : Q) : 0 <= x -> (0 <= Qfloor x)%Z.
Proof. intros H. change 0%Z with (Qfloor 0). now apply Qfloor_resp_le. Qed.

Lemma charSamples_nonneg (e : EmotionPreset) (rate : Q) :
  0 <= rate -> (0 <= charSamples e rate)%Z.
Proof.
  intros Hr. apply Qfloor_nonneg.
  apply Qmult_le_0_compat; [apply Qlt_le_weak, charDuration_pos | exact Hr].
Qed.

Lemma wordGap_nonneg (e : EmotionPreset) (rate : Q) :
  0 <= rate -> (0 <= wordGap e rate)%Z.
Proof.
  intros Hr. apply Qfloor_nonneg.
  apply Qmult_le_0_compat; [| discriminate].
  apply Qmult_le_0_compat; [apply Qlt_le_weak, charDuration_pos | exact Hr].
Qed.


End Budget.

Lemma Forall_of_nth (P : R -> Prop) (l : list R) :
  (forall j, P (nth j l 0%R)) -> Forall P l.
Proof.
  induction l as [| x rest IH]; intros H; constructor.
  - exact (H O).
  - apply IH. intros j. exact (H (S j)).
Qed.

Lemma clean_zeros (n : nat) : Buffers.clean (repeat 0%R n) 0.
Proof.
  assert (forall j, nth j (repeat 0%R n) 0%R = 0%R) as Hz.
  { intros j. revert j. induction n as [| n IH]; intros [| j]; simpl; auto. }
  split.
  - intros j. rewrite Hz. lra.
  - intros j _. apply Hz.
Qed.

(** X2.  Every sample of a synthesised clip lies in [-1, 1]: each position of
    the buffer is written at most once, with a value clipped to that
    range. *)
Theorem synthesised_samples_bounded :
  forall (lower : JS.jsstring -> JS.jsstring) (context : WebAudio.AudioContext)
         (text : JS.jsstring) (emotion : EmotionPreset) (random : nat -> Q),
    Synth.normalise text <> [] ->
    0 < Synth.rateOf context ->
    exists clip out,
      Synth.synthesiseText lower context text emotion random = JS.Return (Some clip)
      /\ AudioBuffer.channelData (buffer clip) = [out]
      /\ Forall (fun v => (-1 <= v <= 1)%R) out.
Proof.
  intros lower context text emotion random Hne Hrate. unfold Synth.synthesiseText.
  destruct (Synth.normalise text) as [| c rest] eqn:E; [contradiction |].
  set (n := Z.of_nat (List.length (c :: rest))).
  assert (0 < Qceiling (Synth.totalDuration emotion n * Synth.rateOf context))%Z as Hpos.
  { apply Qceiling_pos. apply Qmult_lt_0_compat; [| exact Hrate].
    apply totalDuration_pos. subst n. apply Nat2Z.is_nonneg. }
  rewrite createBuffer_ok by assumption.
  eexists. eexists. split; [reflexivity |].
  cbn [buffer AudioBuffer.channelData nth]. split; [reflexivity |].
  apply Forall_of_nth.
  apply synthWords_clean.
  - apply charSamples_nonneg. now apply Qlt_le_weak.
  - apply wordGap_nonneg. now apply Qlt_le_weak.
  - apply clean_zeros.
Qed.

Lemma synthesised_samples_bounded_witness :
  exists clip out,
    Synth.synthesiseText Examples.caseless Examples.decodingContext
      (JS.fromAscii "Hi there.") Examples.defaultProfile Examples.halves
    = JS.Return (Some clip)
    /\ AudioBuffer.channelData (buffer clip) = [out]
    /\ Forall (fun v => (-1 <= v <= 1)%R) out.
Proof.
  apply synthesised_samples_bounded.
  - vm_compute. discriminate.
  - reflexivity.
Defined.



(** ** Envelope, frequencies and durations *)

Section Voice.
Import JS Synth.

Lemma clamp_mono (v w lo hi : Q) : v <= w -> clamp v lo hi <= clamp w lo hi.
Proof.
  intros H. unfold clamp.
  apply Q.min_le_compat_l. now apply Q.max_le_compat_l.
Qed.

Lemma lookup_VOWEL_FREQ_range (key : jsstring) (f : Q) :
  lookup key VOWEL_FREQ = Some f -> 170 <= f /\ f <= 260.
Proof.
  unfold VOWEL_FREQ. simpl.
  repeat (destruct (jsstring_eqb key _);
          [intros E; injection E as <-; split; discriminate |]).
  discriminate.
Qed.

(** Dividing a positive number by a larger one gives less. *)
Lemma Qdiv_antitone (a s t : Q) : 0 <= a -> 0 < s -> s <= t -> a / t <= a / s.
Proof.
  intros Ha Hs Hst.
  assert (0 < t) as Ht by (eapply Qlt_le_trans; eassumption).
  apply Qle_shift_div_r; [exact Ht |].
  assert (0 <= a / s) as Hq.
  { apply Qle_shift_div_l; [exact Hs | lra]. }
  assert (a / s * s == a) as E by (field; lra).
  revert Hq E. generalize (a / s). intros q Hq E. nra.
Qed.

End Voice.

(** X4.  The envelope of a character is a factor between 0 and 1: it is 0 on
    the character's first sample and positive on every other one. *)
Theorem envelope_bounds :
  forall index total : Z,
    (0 <= index)%Z -> (index < total)%Z ->
    0 <= Synth.computeEnvelope index total
    /\ Synth.computeEnvelope index total <= 1
    /\ (index = 0%Z -> Synth.computeEnvelope index total == 0)
    /\ ((0 < index)%Z -> 0 < Synth.computeEnvelope index total).
Proof.
  intros index total H0 Hlt.
  assert (0 < inject_Z total) as Ht.
  { change (inject_Z 0 < inject_Z total). rewrite <- Zlt_Qlt. lia. }
  assert (0 <= inject_Z index) as Hi by (now apply inject_Z_nonneg).
  assert (inject_Z index < inject_Z total) as Hit by (now rewrite <- Zlt_Qlt).
  assert (0 <= inject_Z index / inject_Z total) as Hp0
    by (apply Qle_shift_div_l; [exact Ht | lra]).
  assert (inject_Z index / inject_Z total < 1) as Hp1
    by (apply Qlt_shift_div_r; [exact Ht | lra]).
  assert (0 < 4 / inject_Z total) as H4
    by (apply Qlt_shift_div_l; [exact Ht | lra]).
  assert ((0 < index)%Z -> 0 < inject_Z index / inject_Z total) as Hpp.
  { intros Hpos. apply Qlt_shift_div_l; [exact Ht |].
    rewrite Qmult_0_l. change (inject_Z 0 < inject_Z index). now rewrite <- Zlt_Qlt. }
  assert (index = 0%Z -> inject_Z index / inject_Z total == 0) as Hpz.
  { intros ->. unfold Qdiv. apply Qmult_0_l. }
  unfold Synth.computeEnvelope.
  assert (0 < Qmin 0.25 (4 / inject_Z total)) as Ha.
  { apply Q.min_glb_lt; [reflexivity | exact H4]. }
  revert Hp0 Hp1 Hpp Hpz Ha.
  generalize (inject_Z index / inject_Z total) (Qmin 0.25 (4 / inject_Z total)).
  intros pos attack Hp0 Hp1 Hpp Hpz Ha. cbv zeta.
  destruct (Qlt_le_dec pos attack) as [L | L].
  - repeat split.
    + apply Qle_shift_div_l; [exact Ha | lra].
    + apply Qle_shift_div_r; [exact Ha | lra].
    + intros E. rewrite (Hpz E). unfold Qdiv. apply Qmult_0_l.
    + intros Hpos. apply Qlt_shift_div_l; [exact Ha |]. specialize (Hpp Hpos). lra.
  - destruct (Qlt_le_dec (1 - attack) pos) as [U | U].
    + repeat split.
      * apply Qle_shift_div_l; [exact Ha | lra].
      * apply Qle_shift_div_r; [exact Ha | lra].
      * intros E. specialize (Hpz E). lra.
      * intros _. apply Qlt_shift_div_l; [exact Ha | lra].
    + repeat split; try discriminate; try reflexivity.
      intros E. specialize (Hpz E). lra.
Qed.

Lemma envelope_bounds_witness :
  0 <= Synth.computeEnvelope 6000 6174 /\ Synth.computeEnvelope 6000 6174 <= 1.
Proof.
  destruct (envelope_bounds 6000 6174) as (H0 & H1 & _); [lia | lia |].
  split; assumption.
Defined.

(** X5.  Whatever the character, its base frequency lies between 140 and
    260 Hz: a vowel reads 170 to 260 from the table, anything else gets
    [140 + (code mod 25) * 4], at most 236. *)
Theorem base_frequency_range :
  forall (lower : JS.jsstring -> JS.jsstring) (char : JS.jsstring),
    140 <= Synth.baseFreq lower char
    /\ Synth.baseFreq lower char <= 260
    /\ (Synth.isVowel lower char = true -> 170 <= Synth.baseFreq lower char)
    /\ (Synth.isVowel lower char = false -> Synth.baseFreq lower char <= 236).
Proof.
  intros lower char. unfold Synth.isVowel, Synth.inTable, Synth.baseFreq.
  destruct (Synth.lookup (Synth.toLowerCase lower char) Synth.VOWEL_FREQ) as [f |] eqn:E.
  - destruct (lookup_VOWEL_FREQ_range _ _ E) as [Hlo Hhi].
    repeat split; intros; try lra; discriminate.
  - set (m := (JS.charCodeAt0 (Synth.toLowerCase lower char) mod 25)%N).
    assert (0 <= inject_Z (Z.of_N m) /\ inject_Z (Z.of_N m) <= 24) as [H0 H24].
    { assert (m < 25)%N as Hm by (apply N.mod_lt; discriminate).
      split.
      - apply inject_Z_nonneg. lia.
      - change 24 with (inject_Z 24). rewrite <- Zle_Qle. lia. }
    revert H0 H24. generalize (inject_Z (Z.of_N m)). intros q H0 H24.
    repeat split; intros; try lra; discriminate.
Qed.

(** X6.  The synthesiser does not tell a capital Basic Latin letter from its
    small letter: both are the same vowel or consonant, with the same
    frequency and amplitude. *)
Theorem ascii_case_insensitive :
  forall (lower : JS.jsstring -> JS.jsstring) (emotion : EmotionPreset) (c : N),
    (65 <= c)%N -> (c <= 90)%N ->
    Synth.isVowel lower [c] = Synth.isVowel lower [(c + 32)%N]
    /\ Synth.baseFreq lower [c] = Synth.baseFreq lower [(c + 32)%N]
    /\ Synth.freq lower emotion [c] = Synth.freq lower emotion [(c + 32)%N]
    /\ Synth.amplitude lower emotion [c] = Synth.amplitude lower emotion [(c + 32)%N].
Proof.
  intros lower emotion c Hlo Hhi.
  assert (Synth.toLowerCase lower [c] = Synth.toLowerCase lower [(c + 32)%N]) as E.
  { unfold Synth.toLowerCase.
    replace ((65 <=? c) && (c <=? 90))%N with true
      by (symmetry; apply andb_true_iff; split; apply N.leb_le; assumption).
    replace ((65 <=? c + 32) && (c + 32 <=? 90))%N with false
      by (symmetry; apply andb_false_iff; right; apply N.leb_gt; lia).
    replace (c + 32 <? 128)%N with true by (symmetry; apply N.ltb_lt; lia).
    reflexivity. }
  unfold Synth.freq, Synth.amplitude, Synth.isVowel, Synth.baseFreq.
  rewrite E. repeat split.
Qed.

Lemma ascii_case_insensitive_witness :
  Synth.isVowel Examples.caseless [69%N] = Synth.isVowel Examples.caseless [101%N]
  /\ Synth.baseFreq Examples.caseless [69%N] = Synth.baseFreq Examples.caseless [101%N].
Proof.
  destruct (ascii_case_insensitive Examples.caseless Examples.defaultProfile 69%N)
    as (Hv & Hb & _); [discriminate | discriminate |].
  split; assumption.
Defined.

(** X7.  Raising the pitch shift by twelve semitones doubles the frequency of
    every character. *)
Theorem octave_doubles_frequency :
  forall (lower : JS.jsstring -> JS.jsstring) (e1 e2 : EmotionPreset) (char : JS.jsstring),
    pitchShift e2 == pitchShift e1 + 12 ->
    Synth.freq lower e2 char = (2 * Synth.freq lower e1 char)%R.
Proof.
  intros lower e1 e2 char E. unfold Synth.freq.
  rewrite !Math_pow_pos_base by lra.
  replace (Q2R (pitchShift e2 / 12)) with (Q2R (pitchShift e1 / 12) + 1)%R.
  - rewrite Rpower_plus, Rpower_1 by lra. ring.
  - rewrite <- RMicromega.Q2R_1, <- Q2R_plus. apply Qeq_eqR. rewrite E. field.
Qed.

Lemma octave_doubles_frequency_witness :
  Synth.freq Examples.caseless (Examples.profile 1 6 1 1 0) (JS.fromAscii "o")
  = (2 * Synth.freq Examples.caseless (Examples.profile 1 (-6) 1 1 0) (JS.fromAscii "o"))%R.
Proof.
  apply octave_doubles_frequency. reflexivity.
Defined.

(** X8.  The duration of a clip depends on the profile through the clamped
    tempo only: for a text of [n] code units it lies between
    [n * 0.14 / 1.45 + 0.28] and [n * 0.14 / 0.65 + 0.28] seconds, grows
    with the length of the text and does not grow with the tempo. *)
Theorem duration_bounds_and_monotonicity :
  forall (e : EmotionPreset) (n : Z),
    (0 <= n)%Z ->
    inject_Z n * (0.14 / 1.45) + 0.28 <= Synth.totalDuration e n
    /\ Synth.totalDuration e n <= inject_Z n * (0.14 / 0.65) + 0.28
    /\ (forall m, (n < m)%Z -> Synth.totalDuration e n < Synth.totalDuration e m)
    /\ (forall e', tempoMultiplier e <= tempoMultiplier e' ->
                   Synth.totalDuration e' n <= Synth.totalDuration e n).
Proof.
  intros e n Hn.
  destruct (tempo_bounds e) as [Hlo Hhi].
  assert (0 <= inject_Z n) as Hq by (now apply inject_Z_nonneg).
  assert (0.14 / 1.45 <= Synth.charDuration e) as Hd1.
  { unfold Synth.charDuration, Synth.BASE_CHAR_DURATION.
    apply Qdiv_antitone; [discriminate | | exact Hhi].
    eapply Qlt_le_trans; [| exact Hlo]. reflexivity. }
  assert (Synth.charDuration e <= 0.14 / 0.65) as Hd2.
  { unfold Synth.charDuration, Synth.BASE_CHAR_DURATION.
    apply Qdiv_antitone; [discriminate | reflexivity | exact Hlo]. }
  unfold Synth.totalDuration, Synth.SILENCE_PADDING.
  split; [| split; [| split]].
  - revert Hd1. generalize (Synth.charDuration e). intros d Hd1. nra.
  - revert Hd2. generalize (Synth.charDuration e). intros d Hd2. nra.
  - intros m Hm. pose proof (charDuration_pos e) as Hpos.
    assert (inject_Z n < inject_Z m) as Hnm by (now rewrite <- Zlt_Qlt).
    revert Hpos. generalize (Synth.charDuration e). intros d Hpos. nra.
  - intros e' Ht.
    assert (Synth.charDuration e' <= Synth.charDuration e) as Hd.
    { unfold Synth.charDuration, Synth.BASE_CHAR_DURATION.
      apply Qdiv_antitone; [discriminate | |].
      - eapply Qlt_le_trans; [| exact Hlo]. reflexivity.
      - unfold Synth.tempo. now apply clamp_mono. }
    revert Hd. generalize (Synth.charDuration e') (Synth.charDuration e).
    intros d' d Hd. nra.
Qed.

Lemma duration_bounds_and_monotonicity_witness :
  inject_Z 9 * (0.14 / 1.45) + 0.28 <= Synth.totalDuration Examples.wildProfile 9
  /\ Synth.totalDuration Examples.wildProfile 9 <= inject_Z 9 * (0.14 / 0.65) + 0.28.
Proof.
  destruct (duration_bounds_and_monotonicity Examples.wildProfile 9) as (H1 & H2 & _);
    [lia |].
  split; assumption.
Defined.

(** ** More on the transformer *)

(** X9.  The tone filter follows the sign of the brow lift: a high shelf at
    2800 Hz that never cuts when it is not negative, a low shelf at 180 Hz
    that always cuts when it is; the shelf gain is 18 dB per unit of brow
    lift either way. *)
Theorem shelf_follows_brow_lift :
  forall (decoded : AudioBuffer.t) (e : EmotionPreset),
    WebAudio.filterGain (Transformer.offlineGraph decoded e) = browLift e * 18
    /\ ((0 <= browLift e
         /\ WebAudio.filterType (Transformer.offlineGraph decoded e) = WebAudio.highshelf
         /\ WebAudio.filterFrequency (Transformer.offlineGraph decoded e) = 2800
         /\ 0 <= WebAudio.filterGain (Transformer.offlineGraph decoded e))
        \/ (browLift e < 0
            /\ WebAudio.filterType (Transformer.offlineGraph decoded e) = WebAudio.lowshelf
            /\ WebAudio.filterFrequency (Transformer.offlineGraph decoded e) = 180
            /\ WebAudio.filterGain (Transformer.offlineGraph decoded e) < 0)).
Proof.
  intros decoded e. split; [reflexivity |].
  cbn [Transformer.offlineGraph WebAudio.filterType WebAudio.filterFrequency
       WebAudio.filterGain].
  destruct (Qle_bool 0 (browLift e)) eqn:E.
  - left. apply Qle_bool_iff in E. repeat split; try assumption. nra.
  - right.
    assert (browLift e < 0) as H.
    { apply Qnot_le_lt. intros H. apply Qle_bool_iff in H. congruence. }
    repeat split; try assumption. nra.
Qed.



(** ** More on the playback session *)

Section SessionShape.
Import JS WebAudio Transformer Engine EngineShape.
Local Open Scope engine_scope.

Variable browser : Browser.

(** A property kept by the state changes the operations are made of is kept
    by every event. *)
Lemma keeps_step (P : State -> Prop) :
  (forall ctx s, P s -> P (setContext ctx s)) ->
  (forall s, P s -> P (stop s)) ->
  (forall src s, P s -> P (setSource src s)) ->
  (forall s, P s -> P (startAnalyserLoop s)) ->
  (forall c s, P s -> P (setLastClip c s)) ->
  (forall b s, P s -> P (setIsBusy b s)) ->
  (forall d s, P s -> P (animationFrame d s)) ->
  (forall s, P s -> P (sourceEnded s)) ->
  (forall s, P s -> P (closeContext s)) ->
  forall s ev, P s -> P (step browser s ev).
Proof.
  intros Hctx Hstop Hsrc Hstart Hlast Hbusy Hframe Hended Hclose s ev H.
  assert (forall resumed clip, keeps P (playClip browser resumed clip)) as Hplay
    by (intros; now apply keeps_playClip).
  destruct ev; simpl.
  - unfold speakText.
    apply keeps_bind; [now apply keeps_ensureContext | | exact H].
    intros [ctx |]; [| apply keeps_ret].
    apply keeps_bind; [apply keeps_modify, Hbusy | intros _].
    apply keeps_tryFinally; [| apply Hbusy].
    apply keeps_bind; [apply keeps_await | intros clip].
    apply keeps_bind; [apply Hplay | intros _; apply keeps_ret].
  - unfold playFile.
    apply keeps_bind; [now apply keeps_ensureContext | | exact H].
    intros [ctx |]; [| apply keeps_ret].
    apply keeps_bind; [apply keeps_modify, Hbusy | intros _].
    apply keeps_tryFinally; [| apply Hbusy].
    apply keeps_bind; [apply keeps_await | intros clip].
    apply keeps_bind; [apply Hplay | intros _; apply keeps_ret].
  - unfold replay.
    apply keeps_bind; [apply keeps_gets | | exact H].
    intros [c |]; [| apply keeps_ret].
    apply keeps_bind; [apply Hplay | intros _; apply keeps_ret].
  - now apply Hstop.
  - now apply Hframe.
  - now apply Hended.
  - unfold unmount. apply Hstop in H.
    destruct (audioRef (stop s)); [now apply Hclose | exact H].
Qed.

Lemma keeps_run (P : State -> Prop) :
  (forall s ev, P s -> P (step browser s ev)) ->
  forall events s, P s -> P (run browser events s).
Proof.
  intros Hstep events. unfold run.
  induction events as [| ev rest IH]; intros s H; simpl; [exact H |].
  apply IH, Hstep, H.
Qed.

(** A property that does not look at the animation-frame bookkeeping or at
    the amplitude log is kept by [animationFrame]. *)
Lemma animationFrame_fold (P : State -> Prop) (d : nat -> R) (s : State) :
  (forall l n s', P s' -> P (setScheduled l n s')) ->
  (forall a s', P s' -> P (tick a d s')) ->
  P s -> P (animationFrame d s).
Proof.
  intros Hsched Htick H. unfold animationFrame.
  assert (P (setScheduled [] (nextFrameHandle s) s)) as H0 by now apply Hsched.
  revert H0. generalize (setScheduled [] (nextFrameHandle s) s).
  induction (scheduledFrames s) as [| h rest IH]; intros s0 H0; simpl; [exact H0 |].
  apply IH. destruct (analyserRef s0); [now apply Htick | exact H0].
Qed.

(** What the loop and source bookkeeping leaves alone. *)
Lemma cancelAnalyser_frame (s : State) :
  audioRef (cancelAnalyser s) = audioRef s
  /\ analyserRef (cancelAnalyser s) = analyserRef s
  /\ gainRef (cancelAnalyser s) = gainRef s
  /\ sourceRef (cancelAnalyser s) = sourceRef s
  /\ lastClipRef (cancelAnalyser s) = lastClipRef s
  /\ lastClipState (cancelAnalyser s) = lastClipState s
  /\ amplitudeLog (cancelAnalyser s) = amplitudeLog s.
Proof.
  unfold cancelAnalyser. destruct (rafRef s =? 0)%N; repeat split.
Qed.

Lemma stop_frame (s : State) :
  audioRef (stop s) = audioRef s
  /\ analyserRef (stop s) = analyserRef s
  /\ gainRef (stop s) = gainRef s
  /\ sourceRef (stop s) = None
  /\ lastClipRef (stop s) = lastClipRef s
  /\ lastClipState (stop s) = lastClipState s.
Proof.
  destruct (cancelAnalyser_frame s) as (H1 & H2 & H3 & H4 & H5 & H6 & _).
  unfold stop.
  destruct (sourceRef (onAmplitude 0 (cancelAnalyser s))) eqn:E; simpl;
    repeat split; assumption.
Qed.

Lemma startAnalyserLoop_frame (s : State) :
  audioRef (startAnalyserLoop s) = audioRef s
  /\ analyserRef (startAnalyserLoop s) = analyserRef s
  /\ gainRef (startAnalyserLoop s) = gainRef s
  /\ sourceRef (startAnalyserLoop s) = sourceRef s
  /\ lastClipRef (startAnalyserLoop s) = lastClipRef s
  /\ lastClipState (startAnalyserLoop s) = lastClipState s
  /\ amplitudeLog (startAnalyserLoop s) = amplitudeLog s.
Proof.
  destruct (cancelAnalyser_frame s) as (H1 & H2 & H3 & H4 & H5 & H6 & H7).
  unfold startAnalyserLoop.
  destruct (analyserRef s) eqn:E; simpl; repeat split; assumption.
Qed.

Lemma sourceEnded_frame (s : State) :
  audioRef (sourceEnded s) = audioRef s
  /\ analyserRef (sourceEnded s) = analyserRef s
  /\ gainRef (sourceEnded s) = gainRef s
  /\ sourceRef (sourceEnded s) = sourceRef s
  /\ lastClipRef (sourceEnded s) = lastClipRef s
  /\ lastClipState (sourceEnded s) = lastClipState s.
Proof.
  destruct (cancelAnalyser_frame s) as (H1 & H2 & H3 & H4 & H5 & H6 & _).
  unfold sourceEnded. simpl. repeat split; assumption.
Qed.

Lemma wired_step (s : State) (ev : Event) : wired s -> wired (step browser s ev).
Proof.
  apply keeps_step; clear s ev; unfold wired.
  - intros ctx s _ _. simpl. split; discriminate.
  - intros s H. destruct (stop_frame s) as (-> & -> & -> & _). exact H.
  - intros src s H. exact H.
  - intros s H. destruct (startAnalyserLoop_frame s) as (-> & -> & -> & _). exact H.
  - intros c s H. exact H.
  - intros b s H. exact H.
  - intros d s H. apply (animationFrame_fold (fun s => audioRef s <> None ->
                            gainRef s <> None /\ analyserRef s <> None)).
    + intros l n s' H'. exact H'.
    + intros a s' H'. exact H'.
    + exact H.
  - intros s H. destruct (sourceEnded_frame s) as (-> & -> & -> & _). exact H.
  - intros s _ N. simpl in N. contradiction.
Qed.

Lemma wired_reachable (events : list Event) : wired (run browser events initial).
Proof.
  apply keeps_run; [apply wired_step |].
  intros N. simpl in N. contradiction.
Qed.

Lemma published_step (s : State) (ev : Event) :
  published s -> published (step browser s ev).
Proof.
  apply keeps_step; clear s ev; unfold published.
  - intros ctx s H. exact H.
  - intros s H. destruct (stop_frame s) as (_ & _ & _ & _ & -> & ->). exact H.
  - intros src s H. exact H.
  - intros s H.
    destruct (startAnalyserLoop_frame s) as (_ & _ & _ & _ & -> & -> & _). exact H.
  - intros c s _. reflexivity.
  - intros b s H. exact H.
  - intros d s H. apply (animationFrame_fold (fun s => lastClipState s = lastClipRef s)).
    + intros l n s' H'. exact H'.
    + intros a s' H'. exact H'.
    + exact H.
  - intros s H. destruct (sourceEnded_frame s) as (_ & _ & _ & _ & -> & ->). exact H.
  - intros s H. exact H.
Qed.

Lemma mapAmplitude_range (rms : R) : (0 <= mapAmplitude rms <= 1)%R.
Proof. unfold mapAmplitude. apply clampR_bounds. lra. Qed.

Lemma levelled_onAmplitude (v : R) (s : State) :
  (0 <= v <= 1)%R -> levelled s -> levelled (onAmplitude v s).
Proof.
  intros Hv H. unfold levelled in *. simpl.
  apply Forall_app. split; [exact H |]. constructor; [exact Hv | constructor].
Qed.

Lemma levelled_step (s : State) (ev : Event) :
  levelled s -> levelled (step browser s ev).
Proof.
  assert (forall s, levelled s -> levelled (cancelAnalyser s)) as Hcancel.
  { intros s0 H. unfold cancelAnalyser. destruct (rafRef s0 =? 0)%N; exact H. }
  assert (forall s, levelled s -> levelled (onAmplitude 0 (cancelAnalyser s))) as Hzero.
  { intros s0 H. apply levelled_onAmplitude; [lra | now apply Hcancel]. }
  apply keeps_step; clear s ev.
  - intros ctx s H. exact H.
  - intros s H. unfold stop. apply Hzero in H.
    destruct (sourceRef _); exact H.
  - intros src s H. exact H.
  - intros s H. unfold startAnalyserLoop. destruct (analyserRef s); [| exact H].
    apply Hcancel in H. exact H.
  - intros c s H. exact H.
  - intros b s H. exact H.
  - intros d s H. apply animationFrame_fold.
    + intros l n s' H'. exact H'.
    + intros a s' H'. unfold tick.
      exact (levelled_onAmplitude _ s' (mapAmplitude_range _) H').
    + exact H.
  - intros s H. unfold sourceEnded. apply Hzero in H. exact H.
  - intros s H. exact H.
Qed.

End SessionShape.

(** X11.  Every value the engine ever passes to the amplitude callback lies
    in [0, 1], whatever is spoken, played, stopped or analysed. *)
Theorem reported_amplitudes_in_unit_interval :
  forall (browser : Engine.Browser) (events : list Engine.Event),
    Forall (fun v => (0 <= v <= 1)%R)
           (Engine.amplitudeLog (Engine.run browser events Engine.initial)).
Proof.
  intros browser events.
  apply (keeps_run browser EngineShape.levelled (levelled_step browser)).
  constructor.
Qed.

(** X12.  The browser never holds more than one pending [tick], so an
    animation frame passes at most one value to the amplitude callback, and
    the clip published as [lastClip] is always the one [replay] would
    play. *)
Theorem one_analyser_loop_at_most :
  forall (browser : Engine.Browser) (events : list Engine.Event)
         (dataArray : nat -> R),
    (List.length (Engine.scheduledFrames (Engine.run browser events Engine.initial))
     <= 1)%nat
    /\ (List.length
          (Engine.amplitudeLog
             (Engine.animationFrame dataArray (Engine.run browser events Engine.initial)))
        <= List.length (Engine.amplitudeLog (Engine.run browser events Engine.initial)) + 1)%nat
    /\ Engine.lastClipState (Engine.run browser events Engine.initial)
       = Engine.lastClipRef (Engine.run browser events Engine.initial).
Proof.
  intros browser events dataArray.
  pose proof (loopConsistent_reachable browser events) as H.
  destruct (animationFrame_spec dataArray _ H) as (_ & Hidle & Hrun).
  destruct H as (Hs & _).
  split; [| split].
  - rewrite Hs. destruct (Engine.rafRef _ =? 0)%N; simpl; lia.
  - destruct (N.eq_dec (Engine.rafRef (Engine.run browser events Engine.initial)) 0)
      as [E | N].
    + destruct (Hidle E) as [-> _]. lia.
    + rewrite (Hrun N), length_app. simpl. lia.
  - apply (keeps_run browser EngineShape.published (published_step browser)).
    reflexivity.
Qed.

(** ** Calls, one by one *)

Section Calls.
Import JS WebAudio Transformer Engine EngineShape.
Local Open Scope engine_scope.

Variable browser : Browser.

Lemma ensureContext_held (s : State) (ctx : AudioContext) :
  windowDefined browser = true -> audioRef s = Some ctx ->
  ensureContext browser s = (Return (Some ctx), s).
Proof.
  intros Hw Hs. unfold ensureContext, bind, gets. rewrite Hw. simpl.
  rewrite Hs. reflexivity.
Qed.

Lemma ensureContext_made (s : State) (ctx : AudioContext) :
  windowDefined browser = true -> audioRef s = None ->
  AudioContextCtor browser = Some ctx ->
  ensureContext browser s = (Return (Some ctx), setContext ctx s).
Proof.
  intros Hw Hs Hc. unfold ensureContext, bind, gets. rewrite Hw. simpl.
  rewrite Hs, Hc. reflexivity.
Qed.

Lemma ensureContext_unsupported (s : State) :
  windowDefined browser = true -> audioRef s = None ->
  AudioContextCtor browser = None ->
  ensureContext browser s
  = (Throw (Error "Web Audio API not supported in this browser."), s).
Proof.
  intros Hw Hs Hc. unfold ensureContext, bind, gets. rewrite Hw. simpl.
  rewrite Hs, Hc. reflexivity.
Qed.

Lemma ensureContext_no_window (s : State) :
  windowDefined browser = false -> ensureContext browser s = (Return None, s).
Proof. intros Hw. unfold ensureContext. rewrite Hw. reflexivity. Qed.

(** [playClip] on a hook that holds its context and gain node. *)
Lemma playClip_resumed (c : LipSyncClip) (s : State) (ctx : AudioContext) (g : Q) :
  windowDefined browser = true -> audioRef s = Some ctx -> gainRef s = Some g ->
  playClip browser (Return tt) (Some c) s
  = (Return (Some c),
     setLastClip c (startAnalyserLoop (setSource (Some (buffer c)) (stop s)))).
Proof.
  intros Hw Hs Hg. unfold playClip, bind.
  rewrite (ensureContext_held s ctx Hw Hs). unfold gets. rewrite Hg. reflexivity.
Qed.

Lemma playClip_rejected (c : LipSyncClip) (s : State) (ctx : AudioContext) (g : Q)
    (e : exn) :
  windowDefined browser = true -> audioRef s = Some ctx -> gainRef s = Some g ->
  playClip browser (Throw e) (Some c) s = (Throw e, stop s).
Proof.
  intros Hw Hs Hg. unfold playClip, bind.
  rewrite (ensureContext_held s ctx Hw Hs). unfold gets. rewrite Hg. reflexivity.
Qed.

(** A loop that is started is running, with its one [tick] pending. *)
Lemma startAnalyserLoop_running (s : State) :
  loopConsistent s -> analyserRef s <> None ->
  rafRef (startAnalyserLoop s) <> 0%N
  /\ scheduledFrames (startAnalyserLoop s) = [rafRef (startAnalyserLoop s)].
Proof.
  intros H Ha.
  pose proof (loopConsistent_startAnalyserLoop s H) as (Hs & _).
  assert (rafRef (startAnalyserLoop s) <> 0%N) as Hr.
  { destruct (cancelAnalyser_spec s H) as (_ & _ & Hn & _).
    destruct H as (_ & Hlt & _).
    unfold startAnalyserLoop. destruct (analyserRef s); [| contradiction].
    simpl. lia. }
  split; [exact Hr |].
  rewrite Hs. apply N.eqb_neq in Hr. now rewrite Hr.
Qed.

(** What a clip that starts playing leaves behind. *)
Lemma playing_state (c : LipSyncClip) (s : State) :
  loopConsistent s -> analyserRef s <> None ->
  let s' := setLastClip c (startAnalyserLoop (setSource (Some (buffer c)) (stop s))) in
  lastClipRef s' = Some c
  /\ lastClipState s' = Some c
  /\ sourceRef s' = Some (buffer c)
  /\ rafRef s' <> 0%N
  /\ scheduledFrames s' = [rafRef s']
  /\ amplitudeLog s' = amplitudeLog s ++ [0%R]
  /\ isBusy s' = isBusy s.
Proof.
  intros H Ha s'. subst s'.
  remember (setSource (Some (buffer c)) (stop s)) as s1 eqn:Es1.
  assert (loopConsistent s1) as H1
    by (subst s1; apply loopConsistent_setSource, loopConsistent_stop, H).
  assert (analyserRef s1 = analyserRef s) as Ea1.
  { subst s1. cbn [analyserRef setSource]. now destruct (stop_frame s) as (_ & -> & _). }
  assert (sourceRef s1 = Some (buffer c)) as Es by (subst s1; reflexivity).
  assert (amplitudeLog s1 = amplitudeLog s ++ [0%R]) as El.
  { subst s1. cbn [amplitudeLog setSource]. now destruct (stop_spec s H) as (_ & _ & ->). }
  assert (isBusy s1 = isBusy s) as Eb.
  { subst s1. cbn [isBusy setSource]. now apply busy_stop. }
  clear Es1.
  destruct (startAnalyserLoop_running s1 H1) as (Hr & Hq); [now rewrite Ea1 |].
  destruct (startAnalyserLoop_frame s1) as (_ & _ & _ & Hsrc & _ & _ & Hlog).
  pose proof (busy_startAnalyserLoop (isBusy s1) s1 eq_refl) as Hb.
  revert Hr Hq Hsrc Hlog Hb. generalize (startAnalyserLoop s1). intros s2 Hr Hq Hsrc Hlog Hb.
  cbn [lastClipRef lastClipState sourceRef rafRef scheduledFrames amplitudeLog isBusy
       setLastClip].
  repeat split; try assumption; congruence.
Qed.

End Calls.

Section CallFacts.
Import JS WebAudio Transformer Engine EngineShape.
Local Open Scope engine_scope.

Variable browser : Browser.

(** The state in which a call finds the hook once [ensureContext] has
    returned a context, in a state the hook can reach. *)
Lemma context_ready (s : State) (ctx : AudioContext) :
  loopConsistent s -> wired s ->
  windowDefined browser = true ->
  audioRef s = Some ctx \/ (audioRef s = None /\ AudioContextCtor browser = Some ctx) ->
  exists s1 g,
    ensureContext browser s = (Return (Some ctx), s1)
    /\ audioRef s1 = Some ctx /\ gainRef s1 = Some g /\ analyserRef s1 <> None
    /\ loopConsistent s1
    /\ amplitudeLog s1 = amplitudeLog s /\ lastClipRef s1 = lastClipRef s
    /\ lastClipState s1 = lastClipState s /\ sourceRef s1 = sourceRef s
    /\ rafRef s1 = rafRef s /\ scheduledFrames s1 = scheduledFrames s
    /\ endedCount s1 = endedCount s.
Proof.
  intros Hloop Hwired Hw [Hs | [Hs Hc]].
  - destruct Hwired as [Hg Ha]; [rewrite Hs; discriminate |].
    destruct (gainRef s) as [g |] eqn:Eg; [| contradiction].
    exists s, g. rewrite (ensureContext_held browser s ctx Hw Hs).
    repeat match goal with |- _ /\ _ => split end;
      try reflexivity; assumption.
  - exists (setContext ctx s), 0.95.
    rewrite (ensureContext_made browser s ctx Hw Hs Hc).
    repeat match goal with |- _ /\ _ => split end;
      try reflexivity; try discriminate.
    now apply loopConsistent_setContext.
Qed.

Lemma speakText_with (s s1 : State) (ctx : AudioContext) (text : jsstring)
    (emotion : EmotionPreset) (random : nat -> Q) (resumed : completion unit) :
  ensureContext browser s = (Return (Some ctx), s1) ->
  speakText browser text emotion random resumed s
  = (let r := bind (await (Synth.synthesiseText (unicodeLower browser) ctx text
                             emotion random))
                   (fun clip => bind (playClip browser resumed clip) (fun _ => ret clip))
                   (setIsBusy true s1) in
     (fst r, setIsBusy false (snd r))).
Proof. intros E. unfold speakText, bind at 1. rewrite E. reflexivity. Qed.

Lemma playFile_with (s s1 : State) (ctx : AudioContext) (file : File)
    (emotion : EmotionPreset) (resumed : completion unit) :
  ensureContext browser s = (Return (Some ctx), s1) ->
  playFile browser file emotion resumed s
  = (let r := bind (await (transformBufferWithEmotion (rendered browser) file ctx emotion))
                   (fun clip => bind (playClip browser resumed clip) (fun _ => ret clip))
                   (setIsBusy true s1) in
     (fst r, setIsBusy false (snd r))).
Proof. intros E. unfold playFile, bind at 1. rewrite E. reflexivity. Qed.

End CallFacts.

(** X13.  Asked to speak a text of white space only, [speakText] returns
    [null] and plays nothing: it does not stop the clip that is playing, does
    not touch the analyser loop, reports no amplitude and keeps the last
    clip; it only lowers the busy flag. *)
Theorem blank_text_plays_nothing :
  forall (browser : Engine.Browser) (events : list Engine.Event)
         (text : JS.jsstring) (emotion : EmotionPreset) (random : nat -> Q)
         (resumed : JS.completion unit) (ctx : WebAudio.AudioContext),
    let s := Engine.run browser events Engine.initial in
    let r := Engine.speakText browser text emotion random resumed s in
    forallb JS.isWhiteSpace text = true ->
    Engine.windowDefined browser = true ->
    Engine.audioRef s = Some ctx
    \/ (Engine.audioRef s = None /\ Engine.AudioContextCtor browser = Some ctx) ->
    fst r = JS.Return None
    /\ Engine.sourceRef (snd r) = Engine.sourceRef s
    /\ Engine.rafRef (snd r) = Engine.rafRef s
    /\ Engine.scheduledFrames (snd r) = Engine.scheduledFrames s
    /\ Engine.amplitudeLog (snd r) = Engine.amplitudeLog s
    /\ Engine.lastClipRef (snd r) = Engine.lastClipRef s
    /\ Engine.endedCount (snd r) = Engine.endedCount s
    /\ Engine.isBusy (snd r) = false.
Proof.
  intros browser events text emotion random resumed ctx s r Hblank Hw Hctx.
  destruct (context_ready browser s ctx (loopConsistent_reachable browser events)
              (wired_reachable browser events) Hw Hctx)
    as (s1 & g & E & _ & _ & _ & _ & Hlog & Hlast & _ & Hsrc & Hraf & Hq & Hend).
  subst r. rewrite (speakText_with browser s s1 ctx text emotion random resumed E).
  assert (Synth.synthesiseText (Engine.unicodeLower browser) ctx text emotion random
          = JS.Return None) as Hnull.
  { apply synthesiseText_null_iff. now apply normalise_nil_iff. }
  unfold Engine.bind, Engine.await. rewrite Hnull. simpl.
  repeat split; assumption.
Qed.

Lemma blank_text_plays_nothing_witness :
  fst (Engine.speakText (Examples.browserWith Examples.decodingContext)
         (JS.fromAscii "   ") Examples.defaultProfile Examples.halves (JS.Return tt)
         (Engine.run (Examples.browserWith Examples.decodingContext) [] Engine.initial))
  = JS.Return None.
Proof.
  refine (proj1 (blank_text_plays_nothing (Examples.browserWith Examples.decodingContext)
                   [] (JS.fromAscii "   ") Examples.defaultProfile Examples.halves
                   (JS.Return tt) Examples.decodingContext _ _ _)).
  - reflexivity.
  - reflexivity.
  - right. split; reflexivity.
Defined.

(** X14.  A request to speak a text with something to say, in a browser whose
    context resumes, returns the synthesised clip and leaves it playing: the
    clip is the last clip, its buffer is the current source, exactly one
    [tick] is pending, one [0] was reported when the previous playback was
    stopped, and the busy flag is down. *)
Theorem speaking_starts_playback :
  forall (browser : Engine.Browser) (events : list Engine.Event)
         (text : JS.jsstring) (emotion : EmotionPreset) (random : nat -> Q)
         (ctx : WebAudio.AudioContext),
    let s := Engine.run browser events Engine.initial in
    let r := Engine.speakText browser text emotion random (JS.Return tt) s in
    Engine.windowDefined browser = true ->
    Engine.audioRef s = Some ctx
    \/ (Engine.audioRef s = None /\ Engine.AudioContextCtor browser = Some ctx) ->
    Synth.normalise text <> [] ->
    0 < Synth.rateOf ctx ->
    exists clip,
      Synth.synthesiseText (Engine.unicodeLower browser) ctx text emotion random
      = JS.Return (Some clip)
      /\ fst r = JS.Return (Some clip)
      /\ Engine.lastClipRef (snd r) = Some clip
      /\ Engine.lastClipState (snd r) = Some clip
      /\ Engine.sourceRef (snd r) = Some (buffer clip)
      /\ Engine.rafRef (snd r) <> 0%N
      /\ Engine.scheduledFrames (snd r) = [Engine.rafRef (snd r)]
      /\ Engine.amplitudeLog (snd r) = Engine.amplitudeLog s ++ [0%R]
      /\ Engine.isBusy (snd r) = false.
Proof.
  intros browser events text emotion random ctx s r Hw Hctx Hne Hrate.
  destruct (context_ready browser s ctx (loopConsistent_reachable browser events)
              (wired_reachable browser events) Hw Hctx)
    as (s1 & g & E & Haudio & Hgain & Han & Hloop & Hlog & _).
  destruct (synthesiseText_returns (Engine.unicodeLower browser) ctx text emotion random
              Hne Hrate) as (clip & Hsynth & _).
  exists clip. split; [exact Hsynth |].
  subst r. rewrite (speakText_with browser s s1 ctx text emotion random (JS.Return tt) E).
  unfold Engine.bind at 1, Engine.await. rewrite Hsynth.
  unfold Engine.bind.
  rewrite (playClip_resumed browser clip (Engine.setIsBusy true s1) ctx g Hw Haudio Hgain).
  cbn [fst snd Engine.ret].
  destruct (playing_state clip (Engine.setIsBusy true s1)) as (H1 & H2 & H3 & H4 & H5 & H6 & _);
    [exact Hloop | exact Han |].
  cbn [Engine.lastClipRef Engine.lastClipState Engine.sourceRef Engine.rafRef
       Engine.scheduledFrames Engine.amplitudeLog Engine.isBusy Engine.setIsBusy] in *.
  rewrite Hlog in H6.
  repeat split; assumption.
Qed.

Lemma speaking_starts_playback_witness :
  exists clip,
    fst (Engine.speakText (Examples.browserWith Examples.decodingContext)
           (JS.fromAscii "Hi") Examples.defaultProfile Examples.halves (JS.Return tt)
           (Engine.run (Examples.browserWith Examples.decodingContext) [] Engine.initial))
    = JS.Return (Some clip).
Proof.
  destruct (speaking_starts_playback (Examples.browserWith Examples.decodingContext) []
              (JS.fromAscii "Hi") Examples.defaultProfile Examples.halves
              Examples.decodingContext) as (clip & _ & H & _).
  - reflexivity.
  - right. split; reflexivity.
  - vm_compute. discriminate.
  - reflexivity.
  - exists clip. exact H.
Defined.



(** X16.  When [context.resume()] rejects, the request rejects with the same
    reason after the previous playback has been stopped: no source is left,
    no [tick] is pending, one [0] was reported, the new clip is not stored
    as last clip, and the busy flag is down. *)
Theorem rejected_resume_stops_playback :
  forall (browser : Engine.Browser) (events : list Engine.Event)
         (text : JS.jsstring) (emotion : EmotionPreset) (random : nat -> Q)
         (ctx : WebAudio.AudioContext) (e : JS.exn),
    let s := Engine.run browser events Engine.initial in
    let r := Engine.speakText browser text emotion random (JS.Throw e) s in
    Engine.windowDefined browser = true ->
    Engine.audioRef s = Some ctx
    \/ (Engine.audioRef s = None /\ Engine.AudioContextCtor browser = Some ctx) ->
    Synth.normalise text <> [] ->
    0 < Synth.rateOf ctx ->
    fst r = JS.Throw e
    /\ Engine.sourceRef (snd r) = None
    /\ Engine.rafRef (snd r) = 0%N
    /\ Engine.scheduledFrames (snd r) = []
    /\ Engine.amplitudeLog (snd r) = Engine.amplitudeLog s ++ [0%R]
    /\ Engine.lastClipRef (snd r) = Engine.lastClipRef s
    /\ Engine.isBusy (snd r) = false.
Proof.
  intros browser events text emotion random ctx e s r Hw Hctx Hne Hrate.
  destruct (context_ready browser s ctx (loopConsistent_reachable browser events)
              (wired_reachable browser events) Hw Hctx)
    as (s1 & g & E & Haudio & Hgain & Han & Hloop & Hlog & Hlast & _).
  destruct (synthesiseText_returns (Engine.unicodeLower browser) ctx text emotion random
              Hne Hrate) as (clip & Hsynth & _).
  subst r. rewrite (speakText_with browser s s1 ctx text emotion random (JS.Throw e) E).
  unfold Engine.bind at 1, Engine.await. rewrite Hsynth.
  unfold Engine.bind.
  rewrite (playClip_rejected browser clip (Engine.setIsBusy true s1) ctx g e
             Hw Haudio Hgain).
  cbn [fst snd].
  destruct (stop_spec (Engine.setIsBusy true s1) Hloop) as (Hr & Hq & Hl).
  destruct (stop_frame (Engine.setIsBusy true s1)) as (_ & _ & _ & Hsrc & Hl2 & _).
  cbn [Engine.lastClipRef Engine.sourceRef Engine.rafRef
       Engine.scheduledFrames Engine.amplitudeLog Engine.isBusy Engine.setIsBusy] in *.
  rewrite Hlog in Hl. rewrite Hlast in Hl2.
  repeat match goal with |- _ /\ _ => split end; try reflexivity; assumption.
Qed.

Lemma rejected_resume_stops_playback_witness :
  fst (Engine.speakText (Examples.browserWith Examples.decodingContext)
         (JS.fromAscii "Hi") Examples.defaultProfile Examples.halves
         (JS.Throw JS.InvalidStateError)
         (Engine.run (Examples.browserWith Examples.decodingContext) [] Engine.initial))
  = JS.Throw JS.InvalidStateError.
Proof.
  refine (proj1 (rejected_resume_stops_playback
                   (Examples.browserWith Examples.decodingContext) []
                   (JS.fromAscii "Hi") Examples.defaultProfile Examples.halves
                   Examples.decodingContext JS.InvalidStateError _ _ _ _)).
  - reflexivity.
  - right. split; reflexivity.
  - vm_compute. discriminate.
  - reflexivity.
Defined.

(** X17.  Without Web Audio the hook cannot work and says so: where the
    browser has neither [AudioContext] nor [webkitAudioContext], [speakText]
    and [playFile] throw "Web Audio API not supported in this browser." and
    change nothing; where there is no window at all, they return [null] and
    change nothing. *)
Theorem without_web_audio :
  forall (browser : Engine.Browser) (s : Engine.State)
         (text : JS.jsstring) (file : Transformer.File) (emotion : EmotionPreset)
         (random : nat -> Q) (resumed : JS.completion unit),
    (Engine.windowDefined browser = true ->
     Engine.audioRef s = None ->
     Engine.AudioContextCtor browser = None ->
     Engine.speakText browser text emotion random resumed s
     = (JS.Throw (JS.Error "Web Audio API not supported in this browser."), s)
     /\ Engine.playFile browser file emotion resumed s
        = (JS.Throw (JS.Error "Web Audio API not supported in this browser."), s))
    /\ (Engine.windowDefined browser = false ->
        Engine.speakText browser text emotion random resumed s = (JS.Return None, s)
        /\ Engine.playFile browser file emotion resumed s = (JS.Return None, s)).
Proof.
  intros browser s text file emotion random resumed. split.
  - intros Hw Hs Hc. unfold Engine.speakText, Engine.playFile, Engine.bind.
    rewrite (ensureContext_unsupported browser s Hw Hs Hc). split; reflexivity.
  - intros Hw. unfold Engine.speakText, Engine.playFile, Engine.bind.
    rewrite (ensureContext_no_window browser s Hw). split; reflexivity.
Qed.

Lemma without_web_audio_witness :
  Engine.speakText
    {| Engine.windowDefined := true; Engine.AudioContextCtor := None;
       Engine.rendered := Examples.silence; Engine.unicodeLower := Examples.caseless |}
    (JS.fromAscii "Hi") Examples.defaultProfile Examples.halves (JS.Return tt)
    Engine.initial
  = (JS.Throw (JS.Error "Web Audio API not supported in this browser."), Engine.initial).
Proof.
  refine (proj1 (proj1 (without_web_audio
                          {| Engine.windowDefined := true;
                             Engine.AudioContextCtor := None;
                             Engine.rendered := Examples.silence;
                             Engine.unicodeLower := Examples.caseless |}
                          Engine.initial (JS.fromAscii "Hi") Examples.upload
                          Examples.defaultProfile Examples.halves (JS.Return tt))
                       _ _ _)); reflexivity.
Defined.

(** X18.  Stopping leaves no source and no loop behind, so stopping once more
    changes nothing but the log: it reports another [0]. *)
Theorem stopping_twice :
  forall s : Engine.State,
    Engine.sourceRef (Engine.stop s) = None
    /\ Engine.rafRef (Engine.stop s) = 0%N
    /\ Engine.stop (Engine.stop s) = Engine.onAmplitude 0 (Engine.stop s).
Proof.
  intros s.
  assert (Engine.rafRef (Engine.stop s) = 0%N) as Hr.
  { unfold Engine.stop, Engine.cancelAnalyser.
    destruct (Engine.rafRef s =? 0)%N eqn:E.
    - apply N.eqb_eq in E. destruct (Engine.sourceRef _); exact E.
    - destruct (Engine.sourceRef _); reflexivity. }
  destruct (stop_frame s) as (_ & _ & _ & Hsrc & _).
  split; [exact Hsrc |]. split; [exact Hr |].
  revert Hr Hsrc. generalize (Engine.stop s). intros t Hr Hsrc.
  unfold Engine.stop, Engine.cancelAnalyser. rewrite Hr. simpl. rewrite Hsrc.
  reflexivity.
Qed.

(** X19.  Whenever the transform of an upload rejects, because the file
    cannot be read, its bytes cannot be decoded or the offline rendering
    fails, [playFile] rejects with the same reason and leaves the playback as
    it was: the current source, the analyser loop, the amplitude log and the
    last clip are untouched, and the busy flag is down. *)
Theorem failed_upload_keeps_playback :
  forall (browser : Engine.Browser) (events : list Engine.Event)
         (file : Transformer.File) (emotion : EmotionPreset)
         (resumed : JS.completion unit) (ctx : WebAudio.AudioContext) (e : JS.exn),
    let s := Engine.run browser events Engine.initial in
    let r := Engine.playFile browser file emotion resumed s in
    Engine.windowDefined browser = true ->
    Engine.audioRef s = Some ctx
    \/ (Engine.audioRef s = None /\ Engine.AudioContextCtor browser = Some ctx) ->
    Transformer.transformBufferWithEmotion (Engine.rendered browser) file ctx emotion
    = JS.Throw e ->
    fst r = JS.Throw e
    /\ Engine.sourceRef (snd r) = Engine.sourceRef s
    /\ Engine.rafRef (snd r) = Engine.rafRef s
    /\ Engine.scheduledFrames (snd r) = Engine.scheduledFrames s
    /\ Engine.amplitudeLog (snd r) = Engine.amplitudeLog s
    /\ Engine.lastClipRef (snd r) = Engine.lastClipRef s
    /\ Engine.isBusy (snd r) = false.
Proof.
  intros browser events file emotion resumed ctx e s r Hw Hctx Hthrow.
  destruct (context_ready browser s ctx (loopConsistent_reachable browser events)
              (wired_reachable browser events) Hw Hctx)
    as (s1 & g & E & _ & _ & _ & _ & Hlog & Hlast & _ & Hsrc & Hraf & Hq & _).
  subst r. rewrite (playFile_with browser s s1 ctx file emotion resumed E).
  unfold Engine.bind, Engine.await. rewrite Hthrow. simpl.
  repeat match goal with |- _ /\ _ => split end; try reflexivity; assumption.
Qed.

Lemma failed_upload_keeps_playback_witness :
  fst (Engine.playFile (Examples.browserWith Examples.decodingContext)
         {| Transformer.name := "gone.wav";
            Transformer.arrayBuffer := JS.Throw JS.NotReadableError |}
         Examples.defaultProfile (JS.Return tt)
         (Engine.run (Examples.browserWith Examples.decodingContext) [] Engine.initial))
  = JS.Throw JS.NotReadableError.
Proof.
  refine (proj1 (failed_upload_keeps_playback
                   (Examples.browserWith Examples.decodingContext) []
                   {| Transformer.name := "gone.wav";
                      Transformer.arrayBuffer := JS.Throw JS.NotReadableError |}
                   Examples.defaultProfile (JS.Return tt) Examples.decodingContext
                   JS.NotReadableError _ _ _)).
  - reflexivity.
  - right. split; reflexivity.
  - reflexivity.
Defined.

(** ** More on the amplitude extractor *)

Section Extractor.
Import Engine.

Lemma Rpower_one (y : R) : Rpower 1 y = 1%R.
Proof. unfold Rpower. rewrite ln_1, Rmult_0_r. apply exp_0. Qed.

Lemma sumSquares_fold (d : nat -> R) (l : list nat) (acc : R) :
  (forall i, In i l -> (-1 <= d i <= 1)%R) ->
  (acc <= fold_left (fun sum i => (sum + d i * d i)%R) l acc
   <= acc + INR (List.length l))%R.
Proof.
  revert acc. induction l as [| i rest IH]; intros acc H.
  - simpl. lra.
  - cbn [fold_left List.length]. rewrite S_INR.
    assert (0 <= d i * d i <= 1)%R as Hi.
    { specialize (H i (or_introl eq_refl)). nra. }
    specialize (IH (acc + d i * d i)%R (fun j Hj => H j (or_intror Hj))). lra.
Qed.

Lemma sumSquares_zero (d : nat -> R) (l : list nat) :
  (forall i, In i l -> d i = 0%R) ->
  fold_left (fun sum i => (sum + d i * d i)%R) l 0%R = 0%R.
Proof.
  induction l as [| i rest IH]; intros H; [reflexivity |].
  cbn [fold_left]. rewrite (H i (or_introl eq_refl)).
  replace (0 + 0 * 0)%R with 0%R by ring.
  apply IH. intros j Hj. apply H. now right.
Qed.

End Extractor.

(** X20.  Silence maps to excitation 0 and every window whose RMS reaches
    [1 / 4.2] saturates at 1; a quieter window that is not silent maps
    strictly between the two. *)
Theorem silence_and_saturation :
  (forall (dataArray : nat -> R) (bufferLength : nat),
      (forall i, (i < bufferLength)%nat -> dataArray i = 0%R) ->
      Engine.mapAmplitude (Engine.rmsOf dataArray bufferLength) = 0%R)
  /\ (forall rms : R, (1 / 4.2 <= rms)%R -> Engine.mapAmplitude rms = 1%R)
  /\ (forall rms : R, (0 < rms < 1 / 4.2)%R -> (0 < Engine.mapAmplitude rms < 1)%R).
Proof.
  split; [| split].
  - intros dataArray bufferLength Hz.
    unfold Engine.rmsOf, Engine.sumSquares.
    rewrite sumSquares_zero.
    + unfold Rdiv. rewrite Rmult_0_l, sqrt_0.
      unfold Engine.mapAmplitude, JS.clampR, JS.Math_pow.
      destruct (Req_dec_T (0 * 4.2) 0) as [_ | N]; [| exfalso; apply N; lra].
      destruct (Req_dec_T 1.2 0) as [E | _]; [lra |].
      rewrite Rmax_left by lra. apply Rmin_right. lra.
    + intros i Hi. apply Hz. apply in_seq in Hi. lia.
  - intros rms Hrms. unfold Engine.mapAmplitude, JS.clampR.
    rewrite Math_pow_pos_base by lra.
    assert (1 <= Rpower (rms * 4.2) 1.2)%R as Hp.
    { rewrite <- (Rpower_one 1.2). apply Rle_Rpower_l; lra. }
    rewrite Rmax_right by lra. apply Rmin_left. exact Hp.
  - intros rms [Hpos Hlt]. unfold Engine.mapAmplitude, JS.clampR.
    rewrite Math_pow_pos_base by lra.
    pose proof (Rpower_pos (rms * 4.2) 1.2) as Hp0.
    assert (Rpower (rms * 4.2) 1.2 < 1)%R as Hp1.
    { rewrite <- (Rpower_one 1.2). apply Rlt_Rpower_l; lra. }
    rewrite Rmax_right by lra. rewrite Rmin_right by lra. lra.
Qed.

Lemma silence_and_saturation_witness :
  Engine.mapAmplitude (Engine.rmsOf (fun _ => 0%R) 512) = 0%R
  /\ Engine.mapAmplitude (1 / 2) = 1%R.
Proof.
  destruct silence_and_saturation as (Hs & Hsat & _).
  split.
  - apply Hs. reflexivity.
  - apply Hsat. lra.
Defined.

(** X21.  Over a window of samples in [-1, 1] the RMS that [tick] computes
    lies in [0, 1]. *)
Theorem rms_of_bounded_window :
  forall (dataArray : nat -> R) (bufferLength : nat),
    (0 < bufferLength)%nat ->
    (forall i, (i < bufferLength)%nat -> (-1 <= dataArray i <= 1)%R) ->
    (0 <= Engine.sumSquares dataArray bufferLength <= INR bufferLength)%R
    /\ (0 <= Engine.rmsOf dataArray bufferLength <= 1)%R.
Proof.
  intros dataArray bufferLength Hn Hb.
  assert (0 <= Engine.sumSquares dataArray bufferLength <= INR bufferLength)%R as Hs.
  { unfold Engine.sumSquares.
    pose proof (sumSquares_fold dataArray (seq 0 bufferLength) 0) as H.
    rewrite length_seq in H. rewrite Rplus_0_l in H. apply H.
    intros i Hi. apply Hb. apply in_seq in Hi. lia. }
  split; [exact Hs |].
  assert (0 < INR bufferLength)%R as Hpos by (apply lt_0_INR; exact Hn).
  unfold Engine.rmsOf. split; [apply sqrt_pos |].
  rewrite <- sqrt_1. apply sqrt_le_1.
  - apply Rmult_le_pos; [lra | left; now apply Rinv_0_lt_compat].
  - lra.
  - apply Rmult_le_reg_r with (INR bufferLength); [exact Hpos |].
    unfold Rdiv. rewrite Rmult_assoc, Rinv_l by lra. lra.
Qed.

Lemma rms_of_bounded_window_witness :
  (0 <= Engine.rmsOf (fun _ => (1 / 2)%R) 512 <= 1)%R.
Proof.
  refine (proj2 (rms_of_bounded_window (fun _ => (1 / 2)%R) 512 _ _)).
  - lia.
  - intros i _. lra.
Defined.

(** ** The studio page *)

Section StudioFacts.
Import JS WebAudio Transformer Engine EngineShape.
Local Open Scope engine_scope.

Variable browser : Browser.

Lemma smoothed_range (values : list R) :
  Forall (fun v => (0 <= v <= 1)%R) values ->
  forall prev, (0 <= prev <= 1)%R -> (0 <= Studio.smoothed prev values <= 1)%R.
Proof.
  unfold Studio.smoothed.
  induction 1 as [| v rest Hv _ IH]; intros prev Hp; simpl; [exact Hp |].
  apply IH. unfold Studio.handleAmplitude. lra.
Qed.

Lemma smoothed_repeat (v : R) (n : nat) (prev : R) :
  Studio.smoothed prev (repeat v n) = (v + 0.68 ^ n * (prev - v))%R.
Proof.
  unfold Studio.smoothed. revert prev.
  induction n as [| n IH]; intros prev; cbn [repeat fold_left].
  - rewrite pow_O. ring.
  - rewrite IH, <- tech_pow_Rmult. unfold Studio.handleAmplitude.
    generalize (0.68 ^ n)%R. intros c. nra.
Qed.

Lemma Forall_skipn_kept {A} (P : A -> Prop) (n : nat) :
  forall l, Forall P l -> Forall P (skipn n l).
Proof.
  induction n as [| n IH]; intros l H; simpl; [exact H |].
  destruct l as [| x rest]; [constructor |].
  apply IH. now inversion H.
Qed.

Lemma reports_range (before after : State) :
  levelled after -> Forall (fun v => (0 <= v <= 1)%R) (Studio.reports before after).
Proof. intros H. unfold Studio.reports. now apply Forall_skipn_kept. Qed.

Lemma reports_app (before after : State) (l : list R) :
  amplitudeLog after = amplitudeLog before ++ l -> Studio.reports before after = l.
Proof.
  intros E. unfold Studio.reports.
  rewrite E, skipn_app, skipn_all, Nat.sub_diag. reflexivity.
Qed.

(** A property kept by the state changes the three requests are made of is
    kept by the requests. *)
Lemma keeps_calls (P : State -> Prop) :
  (forall ctx s, P s -> P (setContext ctx s)) ->
  (forall s, P s -> P (stop s)) ->
  (forall src s, P s -> P (setSource src s)) ->
  (forall s, P s -> P (startAnalyserLoop s)) ->
  (forall c s, P s -> P (setLastClip c s)) ->
  (forall b s, P s -> P (setIsBusy b s)) ->
  (forall text e random resumed, keeps P (speakText browser text e random resumed))
  /\ (forall file e resumed, keeps P (playFile browser file e resumed))
  /\ (forall resumed, keeps P (replay browser resumed)).
Proof.
  intros Hctx Hstop Hsrc Hstart Hlast Hbusy.
  assert (forall resumed clip, keeps P (playClip browser resumed clip)) as Hplay
    by (intros; now apply keeps_playClip).
  repeat split.
  - intros text e random resumed. unfold speakText.
    apply keeps_bind; [now apply keeps_ensureContext |].
    intros [ctx |]; [| apply keeps_ret].
    apply keeps_bind; [apply keeps_modify, Hbusy | intros _].
    apply keeps_tryFinally; [| apply Hbusy].
    apply keeps_bind; [apply keeps_await | intros clip].
    apply keeps_bind; [apply Hplay | intros _; apply keeps_ret].
  - intros file e resumed. unfold playFile.
    apply keeps_bind; [now apply keeps_ensureContext |].
    intros [ctx |]; [| apply keeps_ret].
    apply keeps_bind; [apply keeps_modify, Hbusy | intros _].
    apply keeps_tryFinally; [| apply Hbusy].
    apply keeps_bind; [apply keeps_await | intros clip].
    apply keeps_bind; [apply Hplay | intros _; apply keeps_ret].
  - intros resumed. unfold replay.
    apply keeps_bind; [apply keeps_gets |].
    intros [c |]; [| apply keeps_ret].
    apply keeps_bind; [apply Hplay | intros _; apply keeps_ret].
Qed.

(** Only the end of a source calls [onEnded]. *)
Lemma ended_stop (n : nat) (s : State) : endedCount s = n -> endedCount (stop s) = n.
Proof.
  intros H. unfold stop, cancelAnalyser.
  destruct (rafRef s =? 0)%N; simpl;
    match goal with |- context [match ?x with _ => _ end] => destruct x end; exact H.
Qed.

Lemma ended_startAnalyserLoop (n : nat) (s : State) :
  endedCount s = n -> endedCount (startAnalyserLoop s) = n.
Proof.
  intros H. unfold startAnalyserLoop, cancelAnalyser.
  destruct (analyserRef s); [| exact H].
  destruct (rafRef s =? 0)%N; exact H.
Qed.

Lemma ended_animationFrame (dataArray : nat -> R) (s : State) :
  endedCount (animationFrame dataArray s) = endedCount s.
Proof.
  apply (animationFrame_fold (fun s' => endedCount s' = endedCount s)).
  - intros l n s' H. exact H.
  - intros a s' H. exact H.
  - reflexivity.
Qed.

Lemma ended_calls (s : State) :
  (forall text e random resumed,
      endedCount (snd (speakText browser text e random resumed s)) = endedCount s)
  /\ (forall file e resumed,
         endedCount (snd (playFile browser file e resumed s)) = endedCount s)
  /\ (forall resumed, endedCount (snd (replay browser resumed s)) = endedCount s).
Proof.
  destruct (keeps_calls (fun s' => endedCount s' = endedCount s)) as (H1 & H2 & H3);
    auto using ended_stop, ended_startAnalyserLoop.
  repeat split; intros.
  - now apply H1.
  - now apply H2.
  - now apply H3.
Qed.

Lemma endedSince_same (before after : State) :
  endedCount after = endedCount before -> Studio.endedSince before after = false.
Proof. intros E. unfold Studio.endedSince. rewrite E. apply Nat.ltb_irrefl. Qed.

(** Where there is no window, the requests do nothing. *)
Lemma no_window_calls (s : State) :
  windowDefined browser = false ->
  (forall text e random resumed,
      speakText browser text e random resumed s = (Return None, s))
  /\ (forall file e resumed, playFile browser file e resumed s = (Return None, s))
  /\ (forall resumed, snd (replay browser resumed s) = s).
Proof.
  intros Hw. repeat split; intros.
  - unfold speakText, bind. now rewrite (ensureContext_no_window browser s Hw).
  - unfold playFile, bind. now rewrite (ensureContext_no_window browser s Hw).
  - unfold replay, bind, gets. destruct (lastClipRef s) as [c |]; [| reflexivity].
    unfold playClip, bind. rewrite (ensureContext_no_window browser s Hw).
    reflexivity.
Qed.

Lemma ensureContext_some_or_throw (s : State) :
  windowDefined browser = true -> fst (ensureContext browser s) <> Return None.
Proof.
  intros Hw. unfold ensureContext, bind, gets, modify, ret, throw. rewrite Hw. simpl.
  destruct (audioRef s); [discriminate |].
  destruct (AudioContextCtor browser); discriminate.
Qed.

(** [speakText] returns [null] only for want of a window or of a text. *)
Lemma speakText_null (text : jsstring) (e : EmotionPreset) (random : nat -> Q)
    (resumed : completion unit) (s : State) :
  fst (speakText browser text e random resumed s) = Return None ->
  windowDefined browser = false \/ Synth.normalise text = [].
Proof.
  intros H. destruct (windowDefined browser) eqn:Hw; [right | now left].
  pose proof (ensureContext_some_or_throw s Hw) as Hc.
  destruct (ensureContext browser s) as [[[ctx |] | x] s1] eqn:E; simpl in Hc.
  - rewrite (speakText_with browser s s1 ctx text e random resumed E) in H.
    cbn [fst] in H. unfold bind at 1, await in H.
    destruct (Synth.synthesiseText (unicodeLower browser) ctx text e random)
      as [[clip |] | x] eqn:Es.
    + unfold bind in H.
      destruct (playClip browser resumed (Some clip) (setIsBusy true s1)) as [[? | ?] ?];
        simpl in H; discriminate.
    + now apply (synthesiseText_null_iff (unicodeLower browser) ctx text e random).
    + simpl in H. discriminate.
  - contradiction.
  - unfold speakText, bind in H. rewrite E in H. simpl in H. discriminate.
Qed.

Lemma transform_some_or_throw (file : File) (ctx : AudioContext) (e : EmotionPreset) :
  transformBufferWithEmotion (rendered browser) file ctx e <> Return None.
Proof.
  unfold transformBufferWithEmotion.
  destruct (arrayBuffer file); [| discriminate].
  destruct (decodeAudioData ctx _); [| discriminate].
  destruct (offlineSupported _ _ _); [| discriminate].
  destruct (startRendering _ _); discriminate.
Qed.

Lemma playFile_null (file : File) (e : EmotionPreset) (resumed : completion unit)
    (s : State) :
  fst (playFile browser file e resumed s) = Return None ->
  windowDefined browser = false.
Proof.
  intros H. destruct (windowDefined browser) eqn:Hw; [exfalso | reflexivity].
  pose proof (ensureContext_some_or_throw s Hw) as Hc.
  destruct (ensureContext browser s) as [[[ctx |] | x] s1] eqn:E; simpl in Hc.
  - rewrite (playFile_with browser s s1 ctx file e resumed E) in H.
    cbn [fst] in H. unfold bind at 1, await in H.
    pose proof (transform_some_or_throw file ctx e) as Ht.
    destruct (transformBufferWithEmotion (rendered browser) file ctx e)
      as [[clip |] | x] eqn:Es.
    + unfold bind in H.
      destruct (playClip browser resumed (Some clip) (setIsBusy true s1)) as [[? | ?] ?];
        simpl in H; discriminate.
    + now apply Ht.
    + simpl in H. discriminate.
  - contradiction.
  - unfold playFile, bind in H. rewrite E in H. simpl in H. discriminate.
Qed.

(** The page's guard and the synthesiser's test for an empty text agree. *)
Lemma blankScript_normalise (script : jsstring) :
  Studio.blankScript script = true <-> Synth.normalise script = [].
Proof.
  rewrite normalise_nil_iff, <- trim_nil_iff. unfold Studio.blankScript.
  destruct (trim script); split; intros H; try reflexivity; discriminate.
Qed.

(** Where there is no window, the hook never gets its analyser. *)
Lemma no_window_step (s : State) (ev : Event) :
  (windowDefined browser = false -> analyserRef s = None) ->
  windowDefined browser = false -> analyserRef (step browser s ev) = None.
Proof.
  intros H Hw. specialize (H Hw).
  destruct (no_window_calls s Hw) as (H1 & H2 & H3).
  destruct ev; cbn [step].
  - now rewrite H1.
  - now rewrite H2.
  - now rewrite H3.
  - now destruct (stop_frame s) as (_ & -> & _).
  - apply (animationFrame_fold (fun s' => analyserRef s' = None)); auto.
  - now destruct (sourceEnded_frame s) as (_ & -> & _).
  - unfold unmount. destruct (stop_frame s) as (_ & Ha & _).
    destruct (audioRef (stop s)); simpl; congruence.
Qed.

(** With no analyser there is no loop. *)
Lemma no_analyser_no_loop (s : State) :
  loopConsistent s -> analyserRef s = None -> rafRef s = 0%N.
Proof.
  intros (_ & _ & Ha & _) E.
  destruct (N.eq_dec (rafRef s) 0) as [Z | NZ]; [exact Z |].
  exfalso. now apply (Ha NZ).
Qed.

(** *** What the page keeps true *)

Lemma steady_mount (script0 : jsstring) (emotion0 : EmotionPreset) :
  Studio.steady browser (Studio.mount script0 emotion0).
Proof.
  unfold Studio.steady, Studio.mount. cbn.
  repeat match goal with |- _ /\ _ => split end; try lra.
  - apply loopConsistent_initial.
  - constructor.
  - reflexivity.
  - intros N. contradiction.
Qed.

(** The page after an event of the hook, whatever the handler then does to
    the playing flag. *)
Lemma steady_after (p p' : Studio.StudioPage) (ev : Event) :
  Studio.steady browser p ->
  Studio.hook p' = step browser (Studio.hook p) ev ->
  (0 <= Studio.amplitude p' <= 1)%R ->
  (rafRef (Studio.hook p') <> 0%N -> Studio.isPlaying p' = true) ->
  Studio.steady browser p'.
Proof.
  intros (Ha & Hloop & Hlev & Hwin & Hplay) Eh Hamp Hp.
  unfold Studio.steady. rewrite Eh in *.
  repeat match goal with |- _ /\ _ => split end.
  - apply Hamp.
  - apply Hamp.
  - now apply loopConsistent_step.
  - now apply levelled_step.
  - now apply no_window_step.
  - exact Hp.
Qed.

Lemma withHook_amplitude (p : Studio.StudioPage) (ev : Event) :
  Studio.steady browser p ->
  (0 <= Studio.smoothed (Studio.amplitude p)
          (Studio.reports (Studio.hook p) (step browser (Studio.hook p) ev)) <= 1)%R.
Proof.
  intros (Ha & _ & Hlev & _).
  apply smoothed_range; [| exact Ha].
  apply reports_range. now apply levelled_step.
Qed.

(** A request made with the playing flag up; [r] tells whether the flag
    stays up. *)
Lemma steady_request (p q : Studio.StudioPage) (ev : Event) (r : bool) :
  Studio.steady browser p ->
  Studio.hook q = Studio.hook p ->
  Studio.amplitude q = Studio.amplitude p ->
  Studio.isPlaying q = true ->
  endedCount (step browser (Studio.hook p) ev) = endedCount (Studio.hook p) ->
  (r = false -> rafRef (step browser (Studio.hook p) ev) = 0%N) ->
  Studio.steady browser
    (let p2 := Studio.withHook (step browser (Studio.hook p) ev) q in
     if r then p2 else Studio.setIsPlaying false p2).
Proof.
  intros H Eh Ea Ep Eend Hr.
  apply (steady_after p _ ev H).
  - destruct r; reflexivity.
  - assert (Studio.amplitude
              (let p2 := Studio.withHook (step browser (Studio.hook p) ev) q in
               if r then p2 else Studio.setIsPlaying false p2)
            = Studio.smoothed (Studio.amplitude p)
                (Studio.reports (Studio.hook p) (step browser (Studio.hook p) ev))) as ->.
    { destruct r; cbn [Studio.amplitude Studio.withHook Studio.setIsPlaying];
        now rewrite Eh, Ea. }
    exact (withHook_amplitude p ev H).
  - destruct r.
    + intros _. cbn [Studio.isPlaying Studio.withHook].
      rewrite Eh, (endedSince_same _ _ Eend). exact Ep.
    + intros N. cbn [Studio.withHook Studio.hook Studio.setIsPlaying] in N.
      now rewrite Hr in N.
Qed.

Lemma steady_speak (p : Studio.StudioPage) (random : nat -> Q)
    (resumed : completion unit) :
  Studio.steady browser p -> Studio.steady browser (Studio.handleSpeak browser random resumed p).
Proof.
  intros H. unfold Studio.handleSpeak.
  destruct (Studio.blankScript (Studio.script p)) eqn:Eb; [exact H |].
  cbv zeta.
  change (Studio.hook (Studio.setIsPlaying true p)) with (Studio.hook p).
  set (variant := Page.createVariantEmotion (Studio.emotion p) random).
  set (rnd := fun k => random (5 + k)%nat).
  pose (ev := SpeakText (Studio.script p) variant rnd resumed).
  pose proof (proj1 (ended_calls (Studio.hook p)) (Studio.script p) variant rnd resumed)
    as Eend.
  destruct (fst (speakText browser (Studio.script p) variant rnd resumed (Studio.hook p)))
    as [[clip |] | x] eqn:Er.
  - refine (steady_request p (Studio.setIsPlaying true p) ev true H _ _ _ Eend _);
      try reflexivity; discriminate.
  - refine (steady_request p (Studio.setIsPlaying true p) ev false H _ _ _ Eend _);
      try reflexivity.
    intros _.
    destruct (speakText_null _ _ _ _ _ Er) as [Hw | Hn].
    + destruct H as (_ & Hloop & _ & Hwin & _).
      apply no_analyser_no_loop; [now apply loopConsistent_step |].
      now apply no_window_step.
    + apply blankScript_normalise in Hn. congruence.
  - refine (steady_request p (Studio.setIsPlaying true p) ev true H _ _ _ Eend _);
      try reflexivity; discriminate.
Qed.

Lemma steady_audio (p : Studio.StudioPage) (file : File) (resumed : completion unit) :
  Studio.steady browser p ->
  Studio.steady browser (Studio.handleAudioSelection browser file resumed p).
Proof.
  intros H. unfold Studio.handleAudioSelection. cbv zeta.
  change (Studio.hook (Studio.setIsPlaying true (Studio.setAudioName (name file) p)))
    with (Studio.hook p).
  pose (ev := PlayFile file (Studio.emotion p) resumed).
  pose proof (proj1 (proj2 (ended_calls (Studio.hook p))) file (Studio.emotion p) resumed)
    as Eend.
  destruct (fst (playFile browser file (Studio.emotion p) resumed (Studio.hook p)))
    as [[clip |] | x] eqn:Er.
  - refine (steady_request p _ ev true H _ _ _ Eend _); try reflexivity; discriminate.
  - refine (steady_request p _ ev false H _ _ _ Eend _); try reflexivity.
    intros _. pose proof (playFile_null _ _ _ _ Er) as Hw.
    destruct H as (_ & Hloop & _ & Hwin & _).
    apply no_analyser_no_loop; [now apply loopConsistent_step |].
    now apply no_window_step.
  - refine (steady_request p _ ev true H _ _ _ Eend _); try reflexivity; discriminate.
Qed.

Lemma steady_replay (p : Studio.StudioPage) (resumed : completion unit) :
  Studio.steady browser p ->
  Studio.steady browser
    (Studio.withHook (snd (replay browser resumed (Studio.hook p)))
                     (Studio.setIsPlaying true p)).
Proof.
  intros H.
  pose proof (proj2 (proj2 (ended_calls (Studio.hook p))) resumed) as Eend.
  refine (steady_request p (Studio.setIsPlaying true p) (Replay resumed) true H _ _ _
                         Eend _); try reflexivity; discriminate.
Qed.

Lemma steady_stop (p : Studio.StudioPage) :
  Studio.steady browser p -> Studio.steady browser (Studio.handleStop p).
Proof.
  intros H. apply (steady_after p _ Stop H).
  - reflexivity.
  - cbn [Studio.amplitude Studio.handleStop Studio.setAmplitude]. lra.
  - intros N. exfalso. apply N.
    cbn [Studio.hook Studio.handleStop Studio.setAmplitude Studio.setIsPlaying
         Studio.withHook].
    destruct H as (_ & Hloop & _). now destruct (stop_spec (Studio.hook p) Hloop).
Qed.

Lemma steady_frame (p : Studio.StudioPage) (dataArray : nat -> R) :
  Studio.steady browser p ->
  Studio.steady browser (Studio.withHook (animationFrame dataArray (Studio.hook p)) p).
Proof.
  intros H. apply (steady_after p _ (AnimationFrame dataArray) H).
  - reflexivity.
  - exact (withHook_amplitude p (AnimationFrame dataArray) H).
  - cbn [Studio.hook Studio.isPlaying Studio.withHook]. intros N.
    rewrite (endedSince_same _ _ (ended_animationFrame dataArray (Studio.hook p))).
    destruct H as (_ & Hloop & _ & _ & Hplay). apply Hplay. intros Z.
    destruct (animationFrame_spec dataArray (Studio.hook p) Hloop) as (_ & Hidle & _).
    now destruct (Hidle Z).
Qed.

Lemma steady_ended (p : Studio.StudioPage) :
  Studio.steady browser p ->
  Studio.steady browser (Studio.withHook (sourceEnded (Studio.hook p)) p).
Proof.
  intros H. apply (steady_after p _ SourceEnded H).
  - reflexivity.
  - exact (withHook_amplitude p SourceEnded H).
  - cbn [Studio.hook Studio.withHook]. intros N. exfalso. apply N.
    destruct H as (_ & Hloop & _). now destruct (sourceEnded_spec (Studio.hook p) Hloop).
Qed.

Lemma steady_act (p : Studio.StudioPage) (a : Studio.Action) :
  Studio.steady browser p -> Studio.steady browser (Studio.act browser p a).
Proof.
  intros H. destruct a; cbn [Studio.act].
  - exact H.
  - exact H.
  - now apply steady_speak.
  - now apply steady_speak.
  - now apply steady_audio.
  - now apply steady_stop.
  - unfold Studio.handleReplay.
    destruct (lastClipState (Studio.hook p)); [| exact H].
    exact (steady_replay p resumed H).
  - unfold Studio.handleExport.
    destruct (lastClipState (Studio.hook p)); [| exact H].
    destruct (negb (stream (Studio.hook p)) || negb canvasReady); [exact H |].
    destruct (negb mediaRecorder); [exact H |].
    exact (steady_replay p resumed H).
  - now apply steady_frame.
  - now apply steady_ended.
Qed.

Lemma steady_session (actions : list Studio.Action) (p : Studio.StudioPage) :
  Studio.steady browser p -> Studio.steady browser (Studio.session browser actions p).
Proof.
  unfold Studio.session. revert p.
  induction actions as [| a rest IH]; intros p H; simpl; [exact H |].
  apply IH, steady_act, H.
Qed.

(** With no loop running, animation frames leave the page as it is. *)
Lemma idle_page (frames : list (nat -> R)) (p : Studio.StudioPage) :
  loopConsistent (Studio.hook p) -> rafRef (Studio.hook p) = 0%N ->
  Studio.amplitude (Studio.session browser (map Studio.Frame frames) p)
  = Studio.amplitude p
  /\ Studio.isPlaying (Studio.session browser (map Studio.Frame frames) p)
     = Studio.isPlaying p.
Proof.
  unfold Studio.session. revert p.
  induction frames as [| d rest IH]; intros p Hloop Hr; simpl; [now split |].
  destruct (animationFrame_spec d (Studio.hook p) Hloop) as (Hloop' & Hidle & _).
  destruct (Hidle Hr) as (Hlog & Hr').
  destruct (IH (Studio.withHook (animationFrame d (Studio.hook p)) p) Hloop' Hr')
    as (-> & ->).
  cbn [Studio.amplitude Studio.isPlaying Studio.withHook].
  rewrite (endedSince_same _ _ (ended_animationFrame d (Studio.hook p))).
  rewrite (reports_app (Studio.hook p) (animationFrame d (Studio.hook p)) []).
  - split; reflexivity.
  - now rewrite app_nil_r.
Qed.

End StudioFacts.

(** X22.  The page smooths the reported amplitude exponentially: after [n]
    reports of the same value [v] the displayed amplitude has covered all but
    [0.68 ^ n] of its distance to [v]. *)
Theorem amplitude_relaxes_geometrically :
  forall (prev v : R) (n : nat),
    Studio.smoothed prev (repeat v n) = (v + 0.68 ^ n * (prev - v))%R
    /\ (Rabs (Studio.smoothed prev (repeat v n) - v) <= Rabs (prev - v))%R.
Proof.
  intros prev v n. rewrite smoothed_repeat. split; [reflexivity |].
  replace (v + 0.68 ^ n * (prev - v) - v)%R with (0.68 ^ n * (prev - v))%R by ring.
  rewrite Rabs_mult.
  assert (0 <= 0.68 ^ n <= 1)%R as [H0 H1].
  { split; [apply pow_le; lra |].
    rewrite <- (pow1 n). apply pow_incr. lra. }
  rewrite (Rabs_pos_eq _ H0).
  pose proof (Rabs_pos (prev - v)). nra.
Qed.


(** X24.  When a clip ends on its own the page lowers the playing flag and
    the displayed amplitude drops to 0.68 of its last value, where it stays
    however many animation frames follow; the stop button lowers the flag
    and resets the amplitude to 0. *)
Theorem amplitude_after_end_and_after_stop :
  forall (browser : Engine.Browser) (script0 : JS.jsstring) (emotion0 : EmotionPreset)
         (actions : list Studio.Action) (frames : list (nat -> R)),
    let p := Studio.session browser actions (Studio.mount script0 emotion0) in
    let ended :=
      Studio.session browser (map Studio.Frame frames) (Studio.act browser p Studio.Ended) in
    let stopped :=
      Studio.session browser (map Studio.Frame frames)
                     (Studio.act browser p Studio.StopPlayback) in
    Studio.amplitude ended = (Studio.amplitude p * 0.68)%R
    /\ Studio.isPlaying ended = false
    /\ Studio.amplitude stopped = 0%R
    /\ Studio.isPlaying stopped = false.
Proof.
  intros browser script0 emotion0 actions frames p ended stopped.
  destruct (steady_session browser actions _ (steady_mount browser script0 emotion0))
    as (_ & Hloop & _). fold p in Hloop.
  destruct (sourceEnded_spec (Studio.hook p) Hloop) as (Hr1 & _ & Hl1).
  destruct (stop_spec (Studio.hook p) Hloop) as (Hr2 & _ & _).
  destruct (idle_page browser frames (Studio.act browser p Studio.Ended)) as (A1 & P1).
  { cbn [Studio.act Studio.hook Studio.withHook]. now apply loopConsistent_sourceEnded. }
  { exact Hr1. }
  destruct (idle_page browser frames (Studio.act browser p Studio.StopPlayback))
    as (A2 & P2).
  { cbn [Studio.act Studio.handleStop Studio.hook Studio.withHook Studio.setAmplitude
         Studio.setIsPlaying].
    now apply loopConsistent_stop. }
  { exact Hr2. }
  subst ended stopped. rewrite A1, P1, A2, P2.
  cbn [Studio.act Studio.handleStop Studio.amplitude Studio.isPlaying Studio.withHook
       Studio.setAmplitude Studio.setIsPlaying].
  rewrite (reports_app _ _ [0%R] Hl1).
  repeat split.
  - unfold Studio.smoothed, Studio.handleAmplitude. simpl. lra.
  - unfold Studio.endedSince, Engine.sourceEnded. cbn [Engine.endedCount Engine.onEnded Engine.onAmplitude].
    replace (Engine.endedCount (Engine.cancelAnalyser (Studio.hook p)))
      with (Engine.endedCount (Studio.hook p)).
    + now rewrite (proj2 (Nat.ltb_lt _ _) (Nat.lt_succ_diag_r _)).
    + unfold Engine.cancelAnalyser. now destruct (Engine.rafRef (Studio.hook p) =? 0)%N.
Qed.

Section StudioRequests.
Import JS WebAudio Transformer Engine EngineShape.

Variable browser : Browser.

(** Animation frames never touch the playing flag. *)
Lemma frames_keep_flag (frames : list (nat -> R)) (p : Studio.StudioPage) :
  Studio.isPlaying (Studio.session browser (map Studio.Frame frames) p)
  = Studio.isPlaying p.
Proof.
  unfold Studio.session. revert p.
  induction frames as [| d rest IH]; intros p; simpl; [reflexivity |].
  rewrite IH. cbn [Studio.isPlaying Studio.withHook].
  now rewrite (endedSince_same _ _ (ended_animationFrame d (Studio.hook p))).
Qed.

Lemma handleSpeak_flag (p : Studio.StudioPage) (random : nat -> Q)
    (resumed : completion unit) :
  Studio.blankScript (Studio.script p) = false ->
  windowDefined browser = true ->
  Studio.isPlaying (Studio.handleSpeak browser random resumed p) = true.
Proof.
  intros Eb Hw. unfold Studio.handleSpeak. rewrite Eb. cbv zeta.
  change (Studio.hook (Studio.setIsPlaying true p)) with (Studio.hook p).
  set (variant := Page.createVariantEmotion (Studio.emotion p) random).
  set (rnd := fun k => random (5 + k)%nat).
  pose proof (proj1 (ended_calls browser (Studio.hook p)) (Studio.script p) variant rnd
                resumed) as Eend.
  destruct (fst (speakText browser (Studio.script p) variant rnd resumed (Studio.hook p)))
    as [[clip |] | x] eqn:Er.
  - cbn [Studio.isPlaying Studio.withHook Studio.hook Studio.setIsPlaying].
    now rewrite (endedSince_same _ _ Eend).
  - exfalso. destruct (speakText_null browser _ _ _ _ _ Er) as [Hn | Hn].
    + congruence.
    + apply blankScript_normalise in Hn. congruence.
  - cbn [Studio.isPlaying Studio.withHook Studio.hook Studio.setIsPlaying].
    now rewrite (endedSince_same _ _ Eend).
Qed.

End StudioRequests.

Section Variants.

(** A clamped value stays between any two bounds that enclose both the
    value and a point of the range. *)
Lemma page_clamp_between (x p lo hi a b : Q) :
  lo <= p -> p <= hi -> a <= p -> p <= b -> a <= x -> x <= b ->
  a <= Page.clamp x lo hi /\ Page.clamp x lo hi <= b.
Proof.
  intros H1 H2 H3 H4 H5 H6. unfold Page.clamp. split.
  - apply Q.min_glb.
    + now apply Qle_trans with p.
    + apply Qle_trans with x; [exact H5 | apply Q.le_max_r].
  - apply Qle_trans with (Qmax lo x); [apply Q.le_min_r |].
    apply Q.max_lub; [| exact H6].
    now apply Qle_trans with p.
Qed.

Lemma jitter_band (rnd : Q) :
  0 <= rnd -> rnd < 1 -> 0.92 <= Page.jitter rnd /\ Page.jitter rnd <= 1.08.
Proof. intros H0 H1. unfold Page.jitter. split; lra. Qed.

Lemma scaled_band (p j lo hi : Q) :
  0 <= p -> lo <= p -> p <= hi -> 0.92 <= j -> j <= 1.08 ->
  0.92 * p <= Page.clamp (p * j) lo hi /\ Page.clamp (p * j) lo hi <= 1.08 * p.
Proof.
  intros Hp Hlo Hhi Hj1 Hj2.
  apply (page_clamp_between (p * j) p lo hi); try assumption; try lra; nra.
Qed.

Lemma shifted_band (p d w lo hi : Q) :
  lo <= p -> p <= hi -> - w <= d -> d <= w ->
  p - w <= Page.clamp (p + d) lo hi /\ Page.clamp (p + d) lo hi <= p + w.
Proof.
  intros Hlo Hhi Hd1 Hd2.
  apply (page_clamp_between (p + d) p lo hi); try assumption; lra.
Qed.

End Variants.

(** X25.  On a page in a browser window, pressing Speak with a script that
    is not blank leaves the playing flag up whether the request succeeds or
    rejects, and no animation frame lowers it afterwards. *)
Theorem speak_raises_playing_flag :
  forall (browser : Engine.Browser) (p : Studio.StudioPage) (random : nat -> Q)
         (resumed : JS.completion unit) (frames : list (nat -> R)),
    Studio.blankScript (Studio.script p) = false ->
    Engine.windowDefined browser = true ->
    Studio.isPlaying
      (Studio.session browser (Studio.Speak random resumed :: map Studio.Frame frames) p)
    = true.
Proof.
  intros browser p random resumed frames Eb Hw.
  change (Studio.session browser (Studio.Speak random resumed :: map Studio.Frame frames) p)
    with (Studio.session browser (map Studio.Frame frames)
            (Studio.handleSpeak browser random resumed p)).
  rewrite frames_keep_flag. now apply handleSpeak_flag.
Qed.

Lemma speak_raises_playing_flag_witness :
  Studio.isPlaying
    (Studio.session
       {| Engine.windowDefined := true; Engine.AudioContextCtor := None;
          Engine.rendered := Examples.silence; Engine.unicodeLower := Examples.caseless |}
       (Studio.Speak Examples.halves (JS.Return tt) :: map Studio.Frame [])
       (Studio.mount (JS.fromAscii "Hi") Examples.defaultProfile))
  = true.
Proof.
  apply (speak_raises_playing_flag
           {| Engine.windowDefined := true; Engine.AudioContextCtor := None;
              Engine.rendered := Examples.silence;
              Engine.unicodeLower := Examples.caseless |}
           (Studio.mount (JS.fromAscii "Hi") Examples.defaultProfile)
           Examples.halves (JS.Return tt) []); reflexivity.
Defined.

(** X26.  A variant of a preset that is within the documented ranges stays
    close to it when the random draws lie in [0, 1): tempo, gesture and mouth
    intensity within 8 percent, pitch within 0.8 semitones, brow lift within
    0.2; identifier, label, description and accent colour are the preset's. *)
Theorem variant_stays_near_preset :
  forall (preset : EmotionPreset) (random : nat -> Q),
    Spec.inRange preset ->
    (forall k, 0 <= random k /\ random k < 1) ->
    let v := Page.createVariantEmotion preset random in
    (0.92 * tempoMultiplier preset <= tempoMultiplier v
     /\ tempoMultiplier v <= 1.08 * tempoMultiplier preset)
    /\ (pitchShift preset - 0.8 <= pitchShift v /\ pitchShift v <= pitchShift preset + 0.8)
    /\ (0.92 * gestureIntensity preset <= gestureIntensity v
        /\ gestureIntensity v <= 1.08 * gestureIntensity preset)
    /\ (0.92 * mouthIntensity preset <= mouthIntensity v
        /\ mouthIntensity v <= 1.08 * mouthIntensity preset)
    /\ (browLift preset - 0.2 <= browLift v /\ browLift v <= browLift preset + 0.2)
    /\ presetId v = presetId preset
    /\ label v = label preset
    /\ description v = description preset
    /\ accentColor v = accentColor preset.
Proof.
  intros preset random ((T1 & T2) & (P1 & P2) & (G1 & G2) & (M1 & M2) & (B1 & B2)) Hr v.
  subst v. unfold Page.createVariantEmotion.
  cbn [tempoMultiplier pitchShift gestureIntensity mouthIntensity browLift presetId label
       description accentColor].
  pose proof (Hr 0%nat) as (R0 & R0'). pose proof (Hr 1%nat) as (R1 & R1').
  pose proof (Hr 2%nat) as (R2 & R2'). pose proof (Hr 3%nat) as (R3 & R3').
  pose proof (Hr 4%nat) as (R4 & R4').
  repeat match goal with |- _ /\ _ => split end; try reflexivity.
  - apply scaled_band; try assumption; try lra; now apply jitter_band.
  - apply scaled_band; try assumption; try lra; now apply jitter_band.
  - apply shifted_band; try assumption; lra.
  - apply shifted_band; try assumption; lra.
  - apply scaled_band; try assumption; try lra; now apply jitter_band.
  - apply scaled_band; try assumption; try lra; now apply jitter_band.
  - apply scaled_band; try assumption; try lra; now apply jitter_band.
  - apply scaled_band; try assumption; try lra; now apply jitter_band.
  - apply shifted_band; try assumption; lra.
  - apply shifted_band; try assumption; lra.
Qed.

Lemma variant_stays_near_preset_witness :
  0.92 * tempoMultiplier Examples.defaultProfile
  <= tempoMultiplier (Page.createVariantEmotion Examples.defaultProfile Examples.halves).
Proof.
  refine (proj1 (proj1 (variant_stays_near_preset Examples.defaultProfile Examples.halves
                          _ _))).
  - unfold Spec.inRange. vm_compute. repeat split; discriminate.
  - intros k. unfold Examples.halves. split; [discriminate | reflexivity].
Defined.

(** X27.  The page's guard on the script and the synthesiser's test for an
    empty text agree: the page refuses to speak exactly the scripts for which
    the synthesiser would return [null], and leaves itself unchanged for
    them; for every other script the synthesiser never returns [null]. *)
Theorem speak_guard_matches_synthesiser :
  forall (browser : Engine.Browser) (p : Studio.StudioPage) (random : nat -> Q)
         (resumed : JS.completion unit),
    (Studio.blankScript (Studio.script p) = true
     <-> Synth.normalise (Studio.script p) = [])
    /\ (Studio.blankScript (Studio.script p) = true ->
        Studio.handleSpeak browser random resumed p = p
        /\ Studio.handleRegenerate browser random resumed p = p)
    /\ (Studio.blankScript (Studio.script p) = false ->
        forall (ctx : WebAudio.AudioContext) (e : EmotionPreset) (rnd : nat -> Q),
          Synth.synthesiseText (Engine.unicodeLower browser) ctx (Studio.script p) e rnd
          <> JS.Return None).
Proof.
  intros browser p random resumed. split; [apply blankScript_normalise |]. split.
  - intros Eb. unfold Studio.handleSpeak, Studio.handleRegenerate. rewrite Eb.
    split; reflexivity.
  - intros Eb ctx e rnd Hn.
    apply synthesiseText_null_iff, blankScript_normalise in Hn. congruence.
Qed.

(** ** The avatar *)

Section AvatarFacts.
Import Avatar.

Lemma lerp_error (a b t : R) : (lerp a b t - b = (1 - t) * (a - b))%R.
Proof. unfold lerp. ring. Qed.

Lemma lerp_between (a b t lo hi : R) :
  (0 <= t <= 1)%R -> (lo <= a <= hi)%R -> (lo <= b <= hi)%R ->
  (lo <= lerp a b t <= hi)%R.
Proof. intros Ht Ha Hb. unfold lerp. split; nra. Qed.

Lemma lerp_mirror (a b t : R) : lerp (- a) (- b) t = (- lerp a b t)%R.
Proof. unfold lerp. ring. Qed.

Lemma faceRigFrames_cons (emotion : EmotionPreset) (f : Frame) (rest : list Frame)
    (r : FaceRefs) :
  faceRigFrames emotion (f :: rest) r = faceRigFrames emotion rest (faceRigFrame emotion f r).
Proof. reflexivity. Qed.

Lemma imageBillboardFrames_cons (emotion : EmotionPreset) (f : Frame) (rest : list Frame)
    (r : BillboardRefs) :
  imageBillboardFrames emotion (f :: rest) r
  = imageBillboardFrames emotion rest (imageBillboardFrame emotion f r).
Proof. reflexivity. Qed.

Lemma handsFrames_cons (isLeft : bool) (emotion : EmotionPreset) (f : Frame)
    (rest : list Frame) (g : option Object3D) :
  handsFrames isLeft emotion (f :: rest) g
  = handsFrames isLeft emotion rest (handsFrame isLeft emotion f g).
Proof. reflexivity. Qed.

(** The mouth of the rig after one frame. *)
Lemma faceRigFrame_mouth (emotion : EmotionPreset) (f : Frame) (r : FaceRefs)
    (m : Object3D) :
  mouth r = Some m ->
  mouth (faceRigFrame emotion f r)
  = Some (setScaleXY m
            (lerp (Vec3.x (scale m)) (1 + amplitude f * 0.18) (delta f * 6))
            (lerp (Vec3.y (scale m)) (mouthTarget emotion (amplitude f)) (delta f * 10))).
Proof. intros E. unfold faceRigFrame. cbn [mouth]. rewrite E. reflexivity. Qed.

Lemma mouthIntensity_real (emotion : EmotionPreset) :
  0.4 <= mouthIntensity emotion -> mouthIntensity emotion <= 1.4 ->
  (0.4 <= Q2R (mouthIntensity emotion) <= 1.4)%R.
Proof.
  intros H1 H2. apply Qle_Rle in H1, H2.
  replace (Q2R 0.4) with 0.4%R in H1 by (unfold Q2R; cbn; lra).
  replace (Q2R 1.4) with 1.4%R in H2 by (unfold Q2R; cbn; lra).
  split; assumption.
Qed.

End AvatarFacts.

(** X28.  While the amplitude and the frame time stay the same, the mouth of
    the 3D rig closes in on its target geometrically: each frame multiplies
    the distance of its height to [0.2 + amplitude * (0.8 + mouthIntensity *
    0.4)] by [1 - 10 * delta] and that of its width to [1 + 0.18 * amplitude]
    by [1 - 6 * delta]; nothing else of the mouth changes. *)
Theorem mouth_closes_in_on_target :
  forall (emotion : EmotionPreset) (frames : list Avatar.Frame) (A d : R)
         (refs : Avatar.FaceRefs) (m : Avatar.Object3D),
    Avatar.mouth refs = Some m ->
    Forall (fun f => Avatar.amplitude f = A /\ Avatar.delta f = d) frames ->
    exists m',
      Avatar.mouth (Avatar.faceRigFrames emotion frames refs) = Some m'
      /\ (Vec3.y (Avatar.scale m') - Avatar.mouthTarget emotion A
          = (1 - d * 10) ^ List.length frames
            * (Vec3.y (Avatar.scale m) - Avatar.mouthTarget emotion A))%R
      /\ (Vec3.x (Avatar.scale m') - (1 + A * 0.18)
          = (1 - d * 6) ^ List.length frames * (Vec3.x (Avatar.scale m) - (1 + A * 0.18)))%R
      /\ Vec3.z (Avatar.scale m') = Vec3.z (Avatar.scale m)
      /\ Avatar.position m' = Avatar.position m
      /\ Avatar.rotation m' = Avatar.rotation m
      /\ Avatar.opacity m' = Avatar.opacity m.
Proof.
  intros emotion frames A d refs m Em Hf. revert refs m Em.
  induction Hf as [| f rest (HA & Hd) _ IH]; intros refs m Em.
  - exists m. cbn [List.length pow]. repeat split; try ring. exact Em.
  - rewrite faceRigFrames_cons.
    pose proof (faceRigFrame_mouth emotion f refs m Em) as E1. rewrite HA, Hd in E1.
    destruct (IH _ _ E1) as (m' & Em' & Hy & Hx & Hz & Hp & Hr & Ho).
    exists m'. split; [exact Em' |].
    cbn [Avatar.setScaleXY Avatar.scale Avatar.position Avatar.rotation Avatar.opacity
         Vec3.x Vec3.y Vec3.z] in Hy, Hx, Hz, Hp, Hr, Ho.
    rewrite Hy, Hx, !lerp_error.
    cbn [List.length]. rewrite <- !tech_pow_Rmult.
    repeat split; try assumption; ring.
Qed.

Lemma mouth_closes_in_on_target_witness :
  exists m',
    Avatar.mouth (Avatar.faceRigFrames Examples.defaultProfile [Scene.frame] Scene.faceRig)
    = Some m'.
Proof.
  destruct (mouth_closes_in_on_target Examples.defaultProfile [Scene.frame] 0.5 0.05
              Scene.faceRig (Scene.node 0 (-0.2) 0.75 0 1.2 0.45 0.1 1) eq_refl)
    as (m' & E & _).
  - constructor; [split; reflexivity | constructor].
  - exists m'. exact E.
Defined.

Section AvatarRanges.
Import Avatar.

Lemma imageBillboardFrame_mouth (emotion : EmotionPreset) (f : Frame) (r : BillboardRefs)
    (m : Object3D) :
  portraitMouth r = Some m ->
  portraitMouth (imageBillboardFrame emotion f r)
  = Some (setOpacity
            (setScaleXY m
               (lerp (Vec3.x (scale m)) (1 + amplitude f * 0.18) (delta f * 6))
               (lerp (Vec3.y (scale m))
                     (0.18 + amplitude f * (0.9 + Q2R (mouthIntensity emotion) * 0.5))
                     (delta f * 10)))
            (lerp (opacity m) (0.25 + amplitude f * 0.35) (delta f * 6))).
Proof. intros E. unfold imageBillboardFrame. cbn [portraitMouth]. rewrite E. reflexivity. Qed.

Lemma faceRigFrame_brows (emotion : EmotionPreset) (f : Frame) (r : FaceRefs)
    (bl br : Object3D) :
  browsLeft r = Some bl -> browsRight r = Some br ->
  exists bl' br',
    browsLeft (faceRigFrame emotion f r) = Some bl'
    /\ browsRight (faceRigFrame emotion f r) = Some br'
    /\ Vec3.z (rotation bl')
       = lerp (Vec3.z (rotation bl)) (0.06 + Q2R (browLift emotion) * 0.15) (delta f * 6)
    /\ Vec3.z (rotation br')
       = lerp (Vec3.z (rotation br)) (-0.06 - Q2R (browLift emotion) * 0.15) (delta f * 6).
Proof.
  intros El Er. unfold faceRigFrame. cbn [browsLeft browsRight]. rewrite El, Er.
  cbn [option_map]. eexists. eexists. repeat split.
Qed.

Lemma handsFrame_roll (emotion : EmotionPreset) (f : Frame) (isLeft : bool)
    (g : Object3D) :
  exists g',
    handsFrame isLeft emotion f (Some g) = Some g'
    /\ Vec3.z (rotation g')
       = lerp (Vec3.z (rotation g))
              (if isLeft then 0.5 + amplitude f * -0.6 else -0.5 + amplitude f * 0.6)
              (delta f * 3).
Proof. unfold handsFrame. eexists. split; reflexivity. Qed.

End AvatarRanges.

(** X29.  Fed amplitudes in [0, 1] at ten frames a second or more, with a
    mouth intensity in its documented range, the mouth stays within its
    design range: in the 3D rig its height scale stays in [0.2, 1.56] and its
    width scale in [1, 1.2]; on the portrait its height scale stays in
    [0.18, 1.78], its width scale in [1, 1.18] and its opacity in
    [0.18, 0.6]. *)
Theorem mouth_stays_in_range :
  forall (emotion : EmotionPreset) (frames : list Avatar.Frame),
    0.4 <= mouthIntensity emotion ->
    mouthIntensity emotion <= 1.4 ->
    Forall (fun f => (0 <= Avatar.amplitude f <= 1)%R /\ (0 <= Avatar.delta f <= 0.1)%R)
           frames ->
    (forall (refs : Avatar.FaceRefs) (m : Avatar.Object3D),
        Avatar.mouth refs = Some m ->
        (0.2 <= Vec3.y (Avatar.scale m) <= 1.56)%R ->
        (1 <= Vec3.x (Avatar.scale m) <= 1.2)%R ->
        exists m',
          Avatar.mouth (Avatar.faceRigFrames emotion frames refs) = Some m'
          /\ (0.2 <= Vec3.y (Avatar.scale m') <= 1.56)%R
          /\ (1 <= Vec3.x (Avatar.scale m') <= 1.2)%R)
    /\ (forall (refs : Avatar.BillboardRefs) (m : Avatar.Object3D),
           Avatar.portraitMouth refs = Some m ->
           (0.18 <= Vec3.y (Avatar.scale m) <= 1.78)%R ->
           (1 <= Vec3.x (Avatar.scale m) <= 1.18)%R ->
           (0.18 <= Avatar.opacity m <= 0.6)%R ->
           exists m',
             Avatar.portraitMouth (Avatar.imageBillboardFrames emotion frames refs) = Some m'
             /\ (0.18 <= Vec3.y (Avatar.scale m') <= 1.78)%R
             /\ (1 <= Vec3.x (Avatar.scale m') <= 1.18)%R
             /\ (0.18 <= Avatar.opacity m' <= 0.6)%R).
Proof.
  intros emotion frames M1 M2 Hf.
  pose proof (mouthIntensity_real emotion M1 M2) as HM.
  split.
  - induction Hf as [| f rest (HA & Hd) _ IH]; intros refs m Em Hy Hx.
    + exists m. repeat split; try apply Hy; try apply Hx. exact Em.
    + rewrite faceRigFrames_cons.
      apply (IH _ _ (faceRigFrame_mouth emotion f refs m Em));
        cbn [Avatar.setScaleXY Avatar.scale Vec3.x Vec3.y].
      * apply lerp_between; [lra | exact Hy |].
        unfold Avatar.mouthTarget. split; nra.
      * apply lerp_between; [lra | exact Hx |]. split; nra.
  - induction Hf as [| f rest (HA & Hd) _ IH]; intros refs m Em Hy Hx Ho.
    + exists m. repeat split; try apply Hy; try apply Hx; try apply Ho. exact Em.
    + rewrite imageBillboardFrames_cons.
      apply (IH _ _ (imageBillboardFrame_mouth emotion f refs m Em));
        cbn [Avatar.setOpacity Avatar.setScaleXY Avatar.scale Avatar.opacity Vec3.x Vec3.y].
      * apply lerp_between; [lra | exact Hy |]. split; nra.
      * apply lerp_between; [lra | exact Hx |]. split; nra.
      * apply lerp_between; [lra | exact Ho |]. split; nra.
Qed.

Lemma mouth_stays_in_range_witness :
  exists m',
    Avatar.mouth (Avatar.faceRigFrames Examples.defaultProfile [Scene.frame] Scene.faceRig)
    = Some m'
    /\ (0.2 <= Vec3.y (Avatar.scale m') <= 1.56)%R.
Proof.
  assert (0.4 <= mouthIntensity Examples.defaultProfile) as M1 by discriminate.
  assert (mouthIntensity Examples.defaultProfile <= 1.4) as M2 by discriminate.
  assert (Forall (fun f => (0 <= Avatar.amplitude f <= 1)%R
                           /\ (0 <= Avatar.delta f <= 0.1)%R) [Scene.frame]) as Hf.
  { constructor; [| constructor]. cbn [Avatar.amplitude Avatar.delta Scene.frame]. lra. }
  destruct (proj1 (mouth_stays_in_range Examples.defaultProfile [Scene.frame] M1 M2 Hf)
              Scene.faceRig (Scene.node 0 (-0.2) 0.75 0 1.2 0.45 0.1 1) eq_refl)
    as (m' & E & Hy & _).
  - cbn [Avatar.scale Vec3.y Scene.node]. lra.
  - cbn [Avatar.scale Vec3.x Scene.node]. lra.
  - exists m'. split; assumption.
Defined.

(** X30.  The rig keeps its symmetry: brows that start with opposite rolls
    and hands that start with opposite rolls still have opposite rolls after
    any number of frames, whatever the amplitude, the emotion and the frame
    times. *)
Theorem brows_and_hands_stay_mirrored :
  forall (emotion : EmotionPreset) (frames : list Avatar.Frame)
         (refs : Avatar.FaceRefs) (bl br hl hr : Avatar.Object3D),
    Avatar.browsLeft refs = Some bl ->
    Avatar.browsRight refs = Some br ->
    Vec3.z (Avatar.rotation bl) = (- Vec3.z (Avatar.rotation br))%R ->
    Vec3.z (Avatar.rotation hl) = (- Vec3.z (Avatar.rotation hr))%R ->
    exists bl' br' hl' hr',
      Avatar.browsLeft (Avatar.faceRigFrames emotion frames refs) = Some bl'
      /\ Avatar.browsRight (Avatar.faceRigFrames emotion frames refs) = Some br'
      /\ Avatar.handsFrames true emotion frames (Some hl) = Some hl'
      /\ Avatar.handsFrames false emotion frames (Some hr) = Some hr'
      /\ Vec3.z (Avatar.rotation bl') = (- Vec3.z (Avatar.rotation br'))%R
      /\ Vec3.z (Avatar.rotation hl') = (- Vec3.z (Avatar.rotation hr'))%R.
Proof.
  intros emotion frames. induction frames as [| f rest IH];
    intros refs bl br hl hr El Er Hb Hh.
  - exists bl, br, hl, hr. repeat split; assumption.
  - rewrite faceRigFrames_cons, !handsFrames_cons.
    destruct (faceRigFrame_brows emotion f refs bl br El Er)
      as (bl1 & br1 & El1 & Er1 & Zl & Zr).
    destruct (handsFrame_roll emotion f true hl) as (hl1 & Ehl & Zhl).
    destruct (handsFrame_roll emotion f false hr) as (hr1 & Ehr & Zhr).
    rewrite Ehl, Ehr.
    apply (IH _ bl1 br1 hl1 hr1 El1 Er1).
    + rewrite Zl, Zr, Hb, <- lerp_mirror. f_equal. lra.
    + rewrite Zhl, Zhr, Hh, <- lerp_mirror. f_equal. lra.
Qed.

Lemma brows_and_hands_stay_mirrored_witness :
  exists bl' br',
    Avatar.browsLeft (Avatar.faceRigFrames Examples.defaultProfile [Scene.frame] Scene.faceRig)
    = Some bl'
    /\ Avatar.browsRight
         (Avatar.faceRigFrames Examples.defaultProfile [Scene.frame] Scene.faceRig)
       = Some br'
    /\ Vec3.z (Avatar.rotation bl') = (- Vec3.z (Avatar.rotation br'))%R.
Proof.
  destruct (brows_and_hands_stay_mirrored Examples.defaultProfile [Scene.frame]
              Scene.faceRig
              (Scene.node (-0.35) 0.52 0.59 0.1 1 1 1 1)
              (Scene.node 0.35 0.52 0.59 (-0.1) 1 1 1 1)
              (Scene.hand true) (Scene.hand false) eq_refl eq_refl)
    as (bl' & br' & hl' & hr' & El & Er & _ & _ & Hb & _).
  - cbn [Avatar.rotation Vec3.z Scene.node]. lra.
  - cbn [Avatar.rotation Vec3.z Scene.node Scene.hand]. lra.
  - exists bl', br'. repeat split; assumption.
Defined.
